(** * Manual control mode (Marlin/src/feature/manual_control.cpp)

    A shallow embedding of the manual stepper control feature: the
    thermistor resistance estimate, the median-filtered ADC position
    tracker and the serial command interpreter.

    Conventions.
    - Fixed-width integers are [Z] with the wrap-around written out
      ([wrap_u8], [wrap_u16], [wrap_u32], [wrap_i32]).
    - [float] is IEEE 754 binary32, round to nearest even (module [F32]).
    - Arrays are lists; an access outside the array has no defined
      behaviour and is modelled as [None].
    - Pin writes, busy-wait delays, watchdog refreshes and serial output
      are recorded, in program order, in the [trace] field of the state.
    - [millis()] and [analogRead()] are inputs, supplied by an [env]. *)

From Stdlib Require Import ZArith Lia String Ascii SpecFloat.
From stdpp Require Import base option list sorting.

Local Open Scope Z_scope.

(** ** Fixed-width integers *)

Definition wrap_u8 (z : Z) : Z := z mod 2 ^ 8.
Definition wrap_u16 (z : Z) : Z := z mod 2 ^ 16.
Definition wrap_u32 (z : Z) : Z := z mod 2 ^ 32.
Definition wrap_i32 (z : Z) : Z := (z + 2 ^ 31) mod 2 ^ 32 - 2 ^ 31.

(** ** IEEE 754 binary32

    A finite value is stored as its (signed) number of units of
    [2^-149], the spacing of the subnormals, of which every binary32
    value is an integer multiple.  The sign of zero is not kept: no
    function of this file divides by a zero or prints one's sign.
    Every operation is the exact result rounded to nearest, ties to
    even, as IEEE 754 prescribes. *)

Module F32.

Inductive float32 : Type :=
| Fin (u : Z)
| Inf (negative : bool)
| NaN.

(** Nearest integer to [n / d] for [0 < d], ties to even. *)
Definition rne (n d : Z) : Z :=
  let q := n / d in
  let r := n mod d in
  if 2 * r <? d then q
  else if d <? 2 * r then q + 1
  else if Z.even q then q else q + 1.

(** Exponent (in units) of the grid around [x]: 24 significant bits,
    never finer than one unit. *)
Definition grid (x : Z) : Z := Z.max (Z.log2 x - 23) 0.

(** Rounding of the non-negative rational [n / d] units ([0 <= n],
    [0 < d]); results from [2^128] on overflow to infinity. *)
Definition round_pos (n d : Z) : float32 :=
  let e := grid (n / d) in
  let u := rne n (d * 2 ^ e) * 2 ^ e in
  if u <? 2 ^ 277 then Fin u else Inf false.

Definition neg (x : float32) : float32 :=
  match x with
  | Fin u => Fin (- u)
  | Inf s => Inf (negb s)
  | NaN => NaN
  end.

(** Rounding of [n / d] units, [0 < d]. *)
Definition round (n d : Z) : float32 :=
  if 0 <=? n then round_pos n d else neg (round_pos (- n) d).

Definition is_neg (u : Z) : bool := u <? 0.

Definition mul (x y : float32) : float32 :=
  match x, y with
  | NaN, _ | _, NaN => NaN
  | Fin a, Fin b => round (a * b) (2 ^ 149)
  | Fin a, Inf s | Inf s, Fin a =>
      if a =? 0 then NaN else Inf (xorb s (is_neg a))
  | Inf s, Inf t => Inf (xorb s t)
  end.

Definition sub (x y : float32) : float32 :=
  match x, y with
  | NaN, _ | _, NaN => NaN
  | Fin a, Fin b => round (a - b) 1
  | Fin _, Inf s => Inf (negb s)
  | Inf s, Fin _ => Inf s
  | Inf s, Inf t => if Bool.eqb s t then NaN else Inf s
  end.

Definition div (x y : float32) : float32 :=
  match x, y with
  | NaN, _ | _, NaN => NaN
  | Fin a, Fin b =>
      if b =? 0 then (if a =? 0 then NaN else Inf (is_neg a))
      else if 0 <? b then round (a * 2 ^ 149) b
      else round (- a * 2 ^ 149) (- b)
  | Fin _, Inf _ => Fin 0
  | Inf s, Fin b => Inf (xorb s (is_neg b))
  | Inf _, Inf _ => NaN
  end.

(** Comparisons; each is false as soon as an operand is a NaN. *)
Definition le (x y : float32) : bool :=
  match x, y with
  | NaN, _ | _, NaN => false
  | Fin a, Fin b => a <=? b
  | Fin _, Inf s => negb s
  | Inf s, Fin _ => s
  | Inf s, Inf t => s || negb t
  end.

Definition lt (x y : float32) : bool :=
  match x, y with
  | NaN, _ | _, NaN => false
  | Fin a, Fin b => a <? b
  | Fin _, Inf s => negb s
  | Inf s, Fin _ => s
  | Inf s, Inf t => s && negb t
  end.

Definition ge (x y : float32) : bool := le y x.
Definition gt (x y : float32) : bool := lt y x.

(** Conversion of an integer below [2^24], which is exact. *)
Definition of_int (z : Z) : float32 := Fin (z * 2 ^ 149).

(** The decimal literal [n / d], rounded as the compiler does. *)
Definition literal (n d : Z) : float32 := round (n * 2 ^ 149) d.

(** The values of this format: below [2^128] in magnitude and on the
    grid of their own binade. *)
Definition representable (x : float32) : bool :=
  match x with
  | Fin u => (Z.abs u <? 2 ^ 277) && (Z.abs u mod 2 ^ grid (Z.abs u) =? 0)
  | _ => true
  end.

End F32.

(** ** C strings

    A [const char*] is the text it points to; the terminating NUL is
    the end of the [string], and a NUL byte inside one ends the C string
    there. *)

Definition nul : ascii := "000"%char.

Definition is_nul (c : ascii) : bool := Ascii.eqb c nul.

(** [*p] *)
Definition deref (p : string) : ascii :=
  match p with
  | EmptyString => nul
  | String c _ => c
  end.

(** The characters before the terminator. *)
Fixpoint c_str (p : string) : string :=
  match p with
  | EmptyString => EmptyString
  | String c r => if is_nul c then EmptyString else String c (c_str r)
  end.

(** [p + n], defined while it stays within the text and its terminator. *)
Fixpoint ptr_add (p : string) (n : nat) {struct n} : option string :=
  match n with
  | O => Some p
  | S n' =>
      match p with
      | EmptyString => None
      | String c r => if is_nul c then None else ptr_add r n'
      end
  end.

Fixpoint take_chars (n : nat) (p : string) : string :=
  match n, p with
  | S n', String c r => String c (take_chars n' r)
  | _, _ => EmptyString
  end.

(** [strcmp(a, b) == 0] *)
Definition strcmp (a b : string) : bool := String.eqb (c_str a) (c_str b).

(** [strncmp(a, b, n) == 0] *)
Definition strncmp (a b : string) (n : nat) : bool :=
  String.eqb (take_chars n (c_str a)) (take_chars n (c_str b)).

Definition strlen (p : string) : Z := Z.of_nat (String.length (c_str p)).

Definition char_code (c : ascii) : Z := Z.of_N (N_of_ascii c).

(** [c >= '0' && c <= '9'] *)
Definition is_digit (c : ascii) : bool :=
  (48 <=? char_code c) && (char_code c <=? 57).

(** ** Pins, output events and the state *)

Inductive pin : Type :=
| X_STEP_PIN | X_DIR_PIN | Y_STEP_PIN | Y_DIR_PIN
| Z_STEP_PIN | Z_DIR_PIN | E0_STEP_PIN | E0_DIR_PIN
| X_ENABLE_PIN | TEMP_0_PIN | TEMP_BED_PIN.

Inductive level : Type := LOW | HIGH.

Inductive printable : Type :=
| Text (s : string)
| Int (z : Z)
| Float (f : F32.float32).

Inductive event : Type :=
| WRITE (p : pin) (l : level)
| DELAY_US (us : Z)
| SERIAL_ECHO (v : printable)
| SERIAL_ECHOLN (v : printable)
| watchdog_refresh.

Definition ADC_SAMPLES : Z := 8.

(** [adc_range] is never assigned: it keeps its initial value. *)
Definition adc_range : Z := 4095.

Record state : Type := mkState {
  adc_control_active : bool;
  adc_current_position : Z;   (* int32_t *)
  adc_target_position : Z;    (* int32_t *)
  position_range : Z;         (* int32_t *)
  last_adc_move : Z;          (* uint32_t *)
  adc_buffer : list Z;        (* uint16_t [ADC_SAMPLES] *)
  adc_buffer_index : Z;       (* uint8_t *)
  adc_buffer_filled : bool;
  update_counter : Z;         (* uint8_t, static in manual_adc_control_y *)
  trace : list event
}.

Record env : Type := mkEnv {
  millis : Z;
  analogRead : pin -> Z
}.

Definition initial_state : state :=
  {| adc_control_active := false;
     adc_current_position := 0;
     adc_target_position := 0;
     position_range := 6400;
     last_adc_move := 0;
     adc_buffer := replicate 8 0;
     adc_buffer_index := 0;
     adc_buffer_filled := false;
     update_counter := 0;
     trace := [] |}.

Definition set_active (b : bool) (s : state) : state :=
  mkState b (adc_current_position s) (adc_target_position s)
    (position_range s) (last_adc_move s) (adc_buffer s)
    (adc_buffer_index s) (adc_buffer_filled s) (update_counter s) (trace s).

Definition set_current (z : Z) (s : state) : state :=
  mkState (adc_control_active s) z (adc_target_position s)
    (position_range s) (last_adc_move s) (adc_buffer s)
    (adc_buffer_index s) (adc_buffer_filled s) (update_counter s) (trace s).

Definition set_target (z : Z) (s : state) : state :=
  mkState (adc_control_active s) (adc_current_position s) z
    (position_range s) (last_adc_move s) (adc_buffer s)
    (adc_buffer_index s) (adc_buffer_filled s) (update_counter s) (trace s).

Definition set_range (z : Z) (s : state) : state :=
  mkState (adc_control_active s) (adc_current_position s)
    (adc_target_position s) z (last_adc_move s) (adc_buffer s)
    (adc_buffer_index s) (adc_buffer_filled s) (update_counter s) (trace s).

Definition set_last_move (z : Z) (s : state) : state :=
  mkState (adc_control_active s) (adc_current_position s)
    (adc_target_position s) (position_range s) z (adc_buffer s)
    (adc_buffer_index s) (adc_buffer_filled s) (update_counter s) (trace s).

Definition set_samples (buf : list Z) (i : Z) (filled : bool) (s : state)
  : state :=
  mkState (adc_control_active s) (adc_current_position s)
    (adc_target_position s) (position_range s) (last_adc_move s) buf
    i filled (update_counter s) (trace s).

Definition set_counter (z : Z) (s : state) : state :=
  mkState (adc_control_active s) (adc_current_position s)
    (adc_target_position s) (position_range s) (last_adc_move s)
    (adc_buffer s) (adc_buffer_index s) (adc_buffer_filled s) z (trace s).

(** Append output events, in program order. *)
Definition emit (es : list event) (s : state) : state :=
  mkState (adc_control_active s) (adc_current_position s)
    (adc_target_position s) (position_range s) (last_adc_move s)
    (adc_buffer s) (adc_buffer_index s) (adc_buffer_filled s)
    (update_counter s) (trace s ++ es).

Definition SERIAL_ECHOLNPGM (s : string) : event := SERIAL_ECHOLN (Text s).

(** ** Arrays and loops *)

(** [a[i]] *)
Definition array_get (a : list Z) (i : Z) : option Z :=
  if 0 <=? i then a !! Z.to_nat i else None.

(** [a[i] = v] *)
Definition array_set (a : list Z) (i : Z) (v : Z) : option (list Z) :=
  if (0 <=? i) && (i <? Z.of_nat (length a))
  then Some (<[Z.to_nat i := v]> a) else None.

(** [for (i = from; ...; i++) body], run [n] times. *)
Fixpoint iterate {A : Type} (n : nat) (from : Z) (body : Z -> A -> A)
  (a : A) : A :=
  match n with
  | O => a
  | S n' => iterate n' (from + 1) body (body from a)
  end.

(** The same for a body that may fail. *)
Fixpoint iterateM {A : Type} (n : nat) (from : Z)
  (body : Z -> A -> option A) (a : A) : option A :=
  match n with
  | O => Some a
  | S n' => a' ← body from a; iterateM n' (from + 1) body a'
  end.

(** [for (i = 0; i < bound; i++) body]: no iteration when [bound <= 0]. *)
Definition for_lt {A : Type} (bound : Z) (body : Z -> A -> A) (a : A) : A :=
  iterate (Z.to_nat bound) 0 body a.

Definition for_ltM {A : Type} (bound : Z) (body : Z -> A -> option A)
  (a : A) : option A :=
  iterateM (Z.to_nat bound) 0 body a.

(** ** Arduino helpers *)

Module Arduino.

(** [long map(long x, long in_min, long in_max, long out_min, long out_max)]
    of the Arduino core:
    [(x - in_min) * (out_max - out_min) / (in_max - in_min) + out_min],
    in 32-bit [long] arithmetic, division truncating towards zero. *)
Definition map (x in_min in_max out_min out_max : Z) : Z :=
  wrap_i32
    (wrap_i32 (wrap_i32 (x - in_min) * wrap_i32 (out_max - out_min))
       ÷ wrap_i32 (in_max - in_min)
     + out_min).

(** [abs] on [int32_t]. *)
Definition abs (x : Z) : Z := wrap_i32 (Z.abs x).

End Arduino.

(** ** Thermistor resistance *)

(** [3.3f], [0.0f], [999999.0f], [4700.0f], [4095.0f], [1.0f], [1000.0f] *)
Definition V_SUPPLY : F32.float32 := Eval vm_compute in F32.literal 33 10.
Definition F_ZERO : F32.float32 := Eval vm_compute in F32.of_int 0.
Definition F_OPEN : F32.float32 := Eval vm_compute in F32.of_int 999999.
Definition F_PULLUP : F32.float32 := Eval vm_compute in F32.of_int 4700.
Definition F_4095 : F32.float32 := Eval vm_compute in F32.of_int 4095.
Definition F_ONE : F32.float32 := Eval vm_compute in F32.of_int 1.
Definition F_1000 : F32.float32 := Eval vm_compute in F32.of_int 1000.

Definition calculate_resistance (voltage pullup_resistance : F32.float32)
  : F32.float32 :=
  if F32.ge voltage V_SUPPLY then F_ZERO
  else if F32.le voltage F_ZERO then F_OPEN
  else F32.div (F32.mul voltage pullup_resistance) (F32.sub V_SUPPLY voltage).

(** The report shared by the two thermistor readers, after the label. *)
Definition report_resistance (adcValue : Z) : list event :=
  let voltage := F32.div (F32.mul (F32.of_int adcValue) V_SUPPLY) F_4095 in
  let resistance := calculate_resistance voltage F_PULLUP in
  [SERIAL_ECHO (Int adcValue);
   SERIAL_ECHO (Text ", Voltage: ");
   SERIAL_ECHO (Float voltage);
   SERIAL_ECHO (Text "V, Calculated R: ")]
  ++ (if F32.gt resistance F_OPEN then [SERIAL_ECHOLNPGM "OPEN"]
      else if F32.lt resistance F_ONE then [SERIAL_ECHOLNPGM "SHORT"]
      else if F32.ge resistance F_1000 then
        [SERIAL_ECHO (Float (F32.div resistance F_1000));
         SERIAL_ECHOLNPGM "kΩ"]
      else [SERIAL_ECHO (Float resistance); SERIAL_ECHOLNPGM "Ω"]).

Definition manual_read_hotend_thermistor (e : env) (s : state) : state :=
  let adcValue := wrap_u16 (analogRead e TEMP_0_PIN) in
  emit (SERIAL_ECHO (Text "Hotend ADC Input - ADC: ")
          :: report_resistance adcValue) s.

Definition manual_read_bed_thermistor (e : env) (s : state) : state :=
  let adcValue := wrap_u16 (analogRead e TEMP_BED_PIN) in
  emit (SERIAL_ECHO (Text "Bed ADC Input - ADC: ")
          :: report_resistance adcValue) s.

(** ** Stepping *)

Definition level_of (b : bool) : level := if b then HIGH else LOW.

Definition manual_move_axis (step_pin dir_pin : pin) (direction : bool)
  (steps : Z) (s : state) : state :=
  let s := emit [WRITE X_ENABLE_PIN LOW;
                 WRITE dir_pin (level_of direction);
                 DELAY_US 10;
                 SERIAL_ECHO (Text "Moving ");
                 SERIAL_ECHO (Int steps);
                 SERIAL_ECHOLNPGM (if direction then " steps forward"
                                   else " steps backward")] s in
  let s := for_lt steps (fun i s =>
             let s := emit [WRITE step_pin HIGH; DELAY_US 500;
                            WRITE step_pin LOW; DELAY_US 1500] s in
             if Z.rem i 10 =? 0 then emit [watchdog_refresh] s else s) s in
  emit [SERIAL_ECHOLNPGM "Move complete"] s.

Definition manual_enable_steppers (s : state) : state :=
  emit [WRITE X_ENABLE_PIN LOW; SERIAL_ECHOLNPGM "Steppers ENABLED"] s.

Definition manual_disable_steppers (s : state) : state :=
  emit [WRITE X_ENABLE_PIN HIGH;
        SERIAL_ECHOLNPGM "Steppers DISABLED - Manual movement allowed"] s.

(** ** The position tracker: [manual_adc_control_y] *)

(** Lines 132-138: store the reading in the ring, advance the index
    modulo [ADC_SAMPLES], mark the ring filled when it wraps. *)
Definition push_sample (raw_adc : Z) (s : state) : option state :=
  buf ← array_set (adc_buffer s) (adc_buffer_index s) raw_adc;
  let index := wrap_u8 (Z.rem (adc_buffer_index s + 1) ADC_SAMPLES) in
  let filled :=
    if (index =? 0) && negb (adc_buffer_filled s) then true
    else adc_buffer_filled s in
  Some (set_samples buf index filled s).

(** Line 141. *)
Definition samples_to_use (s : state) : Z :=
  if adc_buffer_filled s then ADC_SAMPLES else adc_buffer_index s.

(** Lines 144-147: the scratch array and the copy loop.  The scratch
    array starts with indeterminate contents, here zeros. *)
Definition copy_samples (s : state) : option (list Z) :=
  for_ltM (samples_to_use s)
    (fun i sorted_buffer =>
       v ← array_get (adc_buffer s) i; array_set sorted_buffer i v)
    (replicate (Z.to_nat ADC_SAMPLES) 0).

(** Lines 152-156: one compare-and-swap of the bubble sort. *)
Definition swap_if_greater (j : Z) (sorted_buffer : list Z)
  : option (list Z) :=
  a ← array_get sorted_buffer j;
  b ← array_get sorted_buffer (j + 1);
  if b <? a then
    sorted_buffer ← array_set sorted_buffer j b;
    array_set sorted_buffer (j + 1) a
  else Some sorted_buffer.

(** Lines 150-158. *)
Definition bubble_sort (n : Z) (sorted_buffer : list Z) : option (list Z) :=
  for_ltM (n - 1)
    (fun i sorted_buffer => for_ltM (n - i - 1) swap_if_greater sorted_buffer)
    sorted_buffer.

(** Lines 141-160: the median of the valid samples. *)
Definition filtered_value (s : state) : option Z :=
  sorted_buffer ← copy_samples s;
  sorted_buffer ← bubble_sort (samples_to_use s) sorted_buffer;
  array_get sorted_buffer (samples_to_use s ÷ 2).

(** Line 163. *)
Definition target_of (adcValue : Z) (s : state) : Z :=
  Arduino.map adcValue 0 adc_range
    (wrap_i32 (- position_range s) ÷ 2) (position_range s ÷ 2).

(** Lines 184-195: one step pulse with its bookkeeping. *)
Definition track_step (direction : bool) (i : Z) (s : state) : state :=
  let s := emit [WRITE Y_STEP_PIN HIGH; DELAY_US 500;
                 WRITE Y_STEP_PIN LOW; DELAY_US 500] s in
  let s := set_current
             (wrap_i32 (adc_current_position s + (if direction then 1 else -1)))
             s in
  if Z.rem i 5 =? 0 then emit [watchdog_refresh] s else s.

(** Line 177. *)
Definition steps_to_move (position_error : Z) : Z :=
  Z.min (wrap_u16 (Arduino.abs position_error)) (wrap_u16 10).

(** Lines 166-214: error, deadzone, rate-limited correction, feedback. *)
Definition track (now raw_adc adcValue : Z) (s : state) : state :=
  let position_error :=
    wrap_i32 (adc_target_position s - adc_current_position s) in
  if 5 <? Arduino.abs position_error then
    let s := emit [WRITE X_ENABLE_PIN LOW] s in
    let direction := 0 <? position_error in
    let s := emit [WRITE Y_DIR_PIN (level_of direction); DELAY_US 10] s in
    let s := for_lt (steps_to_move position_error) (track_step direction) s in
    let s := set_last_move now s in
    let s := set_counter (wrap_u8 (update_counter s + 1)) s in
    if 25 <=? update_counter s then
      let s := set_counter 0 s in
      emit [SERIAL_ECHO (Text "ADC Position Control - Raw: ");
            SERIAL_ECHO (Int raw_adc);
            SERIAL_ECHO (Text ", Median: ");
            SERIAL_ECHO (Int adcValue);
            SERIAL_ECHO (Text ", Target: ");
            SERIAL_ECHO (Int (adc_target_position s));
            SERIAL_ECHO (Text ", Current: ");
            SERIAL_ECHO (Int (adc_current_position s));
            SERIAL_ECHO (Text ", Error: ");
            SERIAL_ECHOLN (Int position_error)] s
    else s
  else s.

Definition manual_adc_control_y (e : env) (s : state) : option state :=
  if negb (adc_control_active s) then Some s
  else
    let now := wrap_u32 (millis e) in
    if wrap_u32 (now - last_adc_move s) <? 10 then Some s
    else
      let raw_adc := wrap_u16 (analogRead e TEMP_BED_PIN) in
      s ← push_sample raw_adc s;
      adcValue ← filtered_value s;
      let s := set_target (target_of adcValue s) s in
      Some (track now raw_adc adcValue s).

(** ** The command interpreter *)

(** The digit loop of [parse_steps] and of the [adc_range] command:
    while the character at [p] is a decimal digit, the accumulator
    becomes ten times itself plus the digit and [p] advances; [wrap]
    is the accumulator's integer type. *)
Fixpoint read_digits (wrap : Z -> Z) (p : string) (acc : Z) : Z :=
  match p with
  | EmptyString => acc
  | String c r =>
      if is_digit c
      then read_digits wrap r (wrap (acc * 10 + (char_code c - 48)))
      else acc
  end.

(** [command + 2] lies within the text for every command that has its
    two-character prefix; otherwise the read is undefined ([None]). *)
Definition parse_steps (command : string) (defaultSteps : Z) : option Z :=
  numStart ← ptr_add command 2;
  if is_nul (deref numStart) then Some defaultSteps
  else
    let steps := read_digits wrap_u16 numStart 0 in
    Some (if (0 <? steps) && (steps <=? 10000) then steps else defaultSteps).

Definition jog (step_pin dir_pin : pin) (direction : bool)
  (command : string) (defaultSteps : Z) (s : state) : option state :=
  steps ← parse_steps command defaultSteps;
  Some (manual_move_axis step_pin dir_pin direction steps s).

Definition help_text : list event :=
  [SERIAL_ECHOLNPGM "Commands:";
   SERIAL_ECHOLNPGM "h - Read hotend thermistor";
   SERIAL_ECHOLNPGM "b - Read bed thermistor";
   SERIAL_ECHOLNPGM "x+[steps] - Move X positive (e.g., x+50)";
   SERIAL_ECHOLNPGM "x-[steps] - Move X negative";
   SERIAL_ECHOLNPGM "y+[steps] - Move Y positive";
   SERIAL_ECHOLNPGM "y-[steps] - Move Y negative";
   SERIAL_ECHOLNPGM "z+[steps] - Move Z up (default 10)";
   SERIAL_ECHOLNPGM "z-[steps] - Move Z down";
   SERIAL_ECHOLNPGM "e+[steps] - Extrude (default 50)";
   SERIAL_ECHOLNPGM "e-[steps] - Retract";
   SERIAL_ECHOLNPGM "on - Enable steppers";
   SERIAL_ECHOLNPGM "off - Disable steppers";
   SERIAL_ECHOLNPGM "adc_on - Enable ADC position control";
   SERIAL_ECHOLNPGM "adc_off - Disable ADC position control";
   SERIAL_ECHOLNPGM "adc_zero - Reset current position to zero";
   SERIAL_ECHOLNPGM "adc_range[value] - Set position range"].

(** Lines 279-286. *)
Definition adc_on (s : state) : state :=
  let s := set_active true s in
  let s := manual_enable_steppers s in
  emit [SERIAL_ECHOLNPGM
          "ADC Position Control ENABLED - ADC controls Y position";
        SERIAL_ECHO (Text "Range: ");
        SERIAL_ECHO (Int (wrap_i32 (- position_range s) ÷ 2));
        SERIAL_ECHO (Text " to +");
        SERIAL_ECHO (Int (position_range s ÷ 2));
        SERIAL_ECHOLNPGM " steps"] s.

(** Lines 289-290. *)
Definition adc_off (s : state) : state :=
  emit [SERIAL_ECHOLNPGM "ADC Position Control DISABLED"]
    (set_active false s).

(** Lines 293-294. *)
Definition adc_zero (s : state) : state :=
  emit [SERIAL_ECHOLNPGM "Current position reset to zero"] (set_current 0 s).

(** Lines 297-312. *)
Definition adc_set_range (command : string) (s : state) : option state :=
  numStart ← ptr_add command 9;
  if negb (is_nul (deref numStart)) then
    let new_range := read_digits wrap_i32 numStart 0 in
    if (0 <? new_range) && (new_range <=? 50000) then
      let s := set_range new_range s in
      Some (emit [SERIAL_ECHO (Text "Position range set to ±");
                  SERIAL_ECHOLN (Int (position_range s ÷ 2))] s)
    else Some s
  else
    Some (emit [SERIAL_ECHO (Text "Current position range: ±");
                SERIAL_ECHOLN (Int (position_range s ÷ 2))] s).

Definition process_manual_command (e : env) (command : string) (s : state)
  : option state :=
  if strcmp command "h" then Some (manual_read_hotend_thermistor e s)
  else if strcmp command "b" then Some (manual_read_bed_thermistor e s)
  else if strncmp command "x+" 2 then jog X_STEP_PIN X_DIR_PIN true command 100 s
  else if strncmp command "x-" 2 then jog X_STEP_PIN X_DIR_PIN false command 100 s
  else if strncmp command "y+" 2 then jog Y_STEP_PIN Y_DIR_PIN true command 100 s
  else if strncmp command "y-" 2 then jog Y_STEP_PIN Y_DIR_PIN false command 100 s
  else if strncmp command "z+" 2 then jog Z_STEP_PIN Z_DIR_PIN true command 10 s
  else if strncmp command "z-" 2 then jog Z_STEP_PIN Z_DIR_PIN false command 10 s
  else if strncmp command "e+" 2 then jog E0_STEP_PIN E0_DIR_PIN true command 50 s
  else if strncmp command "e-" 2 then jog E0_STEP_PIN E0_DIR_PIN false command 50 s
  else if strcmp command "on" then Some (manual_enable_steppers s)
  else if strcmp command "off" then Some (manual_disable_steppers s)
  else if strcmp command "adc_on" then Some (adc_on s)
  else if strcmp command "adc_off" then Some (adc_off s)
  else if strcmp command "adc_zero" then Some (adc_zero s)
  else if strncmp command "adc_range" 9 then adc_set_range command s
  else if strcmp command "help" then Some (emit help_text s)
  else if 0 <? strlen command then
    Some (emit [SERIAL_ECHO (Text "Unknown command: ");
                SERIAL_ECHO (Text (c_str command));
                SERIAL_ECHOLNPGM " (type 'help' for commands)"] s)
  else Some s.

(** ** Vocabulary of the statements *)

#[global] Instance pin_eq_dec : EqDecision pin.
Proof. solve_decision. Defined.

(** Number of step pulses (rising edges written) on a pin. *)
Fixpoint pulses (p : pin) (t : list event) : Z :=
  match t with
  | [] => 0
  | WRITE q HIGH :: t' => (if bool_decide (p = q) then 1 else 0) + pulses p t'
  | _ :: t' => pulses p t'
  end.

(** The maximal run of decimal digits at the start of a text. *)
Fixpoint digit_run (p : string) : string :=
  match p with
  | EmptyString => EmptyString
  | String c r => if is_digit c then String c (digit_run r) else EmptyString
  end.

(** The number written by the leading digits of a text, unbounded. *)
Definition decimal_value (p : string) : Z := read_digits (fun z => z) p 0.

(** The sample ring as declared: [ADC_SAMPLES] cells, index within. *)
Definition buffer_ok (s : state) : Prop :=
  length (adc_buffer s) = Z.to_nat ADC_SAMPLES
  /\ 0 <= adc_buffer_index s < ADC_SAMPLES.

(** An [int32_t] value. *)
Definition int32 (z : Z) : Prop := - 2 ^ 31 <= z < 2 ^ 31.

(** Feeding a sequence of readings to the sample filter. *)
Fixpoint push_all (raws : list Z) (s : state) : option state :=
  match raws with
  | [] => Some s
  | raw :: raws' => s' ← push_sample raw s; push_all raws' s'
  end.

(** Running a sequence of tracker ticks, one environment per tick. *)
Fixpoint ticks (es : list env) (s : state) : option state :=
  match es with
  | [] => Some s
  | e :: es' => s' ← manual_adc_control_y e s; ticks es' s'
  end.

(** An array of [len] cells whose values all satisfy [P]. *)
Definition array_of (P : Z -> Prop) (len : nat) (a : list Z) : Prop :=
  length a = len /\ Forall P a.

(** The variables no command writes: the sample ring, the target, the
    time of the last move and the feedback counter. *)
Definition same_samples (s s' : state) : Prop :=
  adc_buffer s' = adc_buffer s
  /\ adc_buffer_index s' = adc_buffer_index s
  /\ adc_buffer_filled s' = adc_buffer_filled s
  /\ adc_target_position s' = adc_target_position s
  /\ last_adc_move s' = last_adc_move s
  /\ update_counter s' = update_counter s.

(** Commands that touch neither the position nor the range. *)
Definition same_tracking (s s' : state) : Prop :=
  same_samples s s'
  /\ adc_current_position s' = adc_current_position s
  /\ position_range s' = position_range s.

(** What the stepping loop changes: the position, by one per pulse, and
    the trace, which gains one pulse on the Y step pin per iteration. *)
Definition stepped (direction : bool) (n : Z) (s s' : state) : Prop :=
  adc_current_position s'
  = adc_current_position s + (if direction then n else - n)
  /\ pulses Y_STEP_PIN (trace s') = pulses Y_STEP_PIN (trace s) + n
  /\ adc_control_active s' = adc_control_active s
  /\ adc_target_position s' = adc_target_position s
  /\ position_range s' = position_range s
  /\ last_adc_move s' = last_adc_move s
  /\ adc_buffer s' = adc_buffer s
  /\ adc_buffer_index s' = adc_buffer_index s
  /\ adc_buffer_filled s' = adc_buffer_filled s
  /\ update_counter s' = update_counter s.

(** A 12-bit analog sample. *)
Definition adc12 (x : Z) : Prop := 0 <= x <= 4095.

(** What holds of the tracking variables in every reachable state. *)
Definition tracking_inv (s : state) : Prop :=
  buffer_ok s
  /\ Forall adc12 (adc_buffer s)
  /\ 0 < position_range s <= 50000
  /\ Z.abs (adc_current_position s) <= 25000
  /\ Z.abs (adc_target_position s) <= 25000.

(** States the firmware can be in: from the initial state, by commands
    and by tracker ticks whose analog reading is a 12-bit sample. *)
Inductive reachable : state -> Prop :=
| reachable_init : reachable initial_state
| reachable_command e command s s' :
    reachable s ->
    process_manual_command e command s = Some s' ->
    reachable s'
| reachable_tick e s s' :
    reachable s ->
    adc12 (analogRead e TEMP_BED_PIN) ->
    manual_adc_control_y e s = Some s' ->
    reachable s'.

(** A state with tracking active, 65536 steps below the target that the
    mid-scale reading 2048 maps to. *)
Definition far_state : state :=
  set_current (- 65536) (set_active true initial_state).

(** A state the firmware reaches with tracking switched off and the
    position at 10: tracking on, one tick at full scale, tracking off. *)
Definition parked_state : option state :=
  s ← process_manual_command (mkEnv 0 (fun _ => 0)) "adc_on" initial_state;
  s ← manual_adc_control_y (mkEnv 1000 (fun _ => 4095)) s;
  process_manual_command (mkEnv 1000 (fun _ => 0)) "adc_off" s.

(** Reading of the reference semantics of the Standard Library
    ([SpecFloat], at precision 24 and maximal exponent 128) in the
    representation of [F32]. *)
Definition of_spec (x : SpecFloat.spec_float) : F32.float32 :=
  match x with
  | SpecFloat.S754_zero _ => F32.Fin 0
  | SpecFloat.S754_infinity s => F32.Inf s
  | SpecFloat.S754_nan => F32.NaN
  | SpecFloat.S754_finite s m e =>
      F32.Fin ((if s then -1 else 1) * Z.pos m * 2 ^ (e + 149))
  end.

Definition f32_eqb (x y : F32.float32) : bool :=
  match x, y with
  | F32.Fin a, F32.Fin b => a =? b
  | F32.Inf s, F32.Inf t => Bool.eqb s t
  | F32.NaN, F32.NaN => true
  | _, _ => false
  end.

Definition spec_samples : list SpecFloat.spec_float :=
  [ SpecFloat.S754_zero false; SpecFloat.S754_infinity false;
    SpecFloat.S754_infinity true; SpecFloat.S754_nan;
    SpecFloat.S754_finite false 1 (-149);
    SpecFloat.S754_finite false 3 (-149);
    SpecFloat.S754_finite true 5 (-149);
    SpecFloat.S754_finite false 8388607 (-149);
    SpecFloat.S754_finite false 8388608 (-149);
    SpecFloat.S754_finite false 16777215 (-149);
    SpecFloat.S754_finite false 16777215 104;
    SpecFloat.S754_finite true 16777215 104;
    SpecFloat.S754_finite false 13841203 (-22);
    SpecFloat.S754_finite false 9625600 (-11);
    SpecFloat.S754_finite false 12345677 (-30);
    SpecFloat.S754_finite true 12345677 (-75);
    SpecFloat.S754_finite false 8388609 (-90);
    SpecFloat.S754_finite false 16777213 (-24);
    SpecFloat.S754_finite false 8388608 (-23);
    SpecFloat.S754_finite false 12582912 (-23);
    SpecFloat.S754_finite false 8388611 60;
    SpecFloat.S754_finite false 11111111 (-140);
    SpecFloat.S754_finite true 15999999 20;
    SpecFloat.S754_finite false 10000001 (-100) ].

Definition agrees_on_samples
  (spec_op : SpecFloat.spec_float -> SpecFloat.spec_float
             -> SpecFloat.spec_float)
  (op : F32.float32 -> F32.float32 -> F32.float32) : bool :=
  forallb
    (fun x =>
       forallb
         (fun y => f32_eqb (of_spec (spec_op x y)) (op (of_spec x) (of_spec y)))
         spec_samples)
    spec_samples.

(** The thermistor computation written with the reference operations,
    for the comparison of the two semantics on an analog reading. *)
Definition sf_of_int (z : Z) : SpecFloat.spec_float :=
  SpecFloat.binary_normalize 24 128 z 0 false.

Definition sf_supply : SpecFloat.spec_float :=
  SpecFloat.S754_finite false 13841203 (-22).

Definition sf_calculate_resistance (voltage pullup : SpecFloat.spec_float)
  : SpecFloat.spec_float :=
  if SpecFloat.SFleb sf_supply voltage then sf_of_int 0
  else if SpecFloat.SFleb voltage (sf_of_int 0) then sf_of_int 999999
  else SpecFloat.SFdiv 24 128 (SpecFloat.SFmul 24 128 voltage pullup)
         (SpecFloat.SFsub 24 128 sf_supply voltage).

Definition sf_voltage (adcValue : Z) : SpecFloat.spec_float :=
  SpecFloat.SFdiv 24 128
    (SpecFloat.SFmul 24 128 (sf_of_int adcValue) sf_supply) (sf_of_int 4095).

Definition voltage_of (adcValue : Z) : F32.float32 :=
  F32.div (F32.mul (F32.of_int adcValue) V_SUPPLY) F_4095.

Definition agrees_at_reading (adcValue : Z) : bool :=
  f32_eqb (of_spec (sf_voltage adcValue)) (voltage_of adcValue)
  && f32_eqb
       (of_spec (sf_calculate_resistance (sf_voltage adcValue) (sf_of_int 4700)))
       (calculate_resistance (voltage_of adcValue) F_PULLUP).

(** Readings spread over the 12-bit range, with its two ends. *)
Definition sample_readings : list Z :=
  List.map (fun i => Z.of_nat i * 41) (seq 0 100) ++ [1; 2; 4094; 4095; 4096].

(** ** Vocabulary of the further properties *)

(** The level last written to a pin, if any. *)
Fixpoint last_write (p : pin) (t : list event) : option level :=
  match t with
  | [] => None
  | WRITE q l :: t' =>
      match last_write p t' with
      | Some l' => Some l'
      | None => if bool_decide (p = q) then Some l else None
      end
  | _ :: t' => last_write p t'
  end.

(** Total busy-wait time recorded in a trace, in microseconds. *)
Fixpoint delay_total (t : list event) : Z :=
  match t with
  | [] => 0
  | DELAY_US us :: t' => us + delay_total t'
  | _ :: t' => delay_total t'
  end.

(** Number of watchdog refreshes in a trace. *)
Fixpoint refreshes (t : list event) : Z :=
  match t with
  | [] => 0
  | watchdog_refresh :: t' => 1 + refreshes t'
  | _ :: t' => refreshes t'
  end.

(** Number of serial outputs in a trace. *)
Fixpoint serial_outputs (t : list event) : Z :=
  match t with
  | [] => 0
  | SERIAL_ECHO _ :: t' | SERIAL_ECHOLN _ :: t' => 1 + serial_outputs t'
  | _ :: t' => serial_outputs t'
  end.

(** The jog commands of [process_manual_command]: prefix, step pin,
    direction pin, direction and default step count. *)
Definition jog_table : list (string * pin * pin * bool * Z) :=
  [ ("x+"%string, X_STEP_PIN, X_DIR_PIN, true, 100);
    ("x-"%string, X_STEP_PIN, X_DIR_PIN, false, 100);
    ("y+"%string, Y_STEP_PIN, Y_DIR_PIN, true, 100);
    ("y-"%string, Y_STEP_PIN, Y_DIR_PIN, false, 100);
    ("z+"%string, Z_STEP_PIN, Z_DIR_PIN, true, 10);
    ("z-"%string, Z_STEP_PIN, Z_DIR_PIN, false, 10);
    ("e+"%string, E0_STEP_PIN, E0_DIR_PIN, true, 50);
    ("e-"%string, E0_STEP_PIN, E0_DIR_PIN, false, 50) ].

(** The events of the [i]-th step pulse of [manual_move_axis]. *)
Definition move_pulse (step_pin : pin) (i : Z) : list event :=
  [WRITE step_pin HIGH; DELAY_US 500; WRITE step_pin LOW; DELAY_US 1500]
  ++ (if Z.rem i 10 =? 0 then [watchdog_refresh] else []).

(** The events of pulses [from], ..., [from + n - 1]. *)
Fixpoint move_pulses (step_pin : pin) (n : nat) (from : Z) : list event :=
  match n with
  | O => []
  | S n' => move_pulse step_pin from ++ move_pulses step_pin n' (from + 1)
  end.

(** A command that begins with none of the jog prefixes. *)
Definition not_jog (command : string) : Prop :=
  forall prefix step_pin dir_pin direction d,
    In (prefix, step_pin, dir_pin, direction, d) jog_table ->
    strncmp command prefix 2 = false.

(** Output that writes no pin. *)
Definition no_pin_write (es : list event) : Prop :=
  Forall (fun ev => match ev with WRITE _ _ => False | _ => True end) es.

(** What one command does, by kind: a quiet command prints at most and
    may switch tracking off; [on], [off] and [adc_on] write the enable
    line; a jog command moves its axis. *)
Inductive command_effect (command : string) (s s' : state) (es : list event)
  : Prop :=
| effect_quiet :
    no_pin_write es ->
    not_jog command ->
    strcmp command "on" = false ->
    strcmp command "off" = false ->
    strcmp command "adc_on" = false ->
    (if strcmp command "adc_off" then adc_control_active s' = false
     else adc_control_active s' = adc_control_active s) ->
    command_effect command s s' es
| effect_on :
    strcmp command "on" = true ->
    s' = manual_enable_steppers s ->
    command_effect command s s' es
| effect_off :
    strcmp command "off" = true ->
    s' = manual_disable_steppers s ->
    command_effect command s s' es
| effect_adc_on :
    strcmp command "adc_on" = true ->
    s' = adc_on s ->
    command_effect command s s' es
| effect_jog prefix step_pin dir_pin direction d steps :
    In (prefix, step_pin, dir_pin, direction, d) jog_table ->
    strncmp command prefix 2 = true ->
    parse_steps command d = Some steps ->
    (steps = d \/ 1 <= steps <= 10000) ->
    s' = manual_move_axis step_pin dir_pin direction steps s ->
    command_effect command s s' es.

(** [n] corrections in a row, the target standing still. *)
Fixpoint track_times (n : nat) (now raw_adc adcValue : Z) (s : state) : state :=
  match n with
  | O => s
  | S n' => track_times n' now raw_adc adcValue (track now raw_adc adcValue s)
  end.

(** One pass of the bubble sort over [x :: l], as a function on lists:
    [x] is carried along and exchanged for every greater element. *)
Fixpoint bubble_pass (x : Z) (l : list Z) : list Z :=
  match l with
  | [] => [x]
  | y :: t => if y <? x then y :: bubble_pass x t else x :: bubble_pass y t
  end.

(** The state of the sort before pass [i] of [n - 1]: the last [i] cells
    of the prefix of [n] hold, in order, its [i] greatest values. *)
Definition sort_inv (n : Z) (original : list Z) (i : Z) (a : list Z) : Prop :=
  exists u v,
    a = u ++ v ++ drop (Z.to_nat n) original
    /\ Z.of_nat (length u) = n - i
    /\ Z.of_nat (length v) = i
    /\ StronglySorted Z.le v
    /\ Forall (fun x => Forall (Z.le x) v) u
    /\ u ++ v ≡ₚ take (Z.to_nat n) original.

(** The valid samples of the ring, oldest first. *)
Definition window (s : state) : list Z :=
  let i := Z.to_nat (adc_buffer_index s) in
  if adc_buffer_filled s
  then drop i (adc_buffer s) ++ take i (adc_buffer s)
  else take i (adc_buffer s).

(** The last [n] elements of a list, all of them when it has fewer. *)
Definition last_n {A} (n : nat) (l : list A) : list A :=
  drop (length l - n) l.

(** The element of index [length l / 2] of [l] put in non-decreasing
    order: the median, the upper middle value for an even length. *)
Definition median (l : list Z) : option Z :=
  merge_sort Z.le l !! (length l / 2)%nat.

(** The resistance computed from a reading, with the default pull-up. *)
Definition resistance_of (adcValue : Z) : F32.float32 :=
  calculate_resistance (voltage_of adcValue) F_PULLUP.

(** What the thermistor report says of the resistance, by reading. *)
Definition resistance_text (adcValue : Z) : list event :=
  if adcValue =? 0 then
    [SERIAL_ECHO (Float (F32.div F_OPEN F_1000)); SERIAL_ECHOLNPGM "kΩ"]
  else if adcValue <=? 718 then
    [SERIAL_ECHO (Float (resistance_of adcValue)); SERIAL_ECHOLNPGM "Ω"]
  else if adcValue <=? 4075 then
    [SERIAL_ECHO (Float (F32.div (resistance_of adcValue) F_1000));
     SERIAL_ECHOLNPGM "kΩ"]
  else if adcValue <=? 4094 then [SERIAL_ECHOLNPGM "OPEN"]
  else [SERIAL_ECHOLNPGM "SHORT"].

(** The report of a reading: the reading, its voltage, the resistance. *)
Definition report_of (adcValue : Z) : list event :=
  [SERIAL_ECHO (Int adcValue);
   SERIAL_ECHO (Text ", Voltage: ");
   SERIAL_ECHO (Float (voltage_of adcValue));
   SERIAL_ECHO (Text "V, Calculated R: ")]
  ++ resistance_text adcValue.

(** ** The task: tracker tick and line assembler

    Lines 341-362.  The statics [command_buffer] and [buffer_pos] join
    the state; the bytes the serial port delivers during one call are
    an argument, each with the environment in force when it is read. *)

Record task_state : Type := mkTask {
  core : state;
  command_buffer : list ascii;
  buffer_pos : Z
}.

Definition COMMAND_BUFFER_SIZE : Z := 32.

(** The statics at reset: a zeroed buffer, position 0. *)
Definition initial_task : task_state :=
  mkTask initial_state (replicate (Z.to_nat COMMAND_BUFFER_SIZE) nul) 0.

(** [a[i] = c] on an array of characters; out of bounds is undefined. *)
Definition char_set (a : list ascii) (i : Z) (c : ascii)
  : option (list ascii) :=
  if (0 <=? i) && (i <? Z.of_nat (length a))
  then Some (<[Z.to_nat i := c]> a) else None.

(** Line 351: line feed or carriage return. *)
Definition is_newline (c : ascii) : bool :=
  Ascii.eqb c "010"%char || Ascii.eqb c "013"%char.

(** Line 358: [c >= 32 && c <= 126]; a byte above 127 fails the test
    whether [char] is signed or not. *)
Definition is_printable (c : ascii) : bool :=
  (32 <=? char_code c) && (char_code c <=? 126).

(** Lines 349-360: the body of the receive loop for one byte. *)
Definition task_byte (e : env) (c : ascii) (t : task_state)
  : option task_state :=
  if is_newline c then
    if 0 <? buffer_pos t then
      buf ← char_set (command_buffer t) (buffer_pos t) nul;
      s ← process_manual_command e (string_of_list_ascii buf) (core t);
      Some (mkTask s buf 0)
    else Some t
  else if is_printable c && (buffer_pos t <? 31) then
    buf ← char_set (command_buffer t) (buffer_pos t) c;
    Some (mkTask (core t) buf (wrap_u8 (buffer_pos t + 1)))
  else Some t.

(** Lines 348-361: the receive loop, until the port is empty. *)
Fixpoint drain (rx : list (env * ascii)) (t : task_state)
  : option task_state :=
  match rx with
  | [] => Some t
  | (e, c) :: rx' => t' ← task_byte e c t; drain rx' t'
  end.

(** Lines 341-362. *)
Definition manual_control_task (e : env) (rx : list (env * ascii))
  (t : task_state) : option task_state :=
  s ← manual_adc_control_y e (core t);
  drain rx (mkTask s (command_buffer t) (buffer_pos t)).

(** The characters received since the last end of line. *)
Definition pending (t : task_state) : string :=
  string_of_list_ascii (take (Z.to_nat (buffer_pos t)) (command_buffer t)).

(** The buffer as declared, the position within it, and only printable
    characters pending. *)
Definition task_ok (t : task_state) : Prop :=
  length (command_buffer t) = Z.to_nat COMMAND_BUFFER_SIZE
  /\ 0 <= buffer_pos t <= 31
  /\ Forall (fun c => is_printable c = true)
       (take (Z.to_nat (buffer_pos t)) (command_buffer t)).

(** The line assembler on texts: an end of line runs the pending text
    as a command if there is one, a printable character joins it while
    it has fewer than 31, any other byte is dropped. *)
Definition line_byte (e : env) (c : ascii) (st : state * string)
  : option (state * string) :=
  if is_newline c then
    if 0 <? Z.of_nat (String.length st.2) then
      s ← process_manual_command e st.2 st.1; Some (s, EmptyString)
    else Some st
  else if is_printable c && (Z.of_nat (String.length st.2) <? 31) then
    Some (st.1, (st.2 ++ String c EmptyString)%string)
  else Some st.

Fixpoint line_run (rx : list (env * ascii)) (st : state * string)
  : option (state * string) :=
  match rx with
  | [] => Some st
  | (e, c) :: rx' => st' ← line_byte e c st; line_run rx' st'
  end.

(** Bytes the assembler drops: neither printable nor an end of line. *)
Definition is_noise (c : ascii) : bool :=
  negb (is_newline c) && negb (is_printable c).

(** The main loop: calls of the task, each with the environment of its
    tick and the bytes it receives. *)
Fixpoint task_calls (calls : list (env * list (env * ascii)))
  (t : task_state) : option task_state :=
  match calls with
  | [] => Some t
  | (e, rx) :: calls' =>
      t' ← manual_control_task e rx t; task_calls calls' t'
  end.

(** * Properties *)

(** ** Rounding to binary32 is monotone *)

Section Rounding.

Import F32.

(** [rne n d] is within half of [n / d], and on a tie it is even. *)
Lemma rne_spec n d :
  0 < d ->
  let q := rne n d in
  (2 * n < (2 * q + 1) * d \/ (2 * n = (2 * q + 1) * d /\ Z.even q = true))
  /\ ((2 * q - 1) * d < 2 * n \/ (2 * n = (2 * q - 1) * d /\ Z.even q = true)).
Proof.
  intros Hd. unfold rne. cbv zeta.
  pose proof (Z.div_mod n d ltac:(lia)) as Hdm.
  pose proof (Z.mod_pos_bound n d Hd) as Hr.
  destruct (Z.ltb_spec (2 * (n mod d)) d) as [H1 | H1].
  - split; left; nia.
  - destruct (Z.ltb_spec d (2 * (n mod d))) as [H2 | H2].
    + split; left; nia.
    + assert (Heq : 2 * (n mod d) = d) by lia.
      destruct (Z.even (n / d)) eqn:He.
      * split; [right; split; [nia | exact He] | left; nia].
      * split; [left; nia |].
        right. split; [nia |].
        rewrite Z.even_add, He. reflexivity.
Qed.

Lemma rne_mono n1 d1 n2 d2 :
  0 < d1 -> 0 < d2 -> n1 * d2 <= n2 * d1 -> rne n1 d1 <= rne n2 d2.
Proof.
  intros Hd1 Hd2 Hle.
  pose proof (rne_spec n1 d1 Hd1) as [_ L1].
  pose proof (rne_spec n2 d2 Hd2) as [U2 _].
  cbv zeta in *.
  set (q1 := rne n1 d1) in *. set (q2 := rne n2 d2) in *.
  destruct (Z.le_gt_cases q1 q2) as [|Hgt]; [assumption | exfalso].
  (* otherwise [n1 / d1] and [n2 / d2] are the same tie *)
  assert (A : (2 * q2 + 1) * d1 <= 2 * n1).
  { assert ((2 * q2 + 1) * d1 <= (2 * q1 - 1) * d1) by nia.
    destruct L1 as [L1 | [L1 _]]; lia. }
  assert (B : 2 * n2 <= (2 * q2 + 1) * d2) by (destruct U2 as [U2 | [U2 _]]; lia).
  assert (E1 : 2 * n1 * d2 = (2 * q2 + 1) * d1 * d2) by nia.
  assert (E2 : 2 * n2 * d1 = (2 * q2 + 1) * d1 * d2) by nia.
  assert (F1 : 2 * n1 = (2 * q2 + 1) * d1) by nia.
  assert (F2 : 2 * n2 = (2 * q2 + 1) * d2) by nia.
  assert (Ev2 : Z.even q2 = true)
    by (destruct U2 as [U2 | [_ U2]]; [lia | exact U2]).
  assert (Q : q1 = q2 + 1).
  { destruct L1 as [L1 | [L1 _]]; nia. }
  assert (Ev1 : Z.even q1 = true).
  { destruct L1 as [L1 | [_ L1]]; [nia | exact L1]. }
  rewrite Q, Z.even_add, Ev2 in Ev1. discriminate.
Qed.

Lemma rne_exact k d : 0 < d -> rne (k * d) d = k.
Proof.
  intros Hd. unfold rne.
  rewrite Z.div_mul, Z.mod_mul by lia.
  destruct (Z.ltb_spec (2 * 0) d); [reflexivity | lia].
Qed.

Lemma floor_mono n1 d1 n2 d2 :
  0 < d1 -> 0 < d2 -> n1 * d2 <= n2 * d1 -> n1 / d1 <= n2 / d2.
Proof.
  intros Hd1 Hd2 Hle.
  apply Z.div_le_lower_bound; [assumption |].
  pose proof (Z.mul_div_le n1 d1 Hd1). nia.
Qed.

Lemma grid_nonneg x : 0 <= grid x.
Proof. unfold grid. lia. Qed.

Lemma grid_mono x y : x <= y -> grid x <= grid y.
Proof.
  intros H. unfold grid. pose proof (Z.log2_le_mono x y H). lia.
Qed.

(** Above the subnormals the grid leaves exactly 24 significant bits. *)
Lemma grid_pos_bounds x :
  0 < grid x -> 2 ^ (grid x + 23) <= x.
Proof.
  unfold grid. intros H.
  assert (Hlog : 23 < Z.log2 x) by lia.
  assert (Hx : 0 < x).
  { destruct (Z.lt_ge_cases 0 x) as [|Hx]; [assumption |].
    rewrite Z.log2_nonpos in Hlog by lia. lia. }
  replace (Z.max (Z.log2 x - 23) 0 + 23) with (Z.log2 x) by lia.
  apply Z.log2_spec. assumption.
Qed.

Lemma below_grid x e : 0 <= e -> grid x < e -> x < 2 ^ (e + 23).
Proof.
  unfold grid. intros He H.
  destruct (Z.lt_ge_cases 0 x) as [Hx | Hx].
  - pose proof (Z.log2_spec x Hx) as [_ Hu].
    eapply Z.lt_le_trans; [exact Hu |].
    apply Z.pow_le_mono_r; lia.
  - pose proof (Z.pow_pos_nonneg 2 (e + 23)). lia.
Qed.

Lemma round_pos_units_mono n1 d1 n2 d2 :
  0 < d1 -> 0 < d2 -> n1 * d2 <= n2 * d1 ->
  rne n1 (d1 * 2 ^ grid (n1 / d1)) * 2 ^ grid (n1 / d1)
  <= rne n2 (d2 * 2 ^ grid (n2 / d2)) * 2 ^ grid (n2 / d2).
Proof.
  intros Hd1 Hd2 Hle.
  pose proof (floor_mono _ _ _ _ Hd1 Hd2 Hle) as Hfl.
  pose proof (grid_mono _ _ Hfl) as Hg.
  set (e1 := grid (n1 / d1)) in *. set (e2 := grid (n2 / d2)) in *.
  assert (He1 : 0 <= e1) by apply grid_nonneg.
  assert (P1 : 0 < 2 ^ e1) by (apply Z.pow_pos_nonneg; lia).
  assert (P2 : 0 < 2 ^ e2) by (apply Z.pow_pos_nonneg; lia).
  destruct (Z.eq_dec e1 e2) as [Heq | Hne].
  - rewrite <- Heq.
    apply Z.mul_le_mono_nonneg_r; [lia |].
    apply rne_mono; nia.
  - assert (Hlt : e1 < e2) by lia.
    set (L := e2 + 23).
    assert (HL : 2 ^ L = 2 ^ 23 * 2 ^ e2).
    { unfold L. rewrite Z.pow_add_r by lia. lia. }
    assert (HL1 : 2 ^ L = 2 ^ (L - e1) * 2 ^ e1).
    { rewrite <- Z.pow_add_r by lia. f_equal. lia. }
    (* the larger argument is at least [2^L] *)
    assert (Hlow : 2 ^ L * d2 <= n2).
    { pose proof (grid_pos_bounds (n2 / d2) ltac:(fold e2; lia)) as Hb.
      fold e2 in Hb. fold L in Hb.
      pose proof (Z.mul_div_le n2 d2 Hd2). nia. }
    (* the smaller one is below it *)
    assert (Hupp : n1 < 2 ^ L * d1).
    { pose proof (below_grid (n1 / d1) e2 ltac:(lia) ltac:(fold e1; lia)) as Hb.
      fold L in Hb.
      pose proof (Z.div_mod n1 d1 ltac:(lia)).
      pose proof (Z.mod_pos_bound n1 d1 Hd1). nia. }
    transitivity (2 ^ L).
    + rewrite HL1.
      apply Z.mul_le_mono_nonneg_r; [lia |].
      assert (HD : 0 < d1 * 2 ^ e1) by nia.
      assert (Hn : n1 <= 2 ^ (L - e1) * (d1 * 2 ^ e1)) by lia.
      rewrite <- (rne_exact (2 ^ (L - e1)) (d1 * 2 ^ e1) HD).
      apply rne_mono; [assumption .. |].
      apply Z.mul_le_mono_nonneg_r; lia.
    + rewrite HL.
      apply Z.mul_le_mono_nonneg_r; [lia |].
      assert (HD : 0 < d2 * 2 ^ e2) by nia.
      assert (Hn : 2 ^ 23 * (d2 * 2 ^ e2) <= n2) by lia.
      rewrite <- (rne_exact (2 ^ 23) (d2 * 2 ^ e2) HD).
      apply rne_mono; [assumption .. |].
      apply Z.mul_le_mono_nonneg_r; lia.
Qed.

Lemma le_Inf_pos x : x <> NaN -> le x (Inf false) = true.
Proof. destruct x as [u | [] |]; simpl; congruence. Qed.

Lemma round_pos_not_NaN n d : round_pos n d <> NaN.
Proof. unfold round_pos. cbv zeta. destruct (_ <? _); discriminate. Qed.

Lemma round_pos_mono n1 d1 n2 d2 :
  0 < d1 -> 0 < d2 -> n1 * d2 <= n2 * d1 ->
  le (round_pos n1 d1) (round_pos n2 d2) = true.
Proof.
  intros Hd1 Hd2 Hle.
  pose proof (round_pos_units_mono _ _ _ _ Hd1 Hd2 Hle) as Hu.
  unfold round_pos at 2. cbv zeta.
  destruct (Z.ltb_spec (rne n2 (d2 * 2 ^ grid (n2 / d2)) * 2 ^ grid (n2 / d2))
              (2 ^ 277)) as [H2 | H2].
  - unfold round_pos. cbv zeta.
    destruct (Z.ltb_spec (rne n1 (d1 * 2 ^ grid (n1 / d1)) * 2 ^ grid (n1 / d1))
                (2 ^ 277)) as [H1 | H1].
    + simpl. apply Z.leb_le. exact Hu.
    + lia.
  - apply le_Inf_pos, round_pos_not_NaN.
Qed.

End Rounding.

(** ** Rounding lands in the format *)

Section Closure.

Import F32.

Lemma rne_nonneg n d : 0 <= n -> 0 < d -> 0 <= rne n d.
Proof.
  intros Hn Hd.
  rewrite <- (rne_exact 0 d Hd) at 1.
  apply rne_mono; lia.
Qed.

(** The rounded significand has at most 24 bits, or is [2^24]. *)
Lemma rne_grid_bound n d :
  0 <= n -> 0 < d ->
  rne n (d * 2 ^ grid (n / d)) <= 2 ^ 24.
Proof.
  intros Hn Hd.
  set (e := grid (n / d)).
  assert (He : 0 <= e) by apply grid_nonneg.
  assert (P : 0 < 2 ^ e) by (apply Z.pow_pos_nonneg; lia).
  assert (HD : 0 < d * 2 ^ e) by nia.
  pose proof (below_grid (n / d) (e + 1) ltac:(lia) ltac:(fold e; lia)) as Hb.
  replace (e + 1 + 23) with (e + 24) in Hb by lia.
  rewrite Z.pow_add_r in Hb by lia.
  assert (Hlt : n < 2 ^ 24 * (d * 2 ^ e)).
  { pose proof (Z.div_mod n d ltac:(lia)).
    pose proof (Z.mod_pos_bound n d Hd). nia. }
  rewrite <- (rne_exact (2 ^ 24) (d * 2 ^ e) HD).
  apply rne_mono; [assumption .. |].
  apply Z.mul_le_mono_nonneg_r; lia.
Qed.

Lemma grid_multiple m e :
  0 <= e -> 0 <= m <= 2 ^ 24 -> (m * 2 ^ e) mod 2 ^ grid (m * 2 ^ e) = 0.
Proof.
  intros He Hm.
  assert (P : 0 < 2 ^ e) by (apply Z.pow_pos_nonneg; lia).
  destruct (Z.eq_dec m (2 ^ 24)) as [-> | Hne].
  - rewrite <- Z.pow_add_r by lia.
    unfold grid. rewrite Z.log2_pow2 by lia.
    replace (Z.max (24 + e - 23) 0) with (e + 1) by lia.
    replace (24 + e) with (23 + (e + 1)) by lia.
    rewrite Z.pow_add_r by lia. apply Z.mod_mul.
    pose proof (Z.pow_pos_nonneg 2 (e + 1)). lia.
  - assert (Hg : grid (m * 2 ^ e) <= e).
    { destruct (Z.le_gt_cases e (grid (m * 2 ^ e))) as [Hge |]; [| lia].
      destruct (Z.eq_dec e (grid (m * 2 ^ e))) as [| Hne']; [lia |].
      pose proof (grid_pos_bounds (m * 2 ^ e) ltac:(lia)) as Hb.
      assert (Hp : 2 ^ (24 + e) <= 2 ^ (grid (m * 2 ^ e) + 23))
        by (apply Z.pow_le_mono_r; lia).
      rewrite (Z.pow_add_r 2 24 e) in Hp by lia.
      assert (2 ^ 24 * 2 ^ e <= m * 2 ^ e) by lia.
      assert (2 ^ 24 <= m) by (apply (Z.mul_le_mono_pos_r _ _ (2 ^ e)); lia).
      lia. }
    pose proof (grid_nonneg (m * 2 ^ e)) as Hg0.
    set (g := grid (m * 2 ^ e)) in *.
    replace e with ((e - g) + g) at 1 by lia.
    rewrite Z.pow_add_r by lia.
    rewrite Z.mul_assoc. apply Z.mod_mul.
    pose proof (Z.pow_pos_nonneg 2 g). lia.
Qed.

(** Rounding lands in the format. *)
Lemma round_pos_representable n d :
  0 <= n -> 0 < d -> representable (round_pos n d) = true.
Proof.
  intros Hn Hd. unfold round_pos. cbv zeta.
  set (e := grid (n / d)).
  set (m := rne n (d * 2 ^ e)).
  assert (He : 0 <= e) by apply grid_nonneg.
  assert (P : 0 < 2 ^ e) by (apply Z.pow_pos_nonneg; lia).
  assert (Hm0 : 0 <= m) by (apply rne_nonneg; nia).
  assert (Hm1 : m <= 2 ^ 24) by (apply rne_grid_bound; assumption).
  destruct (Z.ltb_spec (m * 2 ^ e) (2 ^ 277)) as [Hlt | Hge]; [| reflexivity].
  unfold representable.
  rewrite Z.abs_eq by nia.
  apply andb_true_intro. split.
  - apply Z.ltb_lt. exact Hlt.
  - apply Z.eqb_eq. apply grid_multiple; lia.
Qed.

Lemma neg_representable x : representable x = true -> representable (neg x) = true.
Proof.
  destruct x as [u | s |]; simpl; [| reflexivity ..].
  rewrite Z.abs_opp. trivial.
Qed.

Lemma round_representable n d : 0 < d -> representable (round n d) = true.
Proof.
  intros Hd. unfold round.
  destruct (Z.leb_spec 0 n).
  - apply round_pos_representable; lia.
  - apply neg_representable, round_pos_representable; lia.
Qed.

(** The three operations return values of the format. *)
Lemma operations_representable x y :
  representable (mul x y) = true
  /\ representable (sub x y) = true
  /\ representable (div x y) = true.
Proof.
  split; [| split].
  - destruct x as [a | s |], y as [b | t |]; simpl;
      try reflexivity; try (destruct (_ =? 0); reflexivity).
    apply round_representable. lia.
  - destruct x as [a | s |], y as [b | t |]; simpl;
      try reflexivity; try (destruct (Bool.eqb _ _); reflexivity).
    apply round_representable. lia.
  - destruct x as [a | s |], y as [b | t |]; try reflexivity.
    unfold div.
    destruct (Z.eqb_spec b 0); [destruct (_ =? 0); reflexivity |].
    destruct (Z.ltb_spec 0 b); apply round_representable; lia.
Qed.

End Closure.

(** ** The model agrees with the reference semantics on sample operands *)

Example mul_agrees : agrees_on_samples (SFmul 24 128) F32.mul = true.
Proof. vm_compute. reflexivity. Qed.

Example sub_agrees : agrees_on_samples (SFsub 24 128) F32.sub = true.
Proof. vm_compute. reflexivity. Qed.

Example div_agrees : agrees_on_samples (SFdiv 24 128) F32.div = true.
Proof. vm_compute. reflexivity. Qed.

(** On analog readings, the voltage and the resistance estimate of the
    model are those of the reference operations. *)
Example calculate_resistance_agrees :
  forallb agrees_at_reading sample_readings = true.
Proof. vm_compute. reflexivity. Qed.

Example samples_representable :
  forallb (fun x => F32.representable (of_spec x)) spec_samples = true.
Proof. vm_compute. reflexivity. Qed.

(** [3.3f] is the binary32 value [0x40533333]. *)
Example V_SUPPLY_bits :
  V_SUPPLY = of_spec (S754_finite false 13841203 (-22))
  /\ F32.representable V_SUPPLY = true.
Proof. split; vm_compute; reflexivity. Qed.

(** ** Resistance estimate *)

Section Resistance.

Import F32.

(** The denominator [3.3f - v] is a positive finite number for
    [0 < v < 3.3f], and it decreases with [v]. *)
Lemma supply_minus_cases Vs a :
  round_pos Vs 1 = Fin Vs ->
  0 < a < Vs ->
  exists y, 0 < y /\ round_pos (Vs - a) 1 = Fin y.
Proof.
  intros HS Ha.
  pose proof (round_pos_mono 1 1 (Vs - a) 1 ltac:(lia) ltac:(lia) ltac:(lia)) as Hlo.
  pose proof (round_pos_mono (Vs - a) 1 Vs 1 ltac:(lia) ltac:(lia) ltac:(lia)) as Hhi.
  change (round_pos 1 1) with (Fin 1) in Hlo. rewrite HS in Hhi.
  destruct (round_pos (Vs - a) 1) as [y | [] |]; simpl in Hlo, Hhi; try discriminate.
  exists y. split; [lia | reflexivity].
Qed.

Lemma V_SUPPLY_fixed :
  match V_SUPPLY with Fin u => round_pos u 1 = Fin u | _ => False end.
Proof. vm_compute. reflexivity. Qed.

Lemma div_pos_fin x y :
  0 <= x -> 0 < y -> div (Fin x) (Fin y) = round_pos (x * 2 ^ 149) y.
Proof.
  intros Hx Hy. unfold div.
  destruct (Z.eqb_spec y 0); [lia |].
  destruct (Z.ltb_spec 0 y); [| lia].
  unfold round. destruct (Z.leb_spec 0 (x * 2 ^ 149)); [reflexivity | lia].
Qed.

Lemma div_inf_fin y : 0 < y -> div (Inf false) (Fin y) = Inf false.
Proof.
  intros Hy. unfold div, is_neg.
  destruct (Z.ltb_spec y 0); [lia | reflexivity].
Qed.

(** The quotient of the voltage divider is monotone in both operands. *)
Lemma quotient_mono N1 N2 y1 y2 :
  le (Fin 0) N1 = true -> le N1 N2 = true -> 0 < y2 <= y1 ->
  le (div N1 (Fin y1)) (div N2 (Fin y2)) = true.
Proof.
  intros H0 H12 Hy.
  destruct N1 as [x1 | [] |]; simpl in H0; try discriminate.
  - apply Z.leb_le in H0.
    destruct N2 as [x2 | [] |]; simpl in H12; try discriminate.
    + apply Z.leb_le in H12.
      rewrite !div_pos_fin by lia.
      apply round_pos_mono; nia.
    + rewrite div_pos_fin, div_inf_fin by lia.
      apply le_Inf_pos, round_pos_not_NaN.
  - destruct N2 as [x2 | [] |]; simpl in H12; try discriminate.
    rewrite !div_inf_fin by lia. reflexivity.
Qed.

(** The numerator [v * pullup] is non-negative and monotone in [v]. *)
Lemma numerator_mono a1 a2 p :
  lt (Fin 0) p = true -> 0 < a1 <= a2 ->
  le (Fin 0) (mul (Fin a1) p) = true
  /\ le (mul (Fin a1) p) (mul (Fin a2) p) = true.
Proof.
  intros Hp Ha.
  destruct p as [b | [] |]; simpl in Hp; try discriminate.
  - apply Z.ltb_lt in Hp.
    unfold mul, round.
    destruct (Z.leb_spec 0 (a1 * b)); [| nia].
    destruct (Z.leb_spec 0 (a2 * b)); [| nia].
    split.
    + change (Fin 0) with (round_pos 0 1). apply round_pos_mono; lia.
    + apply round_pos_mono; [lia | lia | nia].
  - unfold mul, is_neg.
    destruct (Z.eqb_spec a1 0); [lia |].
    destruct (Z.eqb_spec a2 0); [lia |].
    destruct (Z.ltb_spec a1 0); [lia |].
    destruct (Z.ltb_spec a2 0); [lia |].
    split; reflexivity.
Qed.

End Resistance.

(** C7.  [calculate_resistance] returns 0 at or above the supply voltage
    [3.3f], the open-circuit value 999999 at or below 0, and between the
    two it is monotonically increasing in the voltage,
    [calculate_resistance v1 <= calculate_resistance v2] for [v1 <= v2],
    for every positive pull-up (the default 4700 among them).  The order
    is not strict: see [calculate_resistance_plateau]. *)
Theorem calculate_resistance_monotone_saturating :
  (forall v p,
     F32.ge v (F32.literal 33 10) = true ->
     calculate_resistance v p = F32.of_int 0)
  /\ (forall v p,
        F32.le v (F32.of_int 0) = true ->
        calculate_resistance v p = F32.of_int 999999)
  /\ (forall v1 v2 p,
        F32.lt (F32.of_int 0) p = true ->
        F32.lt (F32.of_int 0) v1 = true ->
        F32.le v1 v2 = true ->
        F32.lt v2 (F32.literal 33 10) = true ->
        F32.le (calculate_resistance v1 p) (calculate_resistance v2 p) = true).
Proof.
  change (F32.literal 33 10) with V_SUPPLY.
  change (F32.of_int 0) with F_ZERO.
  change (F32.of_int 999999) with F_OPEN.
  split; [| split].
  - intros v p H. unfold calculate_resistance. rewrite H. reflexivity.
  - intros v p H. unfold calculate_resistance.
    destruct v as [a | [] |]; simpl in H; try discriminate.
    + apply Z.leb_le in H.
      unfold F32.ge, V_SUPPLY, F_ZERO. simpl.
      destruct (Z.leb_spec 2354958658936597111652325503254206231854710784 a); [lia |].
      destruct (Z.leb_spec a 0); [reflexivity | lia].
    + reflexivity.
  - intros v1 v2 p Hp H1 H12 H2.
    unfold V_SUPPLY, F_ZERO in H1, H2, Hp.
    destruct v1 as [a1 | [] |]; simpl in H1; try discriminate H1;
      destruct v2 as [a2 | [] |]; simpl in H2, H12;
      try discriminate H2; try discriminate H12.
    pose proof V_SUPPLY_fixed as HS.
    unfold V_SUPPLY in HS.
    set (Vs := 2354958658936597111652325503254206231854710784) in *.
    apply Z.ltb_lt in H1, H2. apply Z.leb_le in H12.
    unfold calculate_resistance, F32.ge, V_SUPPLY, F_ZERO. fold Vs.
    simpl F32.le.
    destruct (Z.leb_spec Vs a1); [lia |].
    destruct (Z.leb_spec Vs a2); [lia |].
    destruct (Z.leb_spec a1 0); [lia |].
    destruct (Z.leb_spec a2 0); [lia |].
    destruct (numerator_mono a1 a2 p Hp ltac:(lia)) as [Hn0 Hn].
    unfold F32.sub, F32.round.
    destruct (Z.leb_spec 0 (Vs - a1)); [| lia].
    destruct (Z.leb_spec 0 (Vs - a2)); [| lia].
    destruct (supply_minus_cases Vs a1 HS ltac:(lia)) as (y1 & Hy1 & E1).
    destruct (supply_minus_cases Vs a2 HS ltac:(lia)) as (y2 & Hy2 & E2).
    pose proof (round_pos_mono (Vs - a2) 1 (Vs - a1) 1 ltac:(lia) ltac:(lia) ltac:(lia)) as Hd.
    rewrite E1, E2 in *. simpl in Hd. apply Z.leb_le in Hd.
    apply quotient_mono; [assumption | assumption | lia].
Qed.

Lemma calculate_resistance_monotone_witness :
  F32.le (calculate_resistance (F32.of_int 1) (F32.of_int 4700))
         (calculate_resistance (F32.of_int 2) (F32.of_int 4700)) = true.
Proof.
  apply (proj2 (proj2 calculate_resistance_monotone_saturating));
    vm_compute; reflexivity.
Defined.

(** Two distinct binary32 voltages, both near [2^-41] V, with the same
    estimate: rounding makes the estimate non-decreasing, not strictly
    increasing. *)
Example calculate_resistance_plateau :
  let v1 := F32.Fin ((2 ^ 24 - 2) * 2 ^ 60) in
  let v2 := F32.Fin ((2 ^ 24 - 1) * 2 ^ 60) in
  F32.representable v1 = true /\ F32.representable v2 = true
  /\ F32.lt (F32.of_int 0) v1 = true /\ F32.lt v1 v2 = true
  /\ F32.lt v2 V_SUPPLY = true
  /\ calculate_resistance v1 F_PULLUP = calculate_resistance v2 F_PULLUP.
Proof. vm_compute. repeat split; reflexivity. Qed.

(** ** Reading numbers: [parse_steps] *)

Lemma digit_not_nul c : is_digit c = true -> is_nul c = false.
Proof.
  unfold is_nul. destruct (Ascii.eqb_spec c nul) as [-> |]; [| reflexivity].
  vm_compute. discriminate.
Qed.

Lemma read_digits_digit_run wrap p acc :
  read_digits wrap (digit_run p) acc = read_digits wrap p acc.
Proof.
  revert acc. induction p as [| c r IH]; intros acc; simpl; [reflexivity |].
  destruct (is_digit c) eqn:E; simpl; [| reflexivity].
  rewrite E. apply IH.
Qed.

Lemma digit_run_app body tail :
  is_digit (deref tail) = false -> digit_run (body ++ tail)%string = digit_run body.
Proof.
  intros Ht. induction body as [| c r IH]; simpl.
  - destruct tail as [| c t]; simpl in *; [reflexivity |]. rewrite Ht. reflexivity.
  - destruct (is_digit c); [rewrite IH |]; reflexivity.
Qed.

Lemma deref_digit_run p :
  is_digit (deref p) = true -> deref (digit_run p) = deref p.
Proof. destruct p as [| c r]; simpl; [reflexivity |]. intros ->. reflexivity. Qed.

Lemma read_digits_no_digit wrap p acc :
  is_digit (deref p) = false -> read_digits wrap p acc = acc.
Proof. destruct p as [| c r]; simpl; [reflexivity |]. intros ->. reflexivity. Qed.

Lemma digit_run_no_digit p : is_digit (deref p) = false -> digit_run p = ""%string.
Proof. destruct p as [| c r]; simpl; [reflexivity |]. intros ->. reflexivity. Qed.

(** After its prefix, [parse_steps] depends on the digit run only. *)
Lemma parse_steps_digit_run c1 c2 rest d :
  parse_steps (String c1 (String c2 rest)) d
  = parse_steps (String c1 (String c2 (digit_run rest))) d.
Proof.
  unfold parse_steps. simpl.
  destruct (is_nul c1); [reflexivity |].
  destruct (is_nul c2); [reflexivity |]. simpl.
  rewrite read_digits_digit_run.
  destruct (is_digit (deref rest)) eqn:E.
  - rewrite deref_digit_run by assumption. reflexivity.
  - rewrite (digit_run_no_digit rest E). simpl.
    rewrite (read_digits_no_digit _ rest 0 E). simpl.
    destruct (is_nul (deref rest)); reflexivity.
Qed.

(** The 16-bit accumulator holds the number read modulo [2^16]. *)
Lemma read_digits_u16 p acc :
  read_digits wrap_u16 p (wrap_u16 acc)
  = wrap_u16 (read_digits (fun z => z) p acc).
Proof.
  revert acc. induction p as [| c r IH]; intros acc; simpl; [reflexivity |].
  destruct (is_digit c); [| reflexivity].
  rewrite <- IH. f_equal. unfold wrap_u16.
  rewrite <- (Zplus_mod_idemp_l (acc mod 2 ^ 16 * 10)), <- Zmult_mod_idemp_l.
  rewrite Z.mod_mod by lia.
  rewrite Zmult_mod_idemp_l, Zplus_mod_idemp_l. reflexivity.
Qed.

(** What [parse_steps] returns for a command with its two-character
    prefix: the number read, reduced modulo [2^16], when that lies in
    (0, 10000], and the default otherwise. *)
Lemma parse_steps_value c1 c2 rest d :
  is_nul c1 = false -> is_nul c2 = false ->
  parse_steps (String c1 (String c2 rest)) d
  = Some (let v := decimal_value rest mod 2 ^ 16 in
          if (0 <? v) && (v <=? 10000) then v else d).
Proof.
  intros H1 H2. unfold parse_steps. simpl. rewrite H1, H2. simpl.
  pose proof (read_digits_u16 rest 0) as Hr.
  change (wrap_u16 0) with 0 in Hr. rewrite Hr.
  fold (decimal_value rest). unfold wrap_u16.
  destruct (is_nul (deref rest)) eqn:E; [| reflexivity].
  assert (Hd : is_digit (deref rest) = false).
  { destruct (is_digit (deref rest)) eqn:D; [| reflexivity].
    rewrite (digit_not_nul _ D) in E. discriminate. }
  unfold decimal_value. rewrite (read_digits_no_digit _ rest 0 Hd). reflexivity.
Qed.

(** For numbers that fit 16 bits the result is the number when it lies in
    (0, 10000] and the default otherwise. *)
Lemma parse_steps_below_65536 c1 c2 rest d :
  is_nul c1 = false -> is_nul c2 = false ->
  0 <= decimal_value rest < 2 ^ 16 ->
  parse_steps (String c1 (String c2 rest)) d
  = Some (if (0 <? decimal_value rest) && (decimal_value rest <=? 10000)
          then decimal_value rest else d).
Proof.
  intros H1 H2 Hv. rewrite parse_steps_value by assumption.
  cbv zeta. rewrite Z.mod_small by assumption. reflexivity.
Qed.

(** C3.  The claim fails on the code: the number is accumulated in a
    [uint16_t], so a suffix whose value is above 65535 is reduced modulo
    65536 before the range test.  The decimal value of the suffix of
    ["x+65537"] is 65537, above 10000, and [parse_steps] returns 1, not
    the default 100; for ["x+70000"] it returns 4464. *)
Theorem parse_steps_wraps_at_65536 :
  decimal_value "65537" = 65537
  /\ parse_steps "x+65537" 100 = Some 1
  /\ decimal_value "70000" = 70000
  /\ parse_steps "x+70000" 100 = Some 4464.
Proof. repeat split; vm_compute; reflexivity. Qed.

(** C10.  [parse_steps] reads the maximal run of decimal digits that
    follows the two-character prefix and nothing after it: the result
    is that of the command cut after the run; a suffix that begins with
    a non-digit gives the default; whatever follows a number, starting at
    a non-digit, does not change the result. *)
Theorem parse_steps_reads_only_digit_run :
  (forall c1 c2 rest d,
     parse_steps (String c1 (String c2 rest)) d
     = parse_steps (String c1 (String c2 (digit_run rest))) d)
  /\ (forall c1 c2 rest d,
        is_nul c1 = false -> is_nul c2 = false ->
        is_digit (deref rest) = false ->
        parse_steps (String c1 (String c2 rest)) d = Some d)
  /\ (forall c1 c2 number tail d,
        is_digit (deref tail) = false ->
        parse_steps (String c1 (String c2 (number ++ tail))) d
        = parse_steps (String c1 (String c2 number)) d)
  /\ parse_steps "x+abc" 100 = Some 100
  /\ parse_steps "x+50abc" 100 = Some 50
  /\ parse_steps "x+50" 100 = Some 50.
Proof.
  split; [| split; [| split]].
  - apply parse_steps_digit_run.
  - intros c1 c2 rest d H1 H2 Hd.
    rewrite parse_steps_value by assumption. cbv zeta.
    unfold decimal_value. rewrite (read_digits_no_digit _ rest 0 Hd).
    reflexivity.
  - intros c1 c2 number tail d Ht.
    rewrite parse_steps_digit_run, (digit_run_app number tail Ht).
    symmetry. apply parse_steps_digit_run.
  - repeat split; vm_compute; reflexivity.
Qed.

Lemma parse_steps_reads_only_digit_run_witness :
  parse_steps "x+abc" 100 = Some 100
  /\ parse_steps "x+50abc" 100 = parse_steps "x+50" 100.
Proof.
  split.
  - apply (proj1 (proj2 parse_steps_reads_only_digit_run) "x"%char "+"%char "abc"%string);
      reflexivity.
  - apply (proj1 (proj2 (proj2 parse_steps_reads_only_digit_run))
             "x"%char "+"%char "50"%string "abc"%string).
    reflexivity.
Defined.

(** ** Loops *)

Lemma iterate_invariant {A : Type} (P : A -> Prop) body n from (a : A) :
  (forall i x, P x -> P (body i x)) -> P a -> P (iterate n from body a).
Proof.
  intros Hbody. revert from a.
  induction n as [| n IH]; intros from a Ha; simpl; [assumption |].
  apply IH, Hbody, Ha.
Qed.

Lemma iterateM_invariant {A : Type} (P : A -> Prop) body n from (a : A) :
  (forall i x, P x -> exists y, body i x = Some y /\ P y) ->
  P a -> exists b, iterateM n from body a = Some b /\ P b.
Proof.
  intros Hbody. revert from a.
  induction n as [| n IH]; intros from a Ha; simpl; [eauto |].
  destruct (Hbody from a Ha) as (y & -> & Hy). simpl. apply IH, Hy.
Qed.

(** The same with the loop counter in view: it runs through
    [from, from + n). *)
Lemma iterateM_invariant_bounded {A : Type} (P : A -> Prop) body n from (a : A) :
  (forall i x, from <= i < from + Z.of_nat n -> P x ->
               exists y, body i x = Some y /\ P y) ->
  P a -> exists b, iterateM n from body a = Some b /\ P b.
Proof.
  revert from a.
  induction n as [| n IH]; intros from a Hbody Ha; simpl; [eauto |].
  destruct (Hbody from a ltac:(lia) Ha) as (y & -> & Hy). simpl.
  apply IH; [| exact Hy].
  intros i x Hi. apply Hbody. lia.
Qed.

(** ** String comparisons *)

Lemma take_chars_length n p :
  String.length (take_chars n p) = Nat.min n (String.length p).
Proof.
  revert p. induction n as [| n IH]; intros [| c r]; simpl; try reflexivity.
  rewrite IH. reflexivity.
Qed.

Lemma ptr_add_within n p :
  (n <= String.length (c_str p))%nat -> is_Some (ptr_add p n).
Proof.
  revert p. induction n as [| n IH]; intros p Hn; simpl; [eauto |].
  destruct p as [| c r]; simpl in Hn; [lia |].
  destruct (is_nul c); simpl in Hn; [lia |].
  apply IH. lia.
Qed.

(** A command that begins with an [n]-character literal is at least
    [n] characters long. *)
Lemma strncmp_ptr_add command lit n :
  String.length (c_str lit) = n ->
  strncmp command lit n = true -> is_Some (ptr_add command n).
Proof.
  intros Hlen Heq. apply ptr_add_within.
  unfold strncmp in Heq. apply String.eqb_eq in Heq.
  apply (f_equal String.length) in Heq.
  rewrite !take_chars_length in Heq. lia.
Qed.

Lemma strcmp_eq a b : strcmp a b = true -> c_str a = c_str b.
Proof. apply String.eqb_eq. Qed.

Lemma strncmp_eq a b n :
  strncmp a b n = true -> take_chars n (c_str a) = take_chars n (c_str b).
Proof. apply String.eqb_eq. Qed.

(** ** What the interpreter leaves alone *)

Lemma same_tracking_refl s : same_tracking s s.
Proof. repeat split. Qed.

Lemma same_tracking_emit es s : same_tracking s (emit es s).
Proof. repeat split. Qed.

(** A manual move writes pins and prints: it changes no variable. *)
Lemma manual_move_axis_frame step_pin dir_pin direction steps s :
  same_tracking s (manual_move_axis step_pin dir_pin direction steps s)
  /\ adc_control_active (manual_move_axis step_pin dir_pin direction steps s)
     = adc_control_active s.
Proof.
  unfold manual_move_axis, for_lt. cbv zeta.
  apply (iterate_invariant
           (fun x => same_tracking s (emit [SERIAL_ECHOLNPGM "Move complete"] x)
                     /\ adc_control_active
                          (emit [SERIAL_ECHOLNPGM "Move complete"] x)
                        = adc_control_active s)).
  - intros i x Hx. destruct (Z.rem i 10 =? 0); exact Hx.
  - repeat split.
Qed.

Lemma jog_frame step_pin dir_pin direction command lit d s :
  String.length (c_str lit) = 2%nat ->
  strncmp command lit 2 = true ->
  exists s',
    jog step_pin dir_pin direction command d s = Some s'
    /\ same_tracking s s'
    /\ adc_control_active s' = adc_control_active s.
Proof.
  intros Hlen Heq.
  destruct (strncmp_ptr_add command lit 2 Hlen Heq) as [numStart Hp].
  unfold jog, parse_steps. rewrite Hp. simpl.
  destruct (is_nul (deref numStart)); simpl;
    (eexists; split; [reflexivity | apply manual_move_axis_frame]).
Qed.

Lemma adc_set_range_frame command s :
  strncmp command "adc_range" 9 = true ->
  exists s',
    adc_set_range command s = Some s'
    /\ same_samples s s'
    /\ adc_current_position s' = adc_current_position s
    /\ adc_control_active s' = adc_control_active s
    /\ (position_range s' = position_range s
        \/ 0 < position_range s' <= 50000).
Proof.
  intros Heq.
  destruct (strncmp_ptr_add command "adc_range" 9 eq_refl Heq) as [numStart Hp].
  unfold adc_set_range. rewrite Hp. simpl.
  destruct (is_nul (deref numStart)); simpl.
  - eexists. split; [reflexivity |]. repeat split. left. reflexivity.
  - destruct (_ && _) eqn:E; (eexists; split; [reflexivity |]); repeat split.
    + right. simpl. apply andb_prop in E as [E1 E2].
      apply Z.ltb_lt in E1. apply Z.leb_le in E2. lia.
    + left. reflexivity.
Qed.

(** The effect of one command on the tracking variables.  The sample
    ring, the target, the time stamp and the counter are never written;
    the current position is written by [adc_zero] alone, which sets it
    to 0; the range stays within (0, 50000] once it is. *)
Lemma process_manual_command_frame e command s :
  exists s',
    process_manual_command e command s = Some s'
    /\ same_samples s s'
    /\ (if strcmp command "adc_zero"
        then adc_current_position s' = 0
        else adc_current_position s' = adc_current_position s)
    /\ (position_range s' = position_range s
        \/ 0 < position_range s' <= 50000).
Proof.
  destruct (strcmp command "adc_zero") eqn:Hz.
  - exists (adc_zero s).
    apply strcmp_eq in Hz. change (c_str "adc_zero") with "adc_zero"%string in Hz.
    split; [| repeat split; left; reflexivity].
    unfold process_manual_command, strcmp, strncmp. rewrite Hz. reflexivity.
  - unfold process_manual_command.
    repeat
      match goal with
      | |- exists _, (if strncmp _ "adc_range" _ then _ else _) = _ /\ _ =>
          destruct (strncmp command "adc_range" 9) eqn:?;
          [ destruct (adc_set_range_frame command s) as (s' & -> & ? & ? & ? & ?);
            [assumption |]; exists s'; tauto |]
      | |- exists _, (if strncmp _ ?lit _ then _ else _) = _ /\ _ =>
          destruct (strncmp command lit 2) eqn:?;
          [ match goal with
            | |- exists _, jog ?sp ?dp ?dir _ ?d _ = _ /\ _ =>
                destruct (jog_frame sp dp dir command lit d s)
                  as (s' & -> & (? & ? & ?) & ?);
                [reflexivity | assumption |]; exists s'; tauto
            end |]
      | |- exists _, (if strcmp _ "adc_zero" then _ else _) = _ /\ _ =>
          rewrite Hz
      | |- exists _, (if ?b then _ else _) = _ /\ _ =>
          destruct b eqn:?;
          [ eexists; split; [reflexivity |]; repeat split; left; reflexivity |]
      end.
    eexists; split; [reflexivity |]; repeat split; left; reflexivity.
Qed.

(** ** Arrays *)

Lemma array_get_Some (a : list Z) i :
  0 <= i < Z.of_nat (length a) -> exists v, array_get a i = Some v /\ v ∈ a.
Proof.
  intros Hi. unfold array_get.
  destruct (Z.leb_spec 0 i); [| lia].
  destruct (lookup_lt_is_Some_2 a (Z.to_nat i) ltac:(lia)) as [v Hv].
  exists v. split; [assumption |].
  apply list_elem_of_lookup. eauto.
Qed.

Lemma array_get_bounds (a : list Z) i v :
  array_get a i = Some v -> 0 <= i < Z.of_nat (length a).
Proof.
  unfold array_get. destruct (Z.leb_spec 0 i); [| discriminate].
  intros Hv. apply lookup_lt_Some in Hv. lia.
Qed.

Lemma array_set_Some (a : list Z) i v :
  0 <= i < Z.of_nat (length a) ->
  array_set a i v = Some (<[Z.to_nat i := v]> a).
Proof.
  intros Hi. unfold array_set.
  destruct (Z.leb_spec 0 i); [| lia].
  destruct (Z.ltb_spec i (Z.of_nat (length a))); [reflexivity | lia].
Qed.

Lemma array_set_bounds (a a' : list Z) i v :
  array_set a i v = Some a' -> 0 <= i < Z.of_nat (length a).
Proof.
  unfold array_set.
  destruct (Z.leb_spec 0 i); destruct (Z.ltb_spec i (Z.of_nat (length a)));
    simpl; intros; try discriminate; lia.
Qed.

Lemma array_of_set P len a i v :
  array_of P len a -> P v -> array_of P len (<[i := v]> a).
Proof.
  intros [Hl Hf] Hv. split.
  - rewrite length_insert. exact Hl.
  - apply Forall_insert; assumption.
Qed.

Lemma array_of_get P len a i v :
  array_of P len a -> array_get a i = Some v -> P v.
Proof.
  intros [_ Hf]. unfold array_get. destruct (0 <=? i); [| discriminate].
  intros Hv. exact (Forall_lookup_1 _ _ _ _ Hf Hv).
Qed.

(** ** The sample filter *)

(** One compare-and-swap touches the cells [j] and [j + 1]: it is
    defined exactly when both lie within the array. *)
Lemma swap_if_greater_defined j (a : list Z) :
  is_Some (swap_if_greater j a) <-> 0 <= j /\ j + 1 < Z.of_nat (length a).
Proof.
  unfold swap_if_greater. split.
  - intros [a' H].
    destruct (array_get a j) as [x |] eqn:Ex; [| discriminate].
    destruct (array_get a (j + 1)) as [y |] eqn:Ey; [| discriminate].
    apply array_get_bounds in Ex, Ey. lia.
  - intros Hj.
    destruct (array_get_Some a j ltac:(lia)) as (x & -> & _).
    destruct (array_get_Some a (j + 1) ltac:(lia)) as (y & -> & _).
    simpl. destruct (y <? x); [| eauto].
    rewrite array_set_Some by lia. simpl.
    rewrite array_set_Some by (rewrite length_insert; lia). eauto.
Qed.

Lemma swap_if_greater_array P len j a :
  array_of P len a -> 0 <= j -> j + 1 < Z.of_nat len ->
  exists a', swap_if_greater j a = Some a' /\ array_of P len a'.
Proof.
  intros Ha Hj Hj1. pose proof Ha as [Hl Hf]. unfold swap_if_greater.
  destruct (array_get_Some a j ltac:(lia)) as (x & Ex & _).
  destruct (array_get_Some a (j + 1) ltac:(lia)) as (y & Ey & _).
  rewrite Ex, Ey. simpl.
  destruct (y <? x); [| eauto].
  rewrite array_set_Some by lia. simpl.
  rewrite array_set_Some by (rewrite length_insert; lia).
  eexists. split; [reflexivity |].
  apply array_of_set; [apply array_of_set |].
  - exact Ha.
  - exact (array_of_get P len a _ _ Ha Ey).
  - exact (array_of_get P len a _ _ Ha Ex).
Qed.

(** The sort is defined on every prefix of the array, and it keeps the
    array's size and the range of its values. *)
Lemma bubble_sort_array P len n a :
  array_of P len a -> n <= Z.of_nat len ->
  exists a', bubble_sort n a = Some a' /\ array_of P len a'.
Proof.
  intros Ha Hn. unfold bubble_sort, for_ltM.
  apply (iterateM_invariant_bounded (array_of P len)); [| exact Ha].
  intros i x Hi Hx.
  apply (iterateM_invariant_bounded (array_of P len)); [| exact Hx].
  intros j y Hj Hy.
  apply swap_if_greater_array; [exact Hy | lia | lia].
Qed.

Lemma copy_samples_array P s :
  array_of P (Z.to_nat ADC_SAMPLES) (adc_buffer s) -> P 0 ->
  samples_to_use s <= ADC_SAMPLES ->
  exists a, copy_samples s = Some a /\ array_of P (Z.to_nat ADC_SAMPLES) a.
Proof.
  intros Hb H0 Hn. unfold copy_samples, for_ltM.
  apply (iterateM_invariant_bounded (array_of P (Z.to_nat ADC_SAMPLES))).
  - intros i x Hi [Hl Hf]. pose proof Hb as [Hbl Hbf].
    assert (Hi' : 0 <= i < 8) by (unfold ADC_SAMPLES in *; lia).
    destruct (array_get_Some (adc_buffer s) i) as (v & Ev & _).
    { rewrite Hbl. unfold ADC_SAMPLES. lia. }
    rewrite Ev. simpl.
    rewrite array_set_Some by (rewrite Hl; unfold ADC_SAMPLES; lia).
    eexists. split; [reflexivity |].
    apply array_of_set; [split; assumption |].
    exact (array_of_get P _ _ _ _ Hb Ev).
  - split; [apply length_replicate | apply Forall_replicate, H0].
Qed.

(** The median is defined as soon as the ring holds between 1 and
    [ADC_SAMPLES] valid samples, and it lies in the range of the ring's
    values. *)
Lemma filtered_value_defined P s :
  array_of P (Z.to_nat ADC_SAMPLES) (adc_buffer s) -> P 0 ->
  1 <= samples_to_use s <= ADC_SAMPLES ->
  exists sorted0 sorted adcValue,
    copy_samples s = Some sorted0
    /\ bubble_sort (samples_to_use s) sorted0 = Some sorted
    /\ length sorted = Z.to_nat ADC_SAMPLES
    /\ array_get sorted (samples_to_use s ÷ 2) = Some adcValue
    /\ filtered_value s = Some adcValue
    /\ P adcValue.
Proof.
  intros Hb H0 Hn.
  destruct (copy_samples_array P s Hb H0 ltac:(lia)) as (a0 & E0 & Ha0).
  destruct (bubble_sort_array P _ (samples_to_use s) a0 Ha0) as (a1 & E1 & Ha1).
  { unfold ADC_SAMPLES in *. lia. }
  assert (Hq : 0 <= samples_to_use s ÷ 2 < samples_to_use s).
  { pose proof (Z.quot_pos (samples_to_use s) 2 ltac:(lia) ltac:(lia)).
    pose proof (Z.quot_lt (samples_to_use s) 2 ltac:(lia) ltac:(lia)). lia. }
  destruct (array_get_Some a1 (samples_to_use s ÷ 2)) as (v & Ev & _).
  { destruct Ha1 as [-> _]. unfold ADC_SAMPLES in *. lia. }
  exists a0, a1, v. unfold filtered_value. rewrite E0. simpl. rewrite E1. simpl.
  repeat split; try assumption; [apply Ha1 |].
  exact (array_of_get P _ _ _ _ Ha1 Ev).
Qed.

(** A push is defined on a well-formed ring, keeps it well formed and
    leaves between 1 and [ADC_SAMPLES] valid samples. *)
Lemma push_sample_defined P raw s :
  buffer_ok s -> Forall P (adc_buffer s) -> P raw ->
  exists s1,
    push_sample raw s = Some s1
    /\ buffer_ok s1
    /\ Forall P (adc_buffer s1)
    /\ 1 <= samples_to_use s1 <= ADC_SAMPLES
    /\ adc_control_active s1 = adc_control_active s
    /\ adc_current_position s1 = adc_current_position s
    /\ adc_target_position s1 = adc_target_position s
    /\ position_range s1 = position_range s
    /\ last_adc_move s1 = last_adc_move s
    /\ update_counter s1 = update_counter s
    /\ trace s1 = trace s.
Proof.
  intros [Hl Hi] Hf Hraw. unfold push_sample, ADC_SAMPLES in *.
  rewrite array_set_Some by lia. simpl.
  eexists. split; [reflexivity |]. simpl.
  assert (Hrem : 0 <= Z.rem (adc_buffer_index s + 1) 8 < 8).
  { rewrite Z.rem_mod_nonneg by lia. apply Z.mod_pos_bound. lia. }
  assert (Hw : wrap_u8 (Z.rem (adc_buffer_index s + 1) 8)
               = Z.rem (adc_buffer_index s + 1) 8).
  { unfold wrap_u8. apply Z.mod_small. lia. }
  rewrite Hw. clear Hw.
  set (r := Z.rem (adc_buffer_index s + 1) 8) in *.
  split; [| split; [| split]].
  - split; unfold ADC_SAMPLES; simpl; [rewrite length_insert; exact Hl | lia].
  - apply Forall_insert; assumption.
  - unfold samples_to_use, ADC_SAMPLES. simpl.
    destruct (Z.eqb_spec r 0) as [E | E];
      destruct (adc_buffer_filled s); simpl; lia.
  - repeat split.
Qed.

(** ** The correction: [track] *)

Lemma wrap_i32_small z : - 2 ^ 31 <= z < 2 ^ 31 -> wrap_i32 z = z.
Proof. intros Hz. unfold wrap_i32. rewrite Z.mod_small; lia. Qed.

Lemma wrap_i32_range z : int32 (wrap_i32 z).
Proof.
  unfold int32, wrap_i32.
  pose proof (Z.mod_pos_bound (z + 2 ^ 31) (2 ^ 32) ltac:(lia)). lia.
Qed.

Lemma pulses_app p t1 t2 : pulses p (t1 ++ t2) = pulses p t1 + pulses p t2.
Proof.
  induction t1 as [| e t1 IH]; simpl; [reflexivity |].
  destruct e as [q [] | | | |]; rewrite ?IH; lia.
Qed.

Lemma track_step_stepped (direction : bool) i s :
  int32 (adc_current_position s + (if direction then 1 else - 1)) ->
  stepped direction 1 s (track_step direction i s).
Proof.
  intros Hr. unfold track_step. cbv zeta.
  assert (Hc : forall x,
             adc_current_position x = adc_current_position s ->
             wrap_i32 (adc_current_position x + (if direction then 1 else -1))
             = adc_current_position s + (if direction then 1 else - 1)).
  { intros x ->. apply wrap_i32_small. destruct direction; exact Hr. }
  destruct (Z.rem i 5 =? 0); unfold stepped; simpl;
    rewrite Hc by reflexivity; rewrite ?pulses_app; simpl;
    repeat split; lia.
Qed.

Lemma track_loop_stepped (direction : bool) n from s :
  int32 (adc_current_position s) ->
  int32 (adc_current_position s
         + (if direction then Z.of_nat n else - Z.of_nat n)) ->
  stepped direction (Z.of_nat n) s (iterate n from (track_step direction) s).
Proof.
  revert from s. induction n as [| n IH]; intros from s Hc Hend.
  - simpl. unfold stepped. repeat split; destruct direction; lia.
  - cbn [iterate].
    assert (H1 : int32 (adc_current_position s + (if direction then 1 else - 1))).
    { unfold int32 in *. destruct direction; lia. }
    pose proof (track_step_stepped direction from s H1) as Hs.
    destruct Hs as (Hp & Hq & Hrest).
    specialize (IH (from + 1) (track_step direction from s)).
    destruct IH as (Hp' & Hq' & Hrest').
    + rewrite Hp. exact H1.
    + rewrite Hp. unfold int32 in *. destruct direction; lia.
    + unfold stepped. rewrite Hp', Hq', Hp, Hq.
      split; [destruct direction; lia |]. split; [lia |].
      decompose [and] Hrest. decompose [and] Hrest'.
      repeat split; congruence.
Qed.

(** In the deadzone nothing happens at all. *)
Lemma track_deadzone now raw_adc adcValue s :
  Z.abs (adc_target_position s - adc_current_position s) <= 5 ->
  track now raw_adc adcValue s = s.
Proof.
  intros Hd. unfold track. cbv zeta.
  rewrite wrap_i32_small by lia.
  unfold Arduino.abs. rewrite wrap_i32_small by lia.
  destruct (Z.ltb_spec 5 (Z.abs (adc_target_position s - adc_current_position s)));
    [lia | reflexivity].
Qed.

(** The number of steps of one correction, for an error that fits
    [int32_t]. *)
Lemma steps_to_move_value err :
  Z.abs err < 2 ^ 31 ->
  steps_to_move err = Z.min (Z.abs err mod 2 ^ 16) 10.
Proof.
  intros He. unfold steps_to_move, Arduino.abs, wrap_u16.
  rewrite wrap_i32_small by lia. reflexivity.
Qed.

(** Outside the deadzone one correction issues [steps_to_move] pulses
    and moves the position by as many, towards the target. *)
Lemma track_correction now raw_adc adcValue s :
  int32 (adc_current_position s) -> int32 (adc_target_position s) ->
  let err := adc_target_position s - adc_current_position s in
  5 < Z.abs err < 2 ^ 31 ->
  let k := Z.min (Z.abs err mod 2 ^ 16) 10 in
  let s' := track now raw_adc adcValue s in
  0 <= k <= 10 /\ k <= Z.abs err
  /\ adc_current_position s' = adc_current_position s + Z.sgn err * k
  /\ pulses Y_STEP_PIN (trace s') = pulses Y_STEP_PIN (trace s) + k
  /\ last_adc_move s' = now
  /\ adc_target_position s' = adc_target_position s
  /\ position_range s' = position_range s
  /\ adc_control_active s' = adc_control_active s
  /\ adc_buffer s' = adc_buffer s
  /\ adc_buffer_index s' = adc_buffer_index s
  /\ adc_buffer_filled s' = adc_buffer_filled s.
Proof.
  intros Hc Ht err Herr k s'.
  pose proof (Z.mod_pos_bound (Z.abs err) (2 ^ 16) ltac:(lia)) as Hm.
  pose proof (Z.mod_le (Z.abs err) (2 ^ 16) ltac:(lia) ltac:(lia)) as Hle.
  assert (Hk : 0 <= k <= 10 /\ k <= Z.abs err) by (unfold k; lia).
  split; [apply Hk |]. split; [apply Hk |].
  assert (Habs : Arduino.abs err = Z.abs err).
  { unfold Arduino.abs. apply wrap_i32_small. lia. }
  assert (Hdir : (if 0 <? err then k else - k) = Z.sgn err * k).
  { destruct (Z.ltb_spec 0 err); [rewrite Z.sgn_pos by lia; lia |].
    rewrite Z.sgn_neg by lia. lia. }
  set (s0 := emit [WRITE Y_DIR_PIN (level_of (0 <? err)); DELAY_US 10]
               (emit [WRITE X_ENABLE_PIN LOW] s)).
  assert (Hq0 : pulses Y_STEP_PIN (trace s0) = pulses Y_STEP_PIN (trace s)).
  { unfold s0. simpl. rewrite !pulses_app. simpl.
    destruct (0 <? err); simpl; lia. }
  destruct (track_loop_stepped (0 <? err) (Z.to_nat k) 0 s0)
    as (Hp & Hq & Hrest).
  { exact Hc. }
  { rewrite Z2Nat.id by lia. rewrite Hdir.
    change (adc_current_position s0) with (adc_current_position s).
    unfold int32 in *. unfold err in *.
    destruct (Z.sgn_spec (adc_target_position s - adc_current_position s))
      as [[? ->] | [[? ->] | [? ->]]]; lia. }
  rewrite Z2Nat.id in Hp, Hq by lia. rewrite Hdir in Hp.
  change (adc_current_position s0) with (adc_current_position s) in Hp.
  rewrite Hq0 in Hq.
  subst s'. unfold track. cbv zeta. fold err.
  rewrite (wrap_i32_small err) by lia. rewrite Habs.
  destruct (Z.ltb_spec 5 (Z.abs err)); [| lia].
  rewrite steps_to_move_value by lia. fold k.
  unfold for_lt. fold s0.
  set (s1 := iterate (Z.to_nat k) 0 (track_step (0 <? err)) s0) in *.
  decompose [and] Hrest. clear Hrest.
  match goal with
  | |- context [if ?b then _ else _] => destruct b
  end; simpl; rewrite ?pulses_app; simpl;
    repeat split; try assumption; try lia.
Qed.

(** The stepping loop without any assumption on the position: it emits
    one pulse per iteration and writes nothing but the position. *)
Lemma track_loop_pulses direction n from s :
  let s' := iterate n from (track_step direction) s in
  pulses Y_STEP_PIN (trace s') = pulses Y_STEP_PIN (trace s) + Z.of_nat n
  /\ adc_target_position s' = adc_target_position s
  /\ adc_control_active s' = adc_control_active s.
Proof.
  revert from s. induction n as [| n IH]; intros from s; cbn [iterate].
  - cbv zeta. repeat split. lia.
  - specialize (IH (from + 1) (track_step direction from s)). cbv zeta in *.
    destruct IH as (-> & -> & ->).
    unfold track_step. cbv zeta.
    destruct (Z.rem from 5 =? 0); simpl; rewrite ?pulses_app; simpl;
      repeat split; lia.
Qed.

(** A correction leaves the target alone, and it cannot move the
    position without pulsing the step pin. *)
Lemma track_frame now raw_adc adcValue s :
  let s' := track now raw_adc adcValue s in
  adc_target_position s' = adc_target_position s
  /\ adc_control_active s' = adc_control_active s
  /\ pulses Y_STEP_PIN (trace s) <= pulses Y_STEP_PIN (trace s')
  /\ (pulses Y_STEP_PIN (trace s') = pulses Y_STEP_PIN (trace s) ->
      adc_current_position s' = adc_current_position s).
Proof.
  unfold track. cbv zeta.
  set (err := wrap_i32 (adc_target_position s - adc_current_position s)).
  destruct (5 <? Arduino.abs err); [| repeat split; lia].
  unfold for_lt.
  set (s0 := emit [WRITE Y_DIR_PIN (level_of (0 <? err)); DELAY_US 10]
               (emit [WRITE X_ENABLE_PIN LOW] s)).
  assert (Hq0 : pulses Y_STEP_PIN (trace s0) = pulses Y_STEP_PIN (trace s)).
  { unfold s0. simpl. rewrite !pulses_app. simpl.
    destruct (0 <? err); simpl; lia. }
  set (n := Z.to_nat (steps_to_move err)).
  pose proof (track_loop_pulses (0 <? err) n 0 s0) as Hl. cbv zeta in Hl.
  assert (Hz : n = O -> iterate n 0 (track_step (0 <? err)) s0 = s0)
    by (intros ->; reflexivity).
  set (s1 := iterate n 0 (track_step (0 <? err)) s0) in *.
  destruct Hl as (Hq & Ht & Ha).
  match goal with
  | |- context [if ?b then _ else _] => destruct b
  end; simpl; rewrite ?pulses_app; simpl; rewrite ?Z.add_0_r;
    (split; [exact Ht |]; split; [exact Ha |]; split; [lia |]);
    intros Hsame; (rewrite Hz by lia); reflexivity.
Qed.

(** ** One tick of the tracker *)

(** Past its two gates, a tick on a well-formed ring pushes the
    reading, takes the median, sets the target from it and corrects. *)
Lemma manual_adc_control_y_runs (P : Z -> Prop) e s :
  buffer_ok s -> Forall P (adc_buffer s) -> P 0 ->
  P (wrap_u16 (analogRead e TEMP_BED_PIN)) ->
  adc_control_active s = true ->
  10 <= wrap_u32 (wrap_u32 (millis e) - last_adc_move s) ->
  exists s1 adcValue,
    push_sample (wrap_u16 (analogRead e TEMP_BED_PIN)) s = Some s1
    /\ filtered_value s1 = Some adcValue
    /\ P adcValue
    /\ buffer_ok s1 /\ Forall P (adc_buffer s1)
    /\ adc_current_position s1 = adc_current_position s
    /\ position_range s1 = position_range s
    /\ adc_control_active s1 = true
    /\ trace s1 = trace s
    /\ manual_adc_control_y e s
       = Some (track (wrap_u32 (millis e))
                 (wrap_u16 (analogRead e TEMP_BED_PIN)) adcValue
                 (set_target (target_of adcValue s1) s1)).
Proof.
  intros Hok Hf H0 Hraw Hact Hgate.
  destruct (push_sample_defined P _ s Hok Hf Hraw)
    as (s1 & Hpush & Hok1 & Hf1 & Hn & Ha & Hc & Ht & Hr & Hl & Hu & Htr).
  destruct (filtered_value_defined P s1) as (a0 & a1 & v & _ & _ & _ & _ & Hv & HP).
  { split; [apply Hok1 | exact Hf1]. }
  { exact H0. }
  { exact Hn. }
  exists s1, v. repeat split; try assumption; try congruence; try apply Hok1.
  unfold manual_adc_control_y. rewrite Hact. simpl.
  destruct (Z.ltb_spec (wrap_u32 (wrap_u32 (millis e) - last_adc_move s)) 10);
    [lia |].
  rewrite Hpush. simpl. rewrite Hv. reflexivity.
Qed.

(** A tick returns on every well-formed ring. *)
Lemma manual_adc_control_y_total e s :
  buffer_ok s -> is_Some (manual_adc_control_y e s).
Proof.
  intros Hok.
  destruct (adc_control_active s) eqn:Hact.
  - destruct (Z.lt_ge_cases (wrap_u32 (wrap_u32 (millis e) - last_adc_move s)) 10)
      as [Hg | Hg].
    + unfold manual_adc_control_y. rewrite Hact. simpl.
      destruct (Z.ltb_spec (wrap_u32 (wrap_u32 (millis e) - last_adc_move s)) 10);
        [eauto | lia].
    + destruct (manual_adc_control_y_runs (fun _ => True) e s)
        as (s1 & v & _ & _ & _ & _ & _ & _ & _ & _ & _ & ->); eauto.
      apply Forall_forall. trivial.
  - unfold manual_adc_control_y. rewrite Hact. simpl. eauto.
Qed.

(** The two early returns. *)
Lemma manual_adc_control_y_inactive e s :
  adc_control_active s = false -> manual_adc_control_y e s = Some s.
Proof. intros H. unfold manual_adc_control_y. rewrite H. reflexivity. Qed.

Lemma manual_adc_control_y_gated e s :
  wrap_u32 (wrap_u32 (millis e) - last_adc_move s) < 10 ->
  manual_adc_control_y e s = Some s.
Proof.
  intros H. unfold manual_adc_control_y.
  destruct (adc_control_active s); [| reflexivity]. simpl.
  destruct (Z.ltb_spec (wrap_u32 (wrap_u32 (millis e) - last_adc_move s)) 10);
    [reflexivity | lia].
Qed.

(** Every tick, whichever way it goes: the position moves only with
    pulses on the step pin, and only while tracking is active. *)
Lemma manual_adc_control_y_moves e s s' :
  manual_adc_control_y e s = Some s' ->
  adc_current_position s' <> adc_current_position s ->
  adc_control_active s = true
  /\ pulses Y_STEP_PIN (trace s) < pulses Y_STEP_PIN (trace s').
Proof.
  intros Hrun Hne.
  destruct (adc_control_active s) eqn:Hact.
  2:{ rewrite manual_adc_control_y_inactive in Hrun by assumption.
      congruence. }
  split; [reflexivity |].
  unfold manual_adc_control_y in Hrun. rewrite Hact in Hrun.
  cbn [negb] in Hrun.
  destruct (_ <? 10); [congruence |].
  apply bind_Some in Hrun as (s1 & Hpush & Hrun).
  apply bind_Some in Hrun as (v & Hv & Hrun).
  injection Hrun as <-.
  pose proof (track_frame (wrap_u32 (millis e))
                (wrap_u16 (analogRead e TEMP_BED_PIN)) v
                (set_target (target_of v s1) s1)) as (_ & _ & Hle & Hsame).
  assert (H1 : adc_current_position s1 = adc_current_position s
               /\ trace s1 = trace s).
  { unfold push_sample in Hpush.
    apply bind_Some in Hpush as (buf & _ & Hpush).
    injection Hpush as <-. split; reflexivity. }
  destruct H1 as [Hc1 Ht1].
  change (trace (set_target (target_of v s1) s1)) with (trace s1) in Hle, Hsame.
  change (adc_current_position (set_target (target_of v s1) s1))
    with (adc_current_position s1) in Hsame.
  rewrite Ht1 in Hle, Hsame. rewrite Hc1 in Hsame.
  destruct (Z.eq_dec
              (pulses Y_STEP_PIN
                 (trace (track (wrap_u32 (millis e))
                           (wrap_u16 (analogRead e TEMP_BED_PIN)) v
                           (set_target (target_of v s1) s1))))
              (pulses Y_STEP_PIN (trace s))) as [E | E].
  - exfalso. apply Hne. apply Hsame. exact E.
  - lia.
Qed.

(** ** Reachable states *)

(** A 12-bit sample is mapped into [-range/2, range/2]. *)
Lemma target_of_bounds adcValue s :
  adc12 adcValue -> 0 < position_range s <= 50000 ->
  Z.abs (target_of adcValue s) <= position_range s ÷ 2
  /\ position_range s ÷ 2 <= 25000.
Proof.
  intros Hv Hr. unfold adc12 in Hv.
  unfold target_of, Arduino.map, adc_range.
  set (R := position_range s) in *.
  assert (Hh : 0 <= R ÷ 2 <= 25000).
  { rewrite Z.quot_div_nonneg by lia.
    pose proof (Z.div_pos R 2 ltac:(lia) ltac:(lia)).
    pose proof (Z.div_le_upper_bound R 2 25000 ltac:(lia) ltac:(lia)). lia. }
  rewrite (wrap_i32_small (- R)) by lia.
  rewrite Z.quot_opp_l by lia.
  set (h := R ÷ 2) in *.
  rewrite (wrap_i32_small (adcValue - 0)) by lia.
  rewrite (wrap_i32_small (h - - h)) by lia.
  rewrite (wrap_i32_small (4095 - 0)) by lia.
  replace (adcValue - 0) with adcValue by lia.
  replace (h - - h) with (2 * h) by lia.
  replace (4095 - 0) with 4095 by lia.
  assert (Hp : 0 <= adcValue * (2 * h) <= 4095 * (2 * h)) by nia.
  rewrite (wrap_i32_small (adcValue * (2 * h))) by lia.
  rewrite Z.quot_div_nonneg by lia.
  pose proof (Z.div_pos (adcValue * (2 * h)) 4095 ltac:(lia) ltac:(lia)) as Hq0.
  assert (Hq1 : adcValue * (2 * h) / 4095 <= 2 * h).
  { apply Z.div_le_upper_bound; lia. }
  rewrite wrap_i32_small by lia. lia.
Qed.

Lemma initial_state_inv : tracking_inv initial_state.
Proof.
  unfold tracking_inv, buffer_ok, adc12. simpl.
  repeat split; try lia; try reflexivity.
  repeat constructor; lia.
Qed.

Lemma process_manual_command_inv e command s s' :
  tracking_inv s -> process_manual_command e command s = Some s' ->
  tracking_inv s'.
Proof.
  intros (Hok & Hf & Hr & Hc & Ht) Hrun.
  destruct (process_manual_command_frame e command s)
    as (s'' & Hrun' & (Hb & Hi & Hfl & Htg & _) & Hcur & Hrng).
  rewrite Hrun in Hrun'. injection Hrun' as <-.
  unfold tracking_inv, buffer_ok in *.
  rewrite Hb, Hi, Htg.
  repeat split; try apply Hok; try assumption; try lia.
  destruct (strcmp command "adc_zero"); lia.
Qed.

(** One correction keeps the position between where it was and the
    target. *)
Lemma track_inv now raw_adc adcValue s :
  tracking_inv s -> tracking_inv (track now raw_adc adcValue s).
Proof.
  intros (Hok & Hf & Hr & Hc & Ht).
  destruct (Z.le_gt_cases
              (Z.abs (adc_target_position s - adc_current_position s)) 5)
    as [Hd | Hd].
  - rewrite track_deadzone by assumption. unfold tracking_inv. tauto.
  - destruct (track_correction now raw_adc adcValue s)
      as (Hk & Hle & Hpos & _ & _ & Htg & Hrg & _ & Hb & Hi & _).
    { unfold int32. lia. }
    { unfold int32. lia. }
    { lia. }
    unfold tracking_inv, buffer_ok in *.
    rewrite Hb, Hi, Htg, Hrg, Hpos.
    repeat split; try apply Hok; try assumption; lia.
Qed.

Lemma manual_adc_control_y_inv e s s' :
  tracking_inv s -> adc12 (analogRead e TEMP_BED_PIN) ->
  manual_adc_control_y e s = Some s' -> tracking_inv s'.
Proof.
  intros Hinv Hraw Hrun. pose proof Hinv as (Hok & Hf & Hr & Hc & Ht).
  destruct (adc_control_active s) eqn:Hact.
  2:{ rewrite manual_adc_control_y_inactive in Hrun by assumption. congruence. }
  destruct (Z.lt_ge_cases (wrap_u32 (wrap_u32 (millis e) - last_adc_move s)) 10)
    as [Hg | Hg].
  { rewrite manual_adc_control_y_gated in Hrun by assumption. congruence. }
  assert (Hw : wrap_u16 (analogRead e TEMP_BED_PIN) = analogRead e TEMP_BED_PIN).
  { unfold wrap_u16, adc12 in *. apply Z.mod_small. lia. }
  destruct (manual_adc_control_y_runs adc12 e s)
    as (s1 & v & _ & _ & Hv & Hok1 & Hf1 & Hc1 & Hr1 & _ & _ & Hrun'); auto.
  { unfold adc12. lia. }
  { rewrite Hw. exact Hraw. }
  rewrite Hrun in Hrun'. injection Hrun' as ->.
  apply track_inv.
  destruct (target_of_bounds v s1 Hv ltac:(rewrite Hr1; exact Hr)) as [Hb1 Hb2].
  unfold tracking_inv, buffer_ok. simpl.
  rewrite Hc1, Hr1.
  repeat split; try apply Hok1; try assumption; try lia.
Qed.

(** Every reachable state has a well-formed ring of 12-bit samples, a
    range in (0, 50000] and both positions within 25000 of zero. *)
Lemma reachable_inv s : reachable s -> tracking_inv s.
Proof.
  induction 1 as [| e command s s' _ IH Hrun | e s s' _ IH Hraw Hrun].
  - exact initial_state_inv.
  - exact (process_manual_command_inv e command s s' IH Hrun).
  - exact (manual_adc_control_y_inv e s s' IH Hraw Hrun).
Qed.

(** In a reachable state, with a 12-bit reading, a tick past its gates
    computes an error of at most 50000 in magnitude; outside the
    deadzone it issues [min (|error|, 10)] steps, between 6 and 10, and
    moves the position by as many towards the target. *)
Lemma reachable_rate_limit e s :
  reachable s -> adc12 (analogRead e TEMP_BED_PIN) ->
  adc_control_active s = true ->
  10 <= wrap_u32 (wrap_u32 (millis e) - last_adc_move s) ->
  exists s',
    manual_adc_control_y e s = Some s'
    /\ let err := adc_target_position s' - adc_current_position s in
       Z.abs err <= 50000
       /\ (5 < Z.abs err ->
           exists k,
             k = Z.min (Z.abs err) 10 /\ 6 <= k <= 10
             /\ adc_current_position s'
                = adc_current_position s + Z.sgn err * k
             /\ pulses Y_STEP_PIN (trace s')
                = pulses Y_STEP_PIN (trace s) + k
             /\ Z.abs (adc_target_position s' - adc_current_position s')
                = Z.abs err - k).
Proof.
  intros Hreach Hraw Hact Hgate.
  pose proof (reachable_inv s Hreach) as (Hok & Hf & Hr & Hc & Ht).
  assert (Hw : wrap_u16 (analogRead e TEMP_BED_PIN) = analogRead e TEMP_BED_PIN).
  { unfold wrap_u16, adc12 in *. apply Z.mod_small. lia. }
  destruct (manual_adc_control_y_runs adc12 e s)
    as (s1 & v & _ & _ & Hv & Hok1 & Hf1 & Hc1 & Hr1 & _ & Htr1 & Hrun); auto.
  { unfold adc12. lia. }
  { rewrite Hw. exact Hraw. }
  eexists. split; [exact Hrun |].
  set (s2 := set_target (target_of v s1) s1).
  destruct (target_of_bounds v s1 Hv ltac:(rewrite Hr1; exact Hr)) as [Hb1 Hb2].
  destruct (track_frame (wrap_u32 (millis e))
              (wrap_u16 (analogRead e TEMP_BED_PIN)) v s2) as (Htg & _).
  cbv zeta. rewrite Htg.
  change (adc_target_position s2) with (target_of v s1).
  split; [lia |].
  intros Herr.
  destruct (track_correction (wrap_u32 (millis e))
              (wrap_u16 (analogRead e TEMP_BED_PIN)) v s2)
    as (Hk & Hle & Hpos & Hpul & _).
  { change (adc_current_position s2) with (adc_current_position s1).
    rewrite Hc1. unfold int32. lia. }
  { change (adc_target_position s2) with (target_of v s1). unfold int32. lia. }
  { change (adc_target_position s2) with (target_of v s1).
    change (adc_current_position s2) with (adc_current_position s1).
    rewrite Hc1. lia. }
  change (adc_target_position s2) with (target_of v s1) in *.
  change (adc_current_position s2) with (adc_current_position s1) in *.
  change (trace s2) with (trace s1) in *.
  rewrite Hc1 in *. rewrite Htr1 in *.
  set (err := target_of v s1 - adc_current_position s) in *.
  assert (Hsmall : Z.abs err mod 2 ^ 16 = Z.abs err)
    by (apply Z.mod_small; lia).
  rewrite Hsmall in *.
  exists (Z.min (Z.abs err) 10).
  split; [reflexivity |]. split; [lia |].
  split; [exact Hpos |]. split; [exact Hpul |].
  rewrite Hpos.
  destruct (Z.sgn_spec err) as [[? ->] | [[? ->] | [? ->]]]; lia.
Qed.

(** The state of [far_state], in which the 16-bit step count wraps, is
    not reachable. *)
Lemma far_state_unreachable : ~ reachable far_state.
Proof.
  intros H. apply reachable_inv in H as (_ & _ & _ & Hc & _).
  vm_compute in Hc. apply Hc. reflexivity.
Qed.

(** ** The claims about the tracker *)

(** C9.  While tracking is inactive a tick returns at once and changes
    nothing: the ring, its index and filled flag, both positions, the
    time stamp and the output trace (pin writes and serial text) are
    those of the state before.  No command writes the ring either, so
    samples enter it by active ticks only. *)
Theorem inactive_tick_changes_nothing :
  (forall e s,
     adc_control_active s = false -> manual_adc_control_y e s = Some s)
  /\ (forall e command s,
        exists s',
          process_manual_command e command s = Some s'
          /\ adc_buffer s' = adc_buffer s
          /\ adc_buffer_index s' = adc_buffer_index s
          /\ adc_buffer_filled s' = adc_buffer_filled s).
Proof.
  split.
  - exact manual_adc_control_y_inactive.
  - intros e command s.
    destruct (process_manual_command_frame e command s)
      as (s' & Hrun & (Hb & Hi & Hf & _) & _).
    exists s'. auto.
Qed.

Lemma inactive_tick_changes_nothing_witness :
  manual_adc_control_y (mkEnv 1000 (fun _ => 2048)) initial_state
  = Some initial_state.
Proof.
  apply (proj1 inactive_tick_changes_nothing). reflexivity.
Defined.

(** C6.  In the deadzone, [|target - current| <= 5], the correction
    does nothing at all, for every target and current position; and a
    tick whose target ends within 5 of the current position leaves the
    position and the output trace as they were: no step is issued. *)
Theorem deadzone_tick_issues_no_step :
  (forall now raw_adc adcValue s,
     Z.abs (adc_target_position s - adc_current_position s) <= 5 ->
     track now raw_adc adcValue s = s)
  /\ (forall e s,
        buffer_ok s ->
        exists s',
          manual_adc_control_y e s = Some s'
          /\ (Z.abs (adc_target_position s' - adc_current_position s) <= 5 ->
              adc_current_position s' = adc_current_position s
              /\ trace s' = trace s
              /\ pulses Y_STEP_PIN (trace s') = pulses Y_STEP_PIN (trace s))).
Proof.
  split; [exact track_deadzone |].
  intros e s Hok.
  destruct (adc_control_active s) eqn:Hact.
  2:{ exists s. rewrite manual_adc_control_y_inactive by assumption. auto. }
  destruct (Z.lt_ge_cases (wrap_u32 (wrap_u32 (millis e) - last_adc_move s)) 10)
    as [Hg | Hg].
  { exists s. rewrite manual_adc_control_y_gated by assumption. auto. }
  destruct (manual_adc_control_y_runs (fun _ => True) e s)
    as (s1 & v & _ & _ & _ & _ & _ & Hc & _ & _ & Htr & ->); auto.
  { apply Forall_forall. trivial. }
  eexists. split; [reflexivity |].
  set (s2 := set_target (target_of v s1) s1).
  destruct (track_frame (wrap_u32 (millis e))
              (wrap_u16 (analogRead e TEMP_BED_PIN)) v s2) as (Ht & _).
  rewrite Ht. intros Hd.
  rewrite track_deadzone.
  - change (adc_current_position s2) with (adc_current_position s1).
    change (trace s2) with (trace s1). rewrite Hc, Htr. auto.
  - change (adc_current_position s2) with (adc_current_position s1).
    rewrite Hc. exact Hd.
Qed.

Lemma deadzone_tick_issues_no_step_witness :
  track 1000 2048 2048 initial_state = initial_state.
Proof.
  apply (proj1 deadzone_tick_issues_no_step). vm_compute. discriminate.
Defined.

(** Outside the states the firmware reaches the step count can wrap:
    with [target - current = 65536] the tick stamps the move but
    issues no step, because the count is
    [(uint16_t)abs(position_error)], which is 0 for 65536.  The state
    is not reachable ([far_state_unreachable]). *)
Lemma far_state_issues_no_step :
  exists s',
    manual_adc_control_y (mkEnv 1000 (fun _ => 2048)) far_state = Some s'
    /\ adc_target_position s' = 0
    /\ adc_current_position far_state = - 65536
    /\ 5 < Z.abs (adc_target_position s' - adc_current_position far_state)
    /\ adc_current_position s' = adc_current_position far_state
    /\ pulses Y_STEP_PIN (trace s') = pulses Y_STEP_PIN (trace far_state)
    /\ last_adc_move s' = 1000.
Proof.
  eexists. split; [vm_compute; reflexivity |].
  vm_compute. repeat split; congruence.
Qed.

(** One correction for positions within the 25000 steps of zero that
    the firmware keeps them in: the error is below 65536, so the 16-bit
    step count is [min (|error|, 10)]. *)
Lemma track_rate_limit now raw_adc adcValue s :
  Z.abs (adc_current_position s) <= 25000 ->
  Z.abs (adc_target_position s) <= 25000 ->
  let err := adc_target_position s - adc_current_position s in
  5 < Z.abs err ->
  let s' := track now raw_adc adcValue s in
  exists k,
    k = Z.min (Z.abs err) 10 /\ 1 <= k <= 10
    /\ adc_current_position s' = adc_current_position s + Z.sgn err * k
    /\ pulses Y_STEP_PIN (trace s') = pulses Y_STEP_PIN (trace s) + k
    /\ Z.abs (adc_target_position s' - adc_current_position s')
       = Z.abs err - k.
Proof.
  intros Hc Ht err Herr s'.
  destruct (track_correction now raw_adc adcValue s)
    as (_ & _ & Hpos & Hpul & _ & Htgt & _).
  { unfold int32. lia. }
  { unfold int32. lia. }
  { fold err. lia. }
  fold err in Hpos, Hpul. fold s' in Hpos, Hpul, Htgt.
  assert (Hsmall : Z.abs err mod 2 ^ 16 = Z.abs err)
    by (apply Z.mod_small; unfold err; lia).
  rewrite Hsmall in Hpos, Hpul.
  exists (Z.min (Z.abs err) 10).
  split; [reflexivity |]. split; [lia |].
  split; [exact Hpos |]. split; [exact Hpul |].
  rewrite Htgt, Hpos. fold err.
  destruct (Z.sgn_spec err) as [[? ->] | [[? ->] | [? ->]]]; lia.
Qed.

(** C5.  In every state the firmware reaches, a tick past its two
    gates whose target, computed from a 12-bit reading, lies more than
    5 steps from the current position changes the current position by
    [k = min (|target - current|, 10)] steps, at least 1 and at most
    10, in the direction that reduces the error [target - current]:
    the error shrinks by [k], and [k] step pulses are issued.  The
    same holds of one correction for all target and current positions
    within 25000 steps of zero, where the firmware keeps them. *)
Theorem rate_limited_correction :
  (forall e s,
     reachable s -> adc12 (analogRead e TEMP_BED_PIN) ->
     adc_control_active s = true ->
     10 <= wrap_u32 (wrap_u32 (millis e) - last_adc_move s) ->
     exists s',
       manual_adc_control_y e s = Some s'
       /\ let err := adc_target_position s' - adc_current_position s in
          (5 < Z.abs err ->
           exists k,
             k = Z.min (Z.abs err) 10 /\ 1 <= k <= 10
             /\ adc_current_position s'
                = adc_current_position s + Z.sgn err * k
             /\ pulses Y_STEP_PIN (trace s')
                = pulses Y_STEP_PIN (trace s) + k
             /\ Z.abs (adc_target_position s' - adc_current_position s')
                = Z.abs err - k))
  /\ (forall now raw_adc adcValue s,
        Z.abs (adc_current_position s) <= 25000 ->
        Z.abs (adc_target_position s) <= 25000 ->
        let err := adc_target_position s - adc_current_position s in
        5 < Z.abs err ->
        let s' := track now raw_adc adcValue s in
        exists k,
          k = Z.min (Z.abs err) 10 /\ 1 <= k <= 10
          /\ adc_current_position s'
             = adc_current_position s + Z.sgn err * k
          /\ pulses Y_STEP_PIN (trace s')
             = pulses Y_STEP_PIN (trace s) + k
          /\ Z.abs (adc_target_position s' - adc_current_position s')
             = Z.abs err - k).
Proof.
  split.
  - intros e s Hreach Hraw Hact Hgate.
    destruct (reachable_rate_limit e s Hreach Hraw Hact Hgate)
      as (s' & Hrun & Hlim).
    exists s'. split; [exact Hrun |].
    cbv zeta in Hlim |- *. destruct Hlim as [_ Hlim].
    intros Herr.
    destruct (Hlim Herr) as (k & Hk & Hrange & Hpos & Hpul & Hshrink).
    exists k. split; [exact Hk |]. split; [lia |]. auto.
  - exact track_rate_limit.
Qed.

Lemma rate_limited_correction_witness :
  exists s',
    manual_adc_control_y (mkEnv 1000 (fun _ => 4095)) (adc_on initial_state)
    = Some s'
    /\ adc_target_position s' = 3200
    /\ adc_current_position s' = 10
    /\ pulses Y_STEP_PIN (trace s') = 10.
Proof.
  destruct (proj1 rate_limited_correction
              (mkEnv 1000 (fun _ => 4095)) (adc_on initial_state))
    as (s' & Hrun & Hlim).
  - apply (reachable_command (mkEnv 0 (fun _ => 0)) "adc_on" initial_state);
      [apply reachable_init | reflexivity].
  - unfold adc12. cbn. lia.
  - reflexivity.
  - vm_compute. discriminate.
  - exists s'. split; [exact Hrun |].
    vm_compute in Hrun. injection Hrun as <-.
    cbv zeta in Hlim.
    destruct Hlim as (k & Hk & _ & Hpos & Hpul & _);
      [vm_compute; reflexivity |].
    split; [reflexivity |].
    split; [rewrite Hpos, Hk | rewrite Hpul, Hk]; reflexivity.
Defined.

(** C8.  When a tick computes the median, the push has already been
    done, so the number of valid samples is between 1 and 8:
    [samples_to_use - 1] is not negative, every compare-and-swap of the
    sort, at [j] and [j + 1] for [i < samples_to_use - 1] and
    [j < samples_to_use - i - 1], lies within the 8 cells of the scratch
    array, as does the median index [samples_to_use / 2]; the copy, the
    sort and the median read are all defined, and so is the tick. *)
Theorem median_indices_within_scratch_buffer e s :
  buffer_ok s ->
  adc_control_active s = true ->
  10 <= wrap_u32 (wrap_u32 (millis e) - last_adc_move s) ->
  exists s1 sorted0 sorted adcValue,
    push_sample (wrap_u16 (analogRead e TEMP_BED_PIN)) s = Some s1
    /\ 1 <= samples_to_use s1 <= 8
    /\ 0 <= samples_to_use s1 - 1
    /\ copy_samples s1 = Some sorted0
    /\ length sorted0 = 8%nat
    /\ (forall i j (a : list Z),
          length a = 8%nat ->
          0 <= i < samples_to_use s1 - 1 ->
          0 <= j < samples_to_use s1 - i - 1 ->
          j + 1 <= samples_to_use s1 - 1
          /\ is_Some (swap_if_greater j a))
    /\ bubble_sort (samples_to_use s1) sorted0 = Some sorted
    /\ length sorted = 8%nat
    /\ 0 <= samples_to_use s1 ÷ 2 < samples_to_use s1
    /\ array_get sorted (samples_to_use s1 ÷ 2) = Some adcValue
    /\ manual_adc_control_y e s
       = Some (track (wrap_u32 (millis e))
                 (wrap_u16 (analogRead e TEMP_BED_PIN)) adcValue
                 (set_target (target_of adcValue s1) s1)).
Proof.
  intros Hok Hact Hgate.
  assert (Hall : forall l : list Z, Forall (fun _ => True) l)
    by (intros l; apply Forall_forall; trivial).
  destruct (push_sample_defined (fun _ => True) (wrap_u16 (analogRead e TEMP_BED_PIN))
              s Hok (Hall _) I)
    as (s1 & Hpush & Hok1 & _ & Hn & _).
  destruct (filtered_value_defined (fun _ => True) s1)
    as (a0 & a1 & v & Hcopy & Hsort & Hlen & Hget & Hv & _).
  { split; [apply Hok1 | apply Hall]. }
  { exact I. }
  { exact Hn. }
  destruct (copy_samples_array (fun _ => True) s1) as (a0' & Hcopy' & Hlen0 & _).
  { split; [apply Hok1 | apply Hall]. }
  { exact I. }
  { lia. }
  rewrite Hcopy in Hcopy'. injection Hcopy' as <-.
  unfold ADC_SAMPLES in *.
  exists s1, a0, a1, v.
  split; [exact Hpush |]. split; [exact Hn |]. split; [lia |].
  split; [exact Hcopy |]. split; [exact Hlen0 |].
  split.
  { intros i j a Ha Hi Hj. split; [lia |].
    apply swap_if_greater_defined. rewrite Ha. lia. }
  split; [exact Hsort |]. split; [exact Hlen |].
  split.
  { pose proof (Z.quot_pos (samples_to_use s1) 2 ltac:(lia) ltac:(lia)).
    pose proof (Z.quot_lt (samples_to_use s1) 2 ltac:(lia) ltac:(lia)). lia. }
  split; [exact Hget |].
  unfold manual_adc_control_y. rewrite Hact. cbn [negb].
  destruct (Z.ltb_spec (wrap_u32 (wrap_u32 (millis e) - last_adc_move s)) 10);
    [lia |].
  rewrite Hpush. cbn [mbind option_bind]. rewrite Hv. reflexivity.
Qed.

Lemma median_indices_within_scratch_buffer_witness :
  exists s1 adcValue,
    push_sample 2048 (set_active true initial_state) = Some s1
    /\ samples_to_use s1 = 1
    /\ filtered_value s1 = Some adcValue.
Proof.
  destruct (median_indices_within_scratch_buffer
              (mkEnv 1000 (fun _ => 2048)) (set_active true initial_state))
    as (s1 & a0 & a1 & v & Hpush & _ & _ & Hcopy & _ & _ & Hsort & _ & _ & Hget & _).
  - vm_compute. repeat split; congruence.
  - reflexivity.
  - vm_compute. discriminate.
  - exists s1, v. split; [exact Hpush |].
    assert (Hs1 : samples_to_use s1 = 1).
    { vm_compute in Hpush. injection Hpush as <-. reflexivity. }
    split; [exact Hs1 |].
    unfold filtered_value. rewrite Hcopy. cbn [mbind option_bind].
    rewrite Hsort. exact Hget.
Defined.

(** C2, as stated, fails: after the eight pushes the filtered value is
    not 40. *)
Lemma median_of_eight_is_not_40 :
  push_all [10; 90; 20; 80; 30; 70; 40; 60] initial_state ≫= filtered_value
  <> Some 40.
Proof. vm_compute. discriminate. Qed.

(** C2, amended.  After the eight pushes of 10, 90, 20, 80, 30, 70, 40,
    60 all eight samples are valid, the sorted window is 10, 20, 30, 40,
    60, 70, 80, 90 and the filtered value is its element at index
    [8 / 2 = 4], which is 60: the upper of the two middle elements.
    Eight ticks fed with these readings, with tracking on, leave the
    target that 60 maps to. *)
Theorem median_of_eight_is_60 :
  (push_all [10; 90; 20; 80; 30; 70; 40; 60] initial_state
     ≫= (fun s => Some (samples_to_use s))) = Some 8
  /\ (push_all [10; 90; 20; 80; 30; 70; 40; 60] initial_state
        ≫= (fun s => copy_samples s ≫= bubble_sort (samples_to_use s)))
     = Some [10; 20; 30; 40; 60; 70; 80; 90]
  /\ array_get [10; 20; 30; 40; 60; 70; 80; 90] (8 ÷ 2) = Some 60
  /\ push_all [10; 90; 20; 80; 30; 70; 40; 60] initial_state ≫= filtered_value
     = Some 60
  /\ (ticks (List.map (fun p => mkEnv (fst p) (fun _ => snd p))
               [(100, 10); (200, 90); (300, 20); (400, 80);
                (500, 30); (600, 70); (700, 40); (800, 60)])
        (set_active true initial_state)
        ≫= (fun s => Some (adc_target_position s)))
     = Some (target_of 60 initial_state).
Proof. repeat split; vm_compute; reflexivity. Qed.



(** C1, as stated, fails: ["adc_zero"], processed while tracking is
    inactive, writes the current position. *)
Lemma adc_zero_writes_position_while_inactive :
  exists s s',
    parked_state = Some s
    /\ adc_control_active s = false
    /\ adc_current_position s = 10
    /\ process_manual_command (mkEnv 2000 (fun _ => 0)) "adc_zero" s = Some s'
    /\ adc_current_position s' = 0.
Proof.
  eexists. eexists. split; [vm_compute; reflexivity |].
  repeat split.
Qed.

(** C1, amended.  The current position is written by two operations
    only.  The command [adc_zero] sets it to 0, whether tracking is
    active or not; every other command leaves it as it was, the jog
    commands included.  A tick changes it only while tracking is active
    and only together with step pulses on the Y axis; while tracking is
    inactive a tick changes nothing. *)
Theorem current_position_writers :
  (forall e command s,
     exists s',
       process_manual_command e command s = Some s'
       /\ (if strcmp command "adc_zero"
           then adc_current_position s' = 0
           else adc_current_position s' = adc_current_position s))
  /\ (forall e s,
        adc_control_active s = false -> manual_adc_control_y e s = Some s)
  /\ (forall e s s',
        manual_adc_control_y e s = Some s' ->
        adc_current_position s' <> adc_current_position s ->
        adc_control_active s = true
        /\ pulses Y_STEP_PIN (trace s) < pulses Y_STEP_PIN (trace s')).
Proof.
  split; [| split].
  - intros e command s.
    destruct (process_manual_command_frame e command s) as (s' & Hrun & _ & Hc & _).
    exists s'. auto.
  - exact manual_adc_control_y_inactive.
  - exact manual_adc_control_y_moves.
Qed.

Lemma current_position_writers_witness :
  manual_adc_control_y (mkEnv 1000 (fun _ => 4095)) initial_state
  = Some initial_state.
Proof.
  apply (proj1 (proj2 current_position_writers)). reflexivity.
Defined.
(** * Further properties *)

(** ** Traces *)

Lemma last_write_app p t1 t2 :
  last_write p (t1 ++ t2)
  = match last_write p t2 with
    | Some l => Some l
    | None => last_write p t1
    end.
Proof.
  induction t1 as [| ev t1 IH]; simpl.
  - destruct (last_write p t2); reflexivity.
  - destruct ev; rewrite ?IH; try reflexivity.
    destruct (last_write p t2); reflexivity.
Qed.

Lemma delay_total_app t1 t2 :
  delay_total (t1 ++ t2) = delay_total t1 + delay_total t2.
Proof.
  induction t1 as [| ev t1 IH]; simpl; [reflexivity |].
  destruct ev; rewrite ?IH; lia.
Qed.

Lemma refreshes_app t1 t2 : refreshes (t1 ++ t2) = refreshes t1 + refreshes t2.
Proof.
  induction t1 as [| ev t1 IH]; simpl; [reflexivity |].
  destruct ev; rewrite ?IH; lia.
Qed.

Lemma serial_outputs_app t1 t2 :
  serial_outputs (t1 ++ t2) = serial_outputs t1 + serial_outputs t2.
Proof.
  induction t1 as [| ev t1 IH]; simpl; [reflexivity |].
  destruct ev; rewrite ?IH; lia.
Qed.

(** ** A manual move, event by event *)

Lemma move_loop_trace step_pin n from s :
  let body := fun i s =>
    let s := emit [WRITE step_pin HIGH; DELAY_US 500;
                   WRITE step_pin LOW; DELAY_US 1500] s in
    if Z.rem i 10 =? 0 then emit [watchdog_refresh] s else s in
  trace (iterate n from body s) = trace s ++ move_pulses step_pin n from.
Proof.
  cbv zeta. revert from s. induction n as [| n IH]; intros from s; simpl.
  - rewrite app_nil_r. reflexivity.
  - rewrite IH. unfold move_pulse.
    destruct (Z.rem from 10 =? 0); simpl; rewrite <- ?app_assoc; reflexivity.
Qed.

(** The trace of a move: enable, direction, settle, announcement, the
    pulses, completion. *)
Lemma manual_move_axis_trace step_pin dir_pin direction steps s :
  trace (manual_move_axis step_pin dir_pin direction steps s)
  = trace s
    ++ [WRITE X_ENABLE_PIN LOW; WRITE dir_pin (level_of direction);
        DELAY_US 10; SERIAL_ECHO (Text "Moving "); SERIAL_ECHO (Int steps);
        SERIAL_ECHOLNPGM (if direction then " steps forward"
                          else " steps backward")]
    ++ move_pulses step_pin (Z.to_nat steps) 0
    ++ [SERIAL_ECHOLNPGM "Move complete"].
Proof.
  unfold manual_move_axis, for_lt. cbv zeta.
  change (trace (emit ?es ?x)) with (trace x ++ es).
  rewrite move_loop_trace. simpl. rewrite <- !app_assoc. reflexivity.
Qed.

Lemma move_pulses_counts step_pin n from :
  0 <= from ->
  pulses step_pin (move_pulses step_pin n from) = Z.of_nat n
  /\ delay_total (move_pulses step_pin n from) = 2000 * Z.of_nat n
  /\ refreshes (move_pulses step_pin n from)
     = (from + Z.of_nat n + 9) / 10 - (from + 9) / 10
  /\ serial_outputs (move_pulses step_pin n from) = 0
  /\ (forall p, p <> step_pin -> pulses p (move_pulses step_pin n from) = 0)
  /\ last_write X_ENABLE_PIN (move_pulses step_pin n from)
     = (if bool_decide (X_ENABLE_PIN = step_pin)
        then (match n with O => None | S _ => Some LOW end) else None).
Proof.
  revert from. induction n as [| n IH]; intros from Hfrom.
  - simpl. repeat split; try lia.
    + rewrite Z.add_0_r, Z.sub_diag. reflexivity.
    + destruct (bool_decide _); reflexivity.
  - cbn [move_pulses]. unfold move_pulse.
    destruct (IH (from + 1) ltac:(lia)) as (Hp & Hd & Hr & Hs & Ho & Hl).
    rewrite !pulses_app, !delay_total_app, !refreshes_app,
      !serial_outputs_app, !last_write_app, Hp, Hd, Hr, Hs, Hl.
    assert (Hrem : Z.rem from 10 = from mod 10)
      by (apply Z.rem_mod_nonneg; lia).
    rewrite Hrem.
    split; [| split; [| split; [| split; [| split]]]].
    + simpl. rewrite bool_decide_eq_true_2 by reflexivity.
      destruct (from mod 10 =? 0); simpl; lia.
    + destruct (from mod 10 =? 0); simpl; lia.
    + destruct (Z.eqb_spec (from mod 10) 0) as [E | E]; simpl;
        Z.to_euclidean_division_equations; lia.
    + destruct (from mod 10 =? 0); simpl; lia.
    + intros p Hne. rewrite !pulses_app, (Ho p Hne). simpl.
      rewrite bool_decide_eq_false_2 by exact Hne.
      destruct (from mod 10 =? 0); simpl; lia.
    + simpl. destruct (bool_decide (X_ENABLE_PIN = step_pin)) eqn:E;
        destruct n; destruct (from mod 10 =? 0); simpl; rewrite ?E; reflexivity.
Qed.

Lemma move_pulses_other_pin p step_pin n from :
  p <> step_pin -> last_write p (move_pulses step_pin n from) = None.
Proof.
  intros Hne. revert from. induction n as [| n IH]; intros from;
    [reflexivity |].
  cbn [move_pulses]. unfold move_pulse.
  rewrite !last_write_app, IH. simpl.
  rewrite bool_decide_eq_false_2 by exact Hne.
  destruct (Z.rem from 10 =? 0); reflexivity.
Qed.

(** The effect of a move on the pins, the clock and the watchdog. *)
Lemma manual_move_axis_counts step_pin dir_pin direction steps s :
  0 <= steps -> step_pin <> dir_pin ->
  step_pin <> X_ENABLE_PIN -> dir_pin <> X_ENABLE_PIN ->
  let s' := manual_move_axis step_pin dir_pin direction steps s in
  pulses step_pin (trace s') = pulses step_pin (trace s) + steps
  /\ (forall p, p <> step_pin -> p <> dir_pin ->
                pulses p (trace s') = pulses p (trace s))
  /\ delay_total (trace s') = delay_total (trace s) + 10 + 2000 * steps
  /\ refreshes (trace s') = refreshes (trace s) + (steps + 9) / 10
  /\ last_write X_ENABLE_PIN (trace s') = Some LOW
  /\ last_write dir_pin (trace s') = Some (level_of direction).
Proof.
  intros Hs Hsd Hse Hde. cbv zeta.
  rewrite manual_move_axis_trace.
  destruct (move_pulses_counts step_pin (Z.to_nat steps) 0 ltac:(lia))
    as (Hp & Hd & Hr & _ & Ho & Hl).
  rewrite Z2Nat.id in Hp, Hd, Hr by lia.
  rewrite bool_decide_eq_false_2 in Hl by congruence.
  pose proof (move_pulses_other_pin dir_pin step_pin (Z.to_nat steps) 0
                ltac:(congruence)) as Hdl.
  rewrite !pulses_app, !delay_total_app, !refreshes_app, !last_write_app.
  rewrite Hp, Hd, Hr, Hl, Hdl. simpl.
  rewrite (bool_decide_eq_false_2 (X_ENABLE_PIN = dir_pin)) by congruence.
  rewrite (bool_decide_eq_false_2 (step_pin = dir_pin)) by assumption.
  rewrite (bool_decide_eq_true_2 (dir_pin = dir_pin)) by reflexivity.
  change ((0 + 9) / 10) with 0.
  replace (0 + steps + 9) with (steps + 9) by lia.
  split; [destruct direction; simpl; lia |].
  split; [| repeat split; lia].
  intros p Hps Hpd. rewrite !pulses_app. simpl.
  rewrite !pulses_app, (Ho p Hps). simpl.
  rewrite (bool_decide_eq_false_2 (p = dir_pin)) by assumption.
  destruct direction; simpl; lia.
Qed.

(** ** What [parse_steps] can return *)

Lemma parse_steps_range command d steps :
  parse_steps command d = Some steps -> steps = d \/ 1 <= steps <= 10000.
Proof.
  unfold parse_steps. intros H.
  apply bind_Some in H as (numStart & _ & H).
  destruct (is_nul (deref numStart)); [left; congruence |].
  injection H as <-.
  destruct (_ && _) eqn:E; [right | left; reflexivity].
  apply andb_prop in E as [E1 E2].
  apply Z.ltb_lt in E1. apply Z.leb_le in E2. lia.
Qed.

(** ** The interpreter, command by command *)

Lemma no_pin_write_report adcValue : no_pin_write (report_resistance adcValue).
Proof.
  unfold no_pin_write, report_resistance. cbv zeta.
  apply Forall_app. split; [repeat constructor |].
  repeat match goal with
         | |- context [if ?b then _ else _] => destruct b
         end; repeat constructor.
Qed.

Lemma jog_effect step_pin dir_pin direction command lit d s :
  String.length (c_str lit) = 2%nat ->
  strncmp command lit 2 = true ->
  exists steps,
    parse_steps command d = Some steps
    /\ (steps = d \/ 1 <= steps <= 10000)
    /\ jog step_pin dir_pin direction command d s
       = Some (manual_move_axis step_pin dir_pin direction steps s).
Proof.
  intros Hlen Heq.
  destruct (strncmp_ptr_add command lit 2 Hlen Heq) as [numStart Hp].
  assert (Hsome : is_Some (parse_steps command d)).
  { unfold parse_steps. rewrite Hp. simpl.
    destruct (is_nul (deref numStart)); eauto. }
  destruct Hsome as [steps Hsteps].
  exists steps. split; [exact Hsteps |].
  split; [exact (parse_steps_range _ _ _ Hsteps) |].
  unfold jog. rewrite Hsteps. reflexivity.
Qed.

Lemma strcmp_other command lit lit' :
  strcmp command lit = true ->
  String.eqb (c_str lit) (c_str lit') = false ->
  strcmp command lit' = false.
Proof.
  intros H Hne. apply strcmp_eq in H. unfold strcmp. rewrite H. exact Hne.
Qed.

Lemma strcmp_not_prefix command lit lit' n :
  strcmp command lit = true ->
  String.eqb (take_chars n (c_str lit)) (take_chars n (c_str lit')) = false ->
  strncmp command lit' n = false.
Proof.
  intros H Hne. apply strcmp_eq in H. unfold strncmp. rewrite H. exact Hne.
Qed.

(** Every command returns, appends to the trace and has one of the
    five effects. *)
Lemma process_manual_command_effect e command s :
  exists s' es,
    process_manual_command e command s = Some s'
    /\ trace s' = trace s ++ es
    /\ command_effect command s s' es.
Proof.
  unfold process_manual_command.
  destruct (strcmp command "h") eqn:Eh.
  { eexists. eexists. split; [reflexivity |]. split; [reflexivity |].
    apply effect_quiet.
    - constructor; [exact I | apply no_pin_write_report].
    - intros ? ? ? ? ? Hin. unfold jog_table in Hin. simpl in Hin.
      repeat (destruct Hin as [Hin | Hin];
              [ injection Hin as <- <- <- <- <-;
                apply (strcmp_not_prefix command "h" _ 2 Eh); reflexivity |]).
      destruct Hin.
    - exact (strcmp_other command "h" "on" Eh eq_refl).
    - exact (strcmp_other command "h" "off" Eh eq_refl).
    - exact (strcmp_other command "h" "adc_on" Eh eq_refl).
    - rewrite (strcmp_other command "h" "adc_off" Eh eq_refl). reflexivity. }
  destruct (strcmp command "b") eqn:Eb.
  { eexists. eexists. split; [reflexivity |]. split; [reflexivity |].
    apply effect_quiet.
    - constructor; [exact I | apply no_pin_write_report].
    - intros ? ? ? ? ? Hin. unfold jog_table in Hin. simpl in Hin.
      repeat (destruct Hin as [Hin | Hin];
              [ injection Hin as <- <- <- <- <-;
                apply (strcmp_not_prefix command "b" _ 2 Eb); reflexivity |]).
      destruct Hin.
    - exact (strcmp_other command "b" "on" Eb eq_refl).
    - exact (strcmp_other command "b" "off" Eb eq_refl).
    - exact (strcmp_other command "b" "adc_on" Eb eq_refl).
    - rewrite (strcmp_other command "b" "adc_off" Eb eq_refl). reflexivity. }
  repeat
    match goal with
    | |- exists _ _, (if strncmp _ "adc_range" _ then _ else _) = _ /\ _ =>
        fail 1
    | |- exists _ _, (if strncmp command ?lit 2 then _ else _) = _ /\ _ =>
        destruct (strncmp command lit 2) eqn:?;
        [ match goal with
          | H : strncmp command lit 2 = true
            |- exists _ _, jog ?sp ?dp ?dir _ ?d _ = _ /\ _ =>
              destruct (jog_effect sp dp dir command lit d s eq_refl H)
                as (steps & Hparse & Hrange & ->);
              eexists; eexists; split; [reflexivity |];
              split; [apply manual_move_axis_trace |];
              apply (effect_jog command s _ _ lit sp dp dir d steps);
              [ unfold jog_table; simpl; tauto
              | assumption | assumption | assumption | reflexivity ]
          end |]
    end.
  assert (Hnot : not_jog command).
  { intros ? ? ? ? ? Hin. unfold jog_table in Hin. simpl in Hin.
    repeat (destruct Hin as [Hin | Hin];
            [injection Hin as <- <- <- <- <-; assumption |]).
    destruct Hin. }
  destruct (strcmp command "on") eqn:Eon.
  { eexists. eexists. split; [reflexivity |]. split; [reflexivity |].
    apply effect_on; [assumption | reflexivity]. }
  destruct (strcmp command "off") eqn:Eoff.
  { eexists. eexists. split; [reflexivity |]. split; [reflexivity |].
    apply effect_off; [assumption | reflexivity]. }
  destruct (strcmp command "adc_on") eqn:Eadc_on.
  { eexists. eexists. split; [reflexivity |].
    split; [unfold adc_on, manual_enable_steppers; simpl;
            rewrite <- app_assoc; reflexivity |].
    apply effect_adc_on; [assumption | reflexivity]. }
  destruct (strcmp command "adc_off") eqn:Eadc_off.
  { eexists. eexists. split; [reflexivity |]. split; [reflexivity |].
    apply effect_quiet;
      [repeat constructor | exact Hnot | assumption ..
      | rewrite Eadc_off; reflexivity]. }
  destruct (strcmp command "adc_zero") eqn:Ezero.
  { eexists. eexists. split; [reflexivity |]. split; [reflexivity |].
    apply effect_quiet;
      [repeat constructor | exact Hnot | assumption ..
      | rewrite Eadc_off; reflexivity]. }
  destruct (strncmp command "adc_range" 9) eqn:Erange.
  { destruct (strncmp_ptr_add command "adc_range" 9 eq_refl Erange)
      as [numStart Hp].
    unfold adc_set_range. rewrite Hp. simpl.
    destruct (is_nul (deref numStart)); simpl.
    - eexists. eexists. split; [reflexivity |]. split; [reflexivity |].
      apply effect_quiet;
      [repeat constructor | exact Hnot | assumption ..
      | rewrite Eadc_off; reflexivity].
    - destruct (_ && _).
      + eexists. eexists. split; [reflexivity |]. split; [reflexivity |].
        apply effect_quiet;
          [repeat constructor | exact Hnot | assumption ..
      | rewrite Eadc_off; reflexivity].
      + exists s, []. split; [reflexivity |].
        split; [rewrite app_nil_r; reflexivity |].
        apply effect_quiet;
      [constructor | exact Hnot | assumption ..
      | rewrite Eadc_off; reflexivity]. }
  destruct (strcmp command "help") eqn:Ehelp.
  { eexists. eexists. split; [reflexivity |]. split; [reflexivity |].
    apply effect_quiet;
      [repeat constructor | exact Hnot | assumption ..
      | rewrite Eadc_off; reflexivity]. }
  destruct (0 <? strlen command).
  { eexists. eexists. split; [reflexivity |]. split; [reflexivity |].
    apply effect_quiet;
      [repeat constructor | exact Hnot | assumption ..
      | rewrite Eadc_off; reflexivity]. }
  exists s, []. split; [reflexivity |].
  split; [rewrite app_nil_r; reflexivity |].
  apply effect_quiet;
      [constructor | exact Hnot | assumption ..
      | rewrite Eadc_off; reflexivity].
Qed.

Lemma strncmp_other command lit lit' n :
  strncmp command lit n = true ->
  String.eqb (take_chars n (c_str lit)) (take_chars n (c_str lit')) = false ->
  strncmp command lit' n = false /\ strcmp command lit' = false.
Proof.
  intros H Hne. apply strncmp_eq in H. split.
  - unfold strncmp. rewrite H. exact Hne.
  - destruct (strcmp command lit') eqn:E; [| reflexivity].
    apply strcmp_eq in E. rewrite E in H. rewrite H in Hne.
    rewrite String.eqb_refl in Hne. discriminate.
Qed.


Lemma no_pin_write_last p es : no_pin_write es -> last_write p es = None.
Proof.
  induction 1 as [| ev es Hev _ IH]; simpl; [reflexivity |].
  destruct ev; try exact IH. destruct Hev.
Qed.

Lemma no_pin_write_pulses p es : no_pin_write es -> pulses p es = 0.
Proof.
  induction 1 as [| ev es Hev _ IH]; simpl; [reflexivity |].
  destruct ev; try exact IH. destruct Hev.
Qed.

Lemma jog_table_pins prefix step_pin dir_pin direction d :
  In (prefix, step_pin, dir_pin, direction, d) jog_table ->
  step_pin <> dir_pin /\ step_pin <> X_ENABLE_PIN /\ dir_pin <> X_ENABLE_PIN
  /\ String.length (c_str prefix) = 2%nat
  /\ strcmp prefix "adc_on" = false /\ strcmp prefix "adc_off" = false
  /\ String.eqb (take_chars 2 (c_str prefix)) "ad" = false
  /\ String.eqb (take_chars 2 (c_str prefix)) "of" = false
  /\ String.eqb "on" (take_chars 2 (c_str prefix)) = false
  /\ String.eqb "of" (take_chars 2 (c_str prefix)) = false
  /\ String.eqb "ad" (take_chars 2 (c_str prefix)) = false
  /\ 0 < d <= 10000.
Proof.
  unfold jog_table. simpl.
  intros H.
  repeat (destruct H as [H | H];
          [ injection H as <- <- <- <- <-;
            repeat split; try discriminate; try reflexivity; lia |]).
  destruct H.
Qed.

Lemma jog_table_functional p1 sp1 dp1 dir1 d1 p2 sp2 dp2 dir2 d2 :
  In (p1, sp1, dp1, dir1, d1) jog_table ->
  In (p2, sp2, dp2, dir2, d2) jog_table ->
  take_chars 2 (c_str p1) = take_chars 2 (c_str p2) ->
  (p1, sp1, dp1, dir1, d1) = (p2, sp2, dp2, dir2, d2).
Proof.
  unfold jog_table. simpl. intros H1 H2.
  repeat (destruct H1 as [H1 | H1];
          [ injection H1 as <- <- <- <- <-;
            repeat (destruct H2 as [H2 | H2];
                    [ injection H2 as <- <- <- <- <-;
                      simpl; intros E; (reflexivity || discriminate E) |]);
            destruct H2 |]).
  destruct H1.
Qed.

(** A command with a jog prefix is dispatched to the move of its axis. *)
Lemma jog_dispatch prefix step_pin dir_pin direction d e command s :
  In (prefix, step_pin, dir_pin, direction, d) jog_table ->
  strncmp command prefix 2 = true ->
  exists steps,
    parse_steps command d = Some steps
    /\ (steps = d \/ 1 <= steps <= 10000)
    /\ process_manual_command e command s
       = Some (manual_move_axis step_pin dir_pin direction steps s).
Proof.
  intros Hin Hpre.
  destruct (jog_table_pins _ _ _ _ _ Hin)
    as (_ & _ & _ & _ & _ & _ & _ & _ & Hon & Hof & Had & _).
  destruct (process_manual_command_effect e command s)
    as (s' & es & Hrun & _ & Heff).
  destruct Heff as [_ Hnot _ _ _ _ | Hc _ | Hc _ | Hc _
                   | prefix' sp' dp' dir' d' steps Hin' Hpre' Hparse Hrange ->].
  - rewrite (Hnot _ _ _ _ _ Hin) in Hpre. discriminate.
  - rewrite (strcmp_not_prefix command "on" prefix 2 Hc Hon) in Hpre.
    discriminate.
  - rewrite (strcmp_not_prefix command "off" prefix 2 Hc Hof) in Hpre.
    discriminate.
  - rewrite (strcmp_not_prefix command "adc_on" prefix 2 Hc Had) in Hpre.
    discriminate.
  - apply strncmp_eq in Hpre, Hpre'.
    assert (E : (prefix', sp', dp', dir', d')
                = (prefix, step_pin, dir_pin, direction, d)).
    { apply jog_table_functional; [assumption | assumption |].
      destruct (jog_table_pins _ _ _ _ _ Hin) as (_ & _ & _ & L & _).
      destruct (jog_table_pins _ _ _ _ _ Hin') as (_ & _ & _ & L' & _).
      congruence. }
    injection E as -> -> -> -> ->.
    exists steps. auto.
Qed.

(** ** Jogging *)

(** X1.  For a command with its two-character prefix [parse_steps]
    returns either the default it was given or a count between 1 and
    10000: no suffix makes it return 0 or more than 10000 steps. *)
Theorem parse_steps_result_range c1 c2 rest d :
  is_nul c1 = false -> is_nul c2 = false ->
  exists steps,
    parse_steps (String c1 (String c2 rest)) d = Some steps
    /\ (steps = d \/ 1 <= steps <= 10000).
Proof.
  intros H1 H2. rewrite (parse_steps_value c1 c2 rest d H1 H2).
  eexists. split; [reflexivity |]. cbv zeta.
  destruct (_ && _) eqn:E; [right | left; reflexivity].
  apply andb_prop in E as [E1 E2].
  apply Z.ltb_lt in E1. apply Z.leb_le in E2. lia.
Qed.

Lemma parse_steps_result_range_witness :
  exists steps,
    parse_steps "x+70000" 100 = Some steps
    /\ (steps = 100 \/ 1 <= steps <= 10000).
Proof.
  apply (parse_steps_result_range "x" "+" "70000" 100); reflexivity.
Defined.

(** X2.  [manual_move_axis] with [steps] steps raises the step pin
    exactly [steps] times and no other step pin, leaves the enable line
    LOW (steppers enabled) and the direction pin at the level of the
    direction, busy-waits [10 + 2000 * steps] microseconds, refreshes
    the watchdog [ceil (steps / 10)] times, and changes none of the
    tracking variables. *)
Theorem manual_move_axis_effect step_pin dir_pin direction steps s :
  0 <= steps -> step_pin <> dir_pin ->
  step_pin <> X_ENABLE_PIN -> dir_pin <> X_ENABLE_PIN ->
  let s' := manual_move_axis step_pin dir_pin direction steps s in
  pulses step_pin (trace s') = pulses step_pin (trace s) + steps
  /\ (forall p, p <> step_pin -> p <> dir_pin ->
                pulses p (trace s') = pulses p (trace s))
  /\ delay_total (trace s') = delay_total (trace s) + 10 + 2000 * steps
  /\ refreshes (trace s') = refreshes (trace s) + (steps + 9) / 10
  /\ last_write X_ENABLE_PIN (trace s') = Some LOW
  /\ last_write dir_pin (trace s') = Some (level_of direction)
  /\ same_tracking s s'
  /\ adc_control_active s' = adc_control_active s.
Proof.
  intros Hs Hsd Hse Hde s'.
  destruct (manual_move_axis_counts step_pin dir_pin direction steps s
              Hs Hsd Hse Hde) as (A & B & C & D & E & F).
  destruct (manual_move_axis_frame step_pin dir_pin direction steps s)
    as (G & H).
  repeat split; assumption || apply G.
Qed.

Lemma manual_move_axis_effect_witness :
  pulses Z_STEP_PIN
    (trace (manual_move_axis Z_STEP_PIN Z_DIR_PIN false 25 initial_state))
  = 0 + 25
  /\ refreshes
       (trace (manual_move_axis Z_STEP_PIN Z_DIR_PIN false 25 initial_state))
     = 0 + (25 + 9) / 10.
Proof.
  destruct (manual_move_axis_effect Z_STEP_PIN Z_DIR_PIN false 25 initial_state)
    as (A & _ & _ & D & _); try discriminate.
  split; [exact A | exact D].
Defined.

(** X3.  A command that begins with a jog prefix ([x+], [x-], [y+],
    [y-], [z+], [z-], [e+], [e-]), whatever follows the prefix, moves
    the axis of the prefix by the count that [parse_steps] returns,
    between 1 and 10000: that many pulses on the axis' step pin and on
    no other step pin, the direction pin HIGH for [+] and LOW for [-],
    the enable line left LOW, at most 20000010 microseconds of
    busy-wait.  The current position and the tracking flag stay as they
    were, also while tracking is active. *)
Theorem jog_command_moves_its_axis
  prefix step_pin dir_pin direction d e command s :
  In (prefix, step_pin, dir_pin, direction, d) jog_table ->
  strncmp command prefix 2 = true ->
  exists steps s',
    parse_steps command d = Some steps
    /\ 1 <= steps <= 10000
    /\ process_manual_command e command s = Some s'
    /\ pulses step_pin (trace s') = pulses step_pin (trace s) + steps
    /\ (forall p, p <> step_pin -> p <> dir_pin ->
                  pulses p (trace s') = pulses p (trace s))
    /\ last_write dir_pin (trace s') = Some (level_of direction)
    /\ last_write X_ENABLE_PIN (trace s') = Some LOW
    /\ delay_total (trace s') = delay_total (trace s) + 10 + 2000 * steps
    /\ delay_total (trace s') <= delay_total (trace s) + 20000010
    /\ adc_current_position s' = adc_current_position s
    /\ adc_control_active s' = adc_control_active s.
Proof.
  intros Hin Hpre.
  destruct (jog_dispatch _ _ _ _ _ e command s Hin Hpre)
    as (steps & Hparse & Hrange & Hrun).
  destruct (jog_table_pins _ _ _ _ _ Hin)
    as (Hsd & Hse & Hde & _ & _ & _ & _ & _ & _ & _ & _ & Hd).
  assert (Hsteps : 1 <= steps <= 10000) by lia.
  destruct (manual_move_axis_counts step_pin dir_pin direction steps s
              ltac:(lia) Hsd Hse Hde) as (A & B & C & D & E & F).
  destruct (manual_move_axis_frame step_pin dir_pin direction steps s)
    as ((_ & G & _) & H).
  exists steps, (manual_move_axis step_pin dir_pin direction steps s).
  repeat split; try assumption; lia.
Qed.

Lemma jog_command_moves_its_axis_witness :
  exists steps s',
    parse_steps "x+50" 100 = Some steps
    /\ process_manual_command (mkEnv 0 (fun _ => 0)) "x+50" initial_state
       = Some s'
    /\ pulses X_STEP_PIN (trace s') = 0 + steps
    /\ last_write X_DIR_PIN (trace s') = Some HIGH.
Proof.
  destruct (jog_command_moves_its_axis "x+" X_STEP_PIN X_DIR_PIN true 100
              (mkEnv 0 (fun _ => 0)) "x+50" initial_state)
    as (steps & s' & A & _ & B & C & _ & D & _).
  - unfold jog_table. simpl. tauto.
  - reflexivity.
  - exists steps, s'. repeat split; assumption.
Defined.

(** ** The tracking flag and the enable line *)

(** X4.  Every command returns, and the tracking flag after it is
    true for [adc_on], false for [adc_off] and what it was for every
    other command: jogging, [on] and [off] neither start nor stop
    tracking. *)
Theorem tracking_flag_writers e command s :
  exists s',
    process_manual_command e command s = Some s'
    /\ adc_control_active s'
       = (if strcmp command "adc_on" then true
          else if strcmp command "adc_off" then false
          else adc_control_active s).
Proof.
  destruct (process_manual_command_effect e command s)
    as (s' & es & Hrun & _ & Heff).
  exists s'. split; [exact Hrun |].
  destruct Heff as [_ _ _ _ Hon Hoff | Hc -> | Hc -> | Hc ->
                   | prefix sp dp dir d steps Hin Hpre _ _ ->].
  - rewrite Hon. destruct (strcmp command "adc_off"); exact Hoff.
  - rewrite (strcmp_other command "on" "adc_on" Hc eq_refl),
      (strcmp_other command "on" "adc_off" Hc eq_refl). reflexivity.
  - rewrite (strcmp_other command "off" "adc_on" Hc eq_refl),
      (strcmp_other command "off" "adc_off" Hc eq_refl). reflexivity.
  - rewrite Hc. reflexivity.
  - destruct (jog_table_pins _ _ _ _ _ Hin)
      as (_ & _ & _ & _ & _ & _ & Had & _).
    destruct (strncmp_other command prefix "adc_on" 2 Hpre Had) as [_ ->].
    destruct (strncmp_other command prefix "adc_off" 2 Hpre Had) as [_ ->].
    apply manual_move_axis_frame.
Qed.

(** A correction appends to the trace; when it acts, it drives the
    enable line LOW first and writes it no more. *)
Lemma track_trace now raw_adc adcValue s :
  let err := wrap_i32 (adc_target_position s - adc_current_position s) in
  exists es,
    trace (track now raw_adc adcValue s) = trace s ++ es
    /\ (if 5 <? Arduino.abs err
        then last_write X_ENABLE_PIN es = Some LOW
        else es = []).
Proof.
  cbv zeta. unfold track. cbv zeta.
  set (err := wrap_i32 (adc_target_position s - adc_current_position s)).
  destruct (5 <? Arduino.abs err).
  2:{ exists []. split; [rewrite app_nil_r |]; reflexivity. }
  unfold for_lt.
  set (s0 := emit [WRITE Y_DIR_PIN (level_of (0 <? err)); DELAY_US 10]
               (emit [WRITE X_ENABLE_PIN LOW] s)).
  assert (Hloop : exists es,
             trace (iterate (Z.to_nat (steps_to_move err)) 0
                      (track_step (0 <? err)) s0) = trace s ++ es
             /\ last_write X_ENABLE_PIN es = Some LOW).
  { apply (iterate_invariant
             (fun x => exists es, trace x = trace s ++ es
                                  /\ last_write X_ENABLE_PIN es = Some LOW)).
    - intros i x (es & Hes & Hl). unfold track_step. cbv zeta.
      destruct (Z.rem i 5 =? 0); simpl; rewrite Hes, <- !app_assoc;
        eexists; (split; [reflexivity |]);
        rewrite !last_write_app, Hl; reflexivity.
    - unfold s0. simpl. rewrite <- app_assoc. eexists.
      split; [reflexivity |]. reflexivity. }
  destruct Hloop as (es & Hes & Hl).
  match goal with
  | |- context [if ?b then _ else _] => destruct b
  end; simpl; rewrite Hes.
  - rewrite <- app_assoc. eexists. split; [reflexivity |].
    rewrite last_write_app. simpl. exact Hl.
  - exists es. auto.
Qed.

Lemma push_sample_trace raw s s1 :
  push_sample raw s = Some s1 ->
  trace s1 = trace s
  /\ adc_current_position s1 = adc_current_position s
  /\ adc_target_position s1 = adc_target_position s
  /\ adc_control_active s1 = adc_control_active s
  /\ last_adc_move s1 = last_adc_move s
  /\ update_counter s1 = update_counter s
  /\ position_range s1 = position_range s.
Proof.
  unfold push_sample. intros H.
  apply bind_Some in H as (buf & _ & H). injection H as <-.
  repeat split.
Qed.

(** The shape of a tick that returns. *)
Lemma manual_adc_control_y_cases e s s' :
  manual_adc_control_y e s = Some s' ->
  s' = s
  \/ (adc_control_active s = true
      /\ 10 <= wrap_u32 (wrap_u32 (millis e) - last_adc_move s)
      /\ exists s1 adcValue,
           push_sample (wrap_u16 (analogRead e TEMP_BED_PIN)) s = Some s1
           /\ filtered_value s1 = Some adcValue
           /\ s' = track (wrap_u32 (millis e))
                     (wrap_u16 (analogRead e TEMP_BED_PIN)) adcValue
                     (set_target (target_of adcValue s1) s1)).
Proof.
  unfold manual_adc_control_y. intros H.
  destruct (adc_control_active s); cbn [negb] in H; [| left; congruence].
  destruct (Z.ltb_spec (wrap_u32 (wrap_u32 (millis e) - last_adc_move s)) 10);
    [left; congruence |].
  right. split; [reflexivity |]. split; [lia |].
  apply bind_Some in H as (s1 & Hpush & H).
  apply bind_Some in H as (v & Hv & H).
  injection H as <-. eauto.
Qed.

(** X5.  The enable line is driven HIGH (steppers released) by the
    command [off] and by nothing else: after any other command, and
    after any tracker tick, the line is HIGH only if it was HIGH before.
    [off] does drive it HIGH, and a correction of the tracker drives it
    LOW again, so tracking overrides an earlier [off]. *)
Theorem enable_line_released_by_off_only :
  (forall e command s s',
     process_manual_command e command s = Some s' ->
     last_write X_ENABLE_PIN (trace s') = Some HIGH ->
     strcmp command "off" = true
     \/ last_write X_ENABLE_PIN (trace s) = Some HIGH)
  /\ (forall e s s',
        manual_adc_control_y e s = Some s' ->
        last_write X_ENABLE_PIN (trace s') = Some HIGH ->
        last_write X_ENABLE_PIN (trace s) = Some HIGH)
  /\ (forall e command s,
        strcmp command "off" = true ->
        exists s',
          process_manual_command e command s = Some s'
          /\ last_write X_ENABLE_PIN (trace s') = Some HIGH)
  /\ (forall now raw_adc adcValue s,
        5 < Arduino.abs
              (wrap_i32 (adc_target_position s - adc_current_position s)) ->
        last_write X_ENABLE_PIN (trace (track now raw_adc adcValue s))
        = Some LOW).
Proof.
  split; [| split; [| split]].
  - intros e command s s' Hrun Hhigh.
    destruct (process_manual_command_effect e command s)
      as (s'' & es & Hrun' & Htr & Heff).
    rewrite Hrun in Hrun'. injection Hrun' as <-.
    destruct Heff as [Hq _ _ _ _ _ | _ -> | Hc _ | _ ->
                     | prefix sp dp dir d steps Hin _ _ Hrange ->].
    + right. rewrite Htr, last_write_app, (no_pin_write_last _ _ Hq) in Hhigh.
      exact Hhigh.
    + simpl in Hhigh. rewrite last_write_app in Hhigh. discriminate.
    + left. exact Hc.
    + unfold adc_on, manual_enable_steppers in Hhigh. simpl in Hhigh.
      rewrite !last_write_app in Hhigh. discriminate.
    + destruct (jog_table_pins _ _ _ _ _ Hin)
        as (Hsd & Hse & Hde & _ & _ & _ & _ & _ & _ & _ & _ & Hd).
      destruct (manual_move_axis_counts sp dp dir steps s
                  ltac:(lia) Hsd Hse Hde) as (_ & _ & _ & _ & E & _).
      rewrite E in Hhigh. discriminate.
  - intros e s s' Hrun Hhigh.
    destruct (manual_adc_control_y_cases e s s' Hrun)
      as [-> | (_ & _ & s1 & v & Hpush & _ & ->)]; [exact Hhigh |].
    destruct (push_sample_trace _ _ _ Hpush) as (Htr & _).
    destruct (track_trace (wrap_u32 (millis e))
                (wrap_u16 (analogRead e TEMP_BED_PIN)) v
                (set_target (target_of v s1) s1)) as (es & Hes & Hcase).
    cbv zeta in Hcase. rewrite Hes in Hhigh.
    change (trace (set_target (target_of v s1) s1)) with (trace s1) in Hhigh.
    rewrite Htr, last_write_app in Hhigh.
    destruct (5 <? _).
    + rewrite Hcase in Hhigh. discriminate.
    + rewrite Hcase in Hhigh. exact Hhigh.
  - intros e command s Hoff.
    destruct (process_manual_command_effect e command s)
      as (s' & es & Hrun & _ & Heff).
    exists s'. split; [exact Hrun |].
    destruct Heff as [_ _ _ Hno _ _ | Hc _ | _ -> | Hc _
                     | prefix sp dp dir d steps Hin Hpre _ _ _].
    + congruence.
    + rewrite (strcmp_other command "on" "off" Hc eq_refl) in Hoff.
      discriminate.
    + simpl. rewrite last_write_app. reflexivity.
    + rewrite (strcmp_other command "adc_on" "off" Hc eq_refl) in Hoff.
      discriminate.
    + destruct (jog_table_pins _ _ _ _ _ Hin)
        as (_ & _ & _ & _ & _ & _ & _ & Hof & _).
      destruct (strncmp_other command prefix "off" 2 Hpre Hof) as [_ E].
      congruence.
  - intros now raw_adc adcValue s Herr.
    destruct (track_trace now raw_adc adcValue s) as (es & Hes & Hcase).
    cbv zeta in Hcase.
    destruct (Z.ltb_spec 5 (Arduino.abs
               (wrap_i32 (adc_target_position s - adc_current_position s))));
      [| lia].
    rewrite Hes, last_write_app, Hcase. reflexivity.
Qed.

Lemma enable_line_released_by_off_only_witness :
  exists s',
    process_manual_command (mkEnv 0 (fun _ => 0)) "off" initial_state = Some s'
    /\ last_write X_ENABLE_PIN (trace s') = Some HIGH.
Proof.
  apply (proj1 (proj2 (proj2 enable_line_released_by_off_only))).
  reflexivity.
Defined.

(** ** The rate gate and the feedback counter *)

Lemma track_loop_quiet direction n from s :
  let s' := iterate n from (track_step direction) s in
  update_counter s' = update_counter s
  /\ last_adc_move s' = last_adc_move s
  /\ serial_outputs (trace s') = serial_outputs (trace s).
Proof.
  cbv zeta.
  apply (iterate_invariant
           (fun x => update_counter x = update_counter s
                     /\ last_adc_move x = last_adc_move s
                     /\ serial_outputs (trace x) = serial_outputs (trace s))).
  - intros i x (Hc & Hl & Ho). unfold track_step. cbv zeta.
    destruct (Z.rem i 5 =? 0); simpl; rewrite ?serial_outputs_app; simpl;
      repeat split; try assumption; lia.
  - repeat split.
Qed.

(** What a correction does to the time stamp, the counter and the
    serial output. *)
Lemma track_bookkeeping now raw_adc adcValue s :
  let err := wrap_i32 (adc_target_position s - adc_current_position s) in
  let c := wrap_u8 (update_counter s + 1) in
  let s' := track now raw_adc adcValue s in
  if 5 <? Arduino.abs err then
    last_adc_move s' = now
    /\ update_counter s' = (if 25 <=? c then 0 else c)
    /\ serial_outputs (trace s')
       = serial_outputs (trace s) + (if 25 <=? c then 10 else 0)
  else s' = s.
Proof.
  cbv zeta. unfold track. cbv zeta.
  set (err := wrap_i32 (adc_target_position s - adc_current_position s)).
  destruct (5 <? Arduino.abs err); [| reflexivity].
  unfold for_lt.
  set (s0 := emit [WRITE Y_DIR_PIN (level_of (0 <? err)); DELAY_US 10]
               (emit [WRITE X_ENABLE_PIN LOW] s)).
  destruct (track_loop_quiet (0 <? err) (Z.to_nat (steps_to_move err)) 0 s0)
    as (Hc & _ & Ho).
  set (s1 := iterate (Z.to_nat (steps_to_move err)) 0
               (track_step (0 <? err)) s0) in *.
  assert (Ho0 : serial_outputs (trace s0) = serial_outputs (trace s)).
  { unfold s0. simpl. rewrite !serial_outputs_app. simpl. lia. }
  change (update_counter s0) with (update_counter s) in Hc.
  simpl. rewrite Hc.
  destruct (25 <=? wrap_u8 (update_counter s + 1)); simpl;
    rewrite ?serial_outputs_app; simpl; rewrite Ho, Ho0;
    repeat split; lia.
Qed.

(** X6.  A tick that writes anything to the trace (pins or serial) has
    stamped [last_adc_move] with its own time, and every tick less than
    10 ms after it, in the 32-bit arithmetic of [millis], returns at
    once and leaves the whole state as it is: two corrections are never
    less than 10 ms apart. *)
Theorem corrections_are_10ms_apart e s s' :
  manual_adc_control_y e s = Some s' ->
  trace s' <> trace s ->
  last_adc_move s' = wrap_u32 (millis e)
  /\ (forall e',
        wrap_u32 (wrap_u32 (millis e') - wrap_u32 (millis e)) < 10 ->
        manual_adc_control_y e' s' = Some s').
Proof.
  intros Hrun Hne.
  destruct (manual_adc_control_y_cases e s s' Hrun)
    as [-> | (_ & _ & s1 & v & Hpush & _ & ->)]; [congruence |].
  destruct (push_sample_trace _ _ _ Hpush) as (Htr & _).
  pose proof (track_bookkeeping (wrap_u32 (millis e))
                (wrap_u16 (analogRead e TEMP_BED_PIN)) v
                (set_target (target_of v s1) s1)) as Hb.
  cbv zeta in Hb.
  destruct (5 <? _).
  - destruct Hb as (Hl & _). split; [exact Hl |].
    intros e' He'. apply manual_adc_control_y_gated. rewrite Hl. exact He'.
  - rewrite Hb in Hne. exfalso. apply Hne. exact Htr.
Qed.

Lemma corrections_are_10ms_apart_witness :
  exists s',
    manual_adc_control_y (mkEnv (2 ^ 32 - 3) (fun _ => 4095))
      (set_active true initial_state) = Some s'
    /\ manual_adc_control_y (mkEnv 4 (fun _ => 0)) s' = Some s'.
Proof.
  destruct (manual_adc_control_y (mkEnv (2 ^ 32 - 3) (fun _ => 4095))
              (set_active true initial_state)) as [s' |] eqn:Hrun;
    [| vm_compute in Hrun; discriminate].
  exists s'. split; [reflexivity |].
  apply (corrections_are_10ms_apart _ _ _ Hrun).
  - vm_compute in Hrun. injection Hrun as <-. discriminate.
  - vm_compute. reflexivity.
Defined.

(** X7.  With the feedback counter below 25, as it is from the start,
    a correction advances it to [(counter + 1) mod 25], and it prints
    the status line (ten serial items) exactly when the counter was 24,
    that is on every 25th correction; a tick in the deadzone neither
    counts nor prints. *)
Theorem status_line_every_25th_correction now raw_adc adcValue s :
  0 <= update_counter s < 25 ->
  let err := wrap_i32 (adc_target_position s - adc_current_position s) in
  let s' := track now raw_adc adcValue s in
  0 <= update_counter s' < 25
  /\ (if 5 <? Arduino.abs err then
        update_counter s' = (update_counter s + 1) mod 25
        /\ serial_outputs (trace s')
           = serial_outputs (trace s)
             + (if update_counter s =? 24 then 10 else 0)
      else s' = s).
Proof.
  intros Hc. cbv zeta.
  pose proof (track_bookkeeping now raw_adc adcValue s) as Hb.
  cbv zeta in Hb.
  assert (Hw : wrap_u8 (update_counter s + 1) = update_counter s + 1).
  { unfold wrap_u8. apply Z.mod_small. lia. }
  rewrite Hw in Hb.
  destruct (5 <? _).
  - destruct Hb as (_ & Hu & Ho). rewrite Hu, Ho.
    destruct (Z.leb_spec 25 (update_counter s + 1)) as [H25 | H25].
    + assert (E : update_counter s = 24) by lia. rewrite E.
      repeat split; lia || reflexivity.
    + rewrite Z.mod_small by lia.
      destruct (Z.eqb_spec (update_counter s) 24); [lia |].
      repeat split; lia.
  - rewrite Hb. split; [exact Hc | reflexivity].
Qed.

Lemma status_line_every_25th_correction_witness :
  update_counter
    (track 1000 4095 4095
       (set_counter 24 (set_target 3200 initial_state))) = 0
  /\ serial_outputs
       (trace (track 1000 4095 4095
                 (set_counter 24 (set_target 3200 initial_state)))) = 10.
Proof.
  destruct (status_line_every_25th_correction 1000 4095 4095
              (set_counter 24 (set_target 3200 initial_state)))
    as (_ & H).
  - simpl. lia.
  - change (5 <? _) with true in H. destruct H as (Hu & Ho).
    split; [exact Hu | exact Ho].
Defined.

(** ** Reachable states, continued *)

Lemma reachable_counter s : reachable s -> 0 <= update_counter s < 25.
Proof.
  induction 1 as [| e command s s' _ IH Hrun | e s s' _ IH _ Hrun].
  - simpl. lia.
  - destruct (process_manual_command_frame e command s)
      as (s'' & Hrun' & (_ & _ & _ & _ & _ & Hu) & _).
    rewrite Hrun in Hrun'. injection Hrun' as <-. rewrite Hu. exact IH.
  - destruct (manual_adc_control_y_cases e s s' Hrun)
      as [-> | (_ & _ & s1 & v & Hpush & _ & ->)]; [exact IH |].
    destruct (push_sample_trace _ _ _ Hpush) as (_ & _ & _ & _ & _ & Hu & _).
    pose proof (track_bookkeeping (wrap_u32 (millis e))
                  (wrap_u16 (analogRead e TEMP_BED_PIN)) v
                  (set_target (target_of v s1) s1)) as Hb.
    cbv zeta in Hb.
    change (update_counter (set_target (target_of v s1) s1))
      with (update_counter s1) in Hb.
    rewrite Hu in Hb.
    assert (Hw : wrap_u8 (update_counter s + 1) = update_counter s + 1).
    { unfold wrap_u8. apply Z.mod_small. lia. }
    rewrite Hw in Hb.
    destruct (5 <? _).
    + destruct Hb as (_ & -> & _).
      destruct (Z.leb_spec 25 (update_counter s + 1)); lia.
    + rewrite Hb. simpl. rewrite Hu. exact IH.
Qed.

(** X8.  In every state reached from the initial one by commands and by
    ticks with 12-bit readings: the ring has its 8 cells, an index
    below 8 and 12-bit contents; the range is in (0, 50000]; the current
    and the target position are within 25000 steps of zero; the feedback
    counter is below 25; and a tick returns, whatever it reads, without
    an access outside an array. *)
Theorem reachable_state_bounds s :
  reachable s ->
  length (adc_buffer s) = 8%nat
  /\ 0 <= adc_buffer_index s < 8
  /\ Forall adc12 (adc_buffer s)
  /\ 0 < position_range s <= 50000
  /\ Z.abs (adc_current_position s) <= 25000
  /\ Z.abs (adc_target_position s) <= 25000
  /\ 0 <= update_counter s < 25
  /\ (forall e, is_Some (manual_adc_control_y e s)).
Proof.
  intros Hr.
  pose proof (reachable_inv s Hr) as (Hok & Hf & Hrg & Hc & Ht).
  pose proof (reachable_counter s Hr) as Hu.
  pose proof Hok as [Hlen Hidx]. unfold ADC_SAMPLES in Hidx.
  split; [exact Hlen |]. split; [exact Hidx |]. split; [exact Hf |].
  split; [exact Hrg |]. split; [exact Hc |]. split; [exact Ht |].
  split; [exact Hu |].
  intros e. apply manual_adc_control_y_total. exact Hok.
Qed.

Lemma reachable_state_bounds_witness :
  exists s,
    parked_state = Some s /\ Z.abs (adc_current_position s) <= 25000.
Proof.
  destruct parked_state as [s |] eqn:E; [| vm_compute in E; discriminate].
  exists s. split; [reflexivity |].
  apply (reachable_state_bounds s).
  unfold parked_state in E.
  apply bind_Some in E as (s1 & E1 & E).
  apply bind_Some in E as (s2 & E2 & E3).
  eapply reachable_command; [| exact E3].
  eapply reachable_tick; [| | exact E2].
  - eapply reachable_command; [apply reachable_init | exact E1].
  - unfold adc12. simpl. lia.
Defined.

(** ** Corrections in a row *)

(** X9.  With the target standing still and an error that fits 16
    bits, [n] corrections in a row never overshoot: the position stays
    between where it started and the target, every step pulse brings it
    one step closer, and after at least [(|error| + 4) / 10]
    corrections the error is within the deadzone of 5, where the
    position comes to rest. *)
Theorem corrections_reach_the_deadzone n now raw_adc adcValue s :
  int32 (adc_current_position s) -> int32 (adc_target_position s) ->
  let err := adc_target_position s - adc_current_position s in
  Z.abs err < 2 ^ 16 ->
  let s' := track_times n now raw_adc adcValue s in
  let err' := adc_target_position s' - adc_current_position s' in
  adc_target_position s' = adc_target_position s
  /\ Z.abs (adc_current_position s' - adc_current_position s) + Z.abs err'
     = Z.abs err
  /\ pulses Y_STEP_PIN (trace s')
     = pulses Y_STEP_PIN (trace s)
       + Z.abs (adc_current_position s' - adc_current_position s)
  /\ Z.abs err' <= Z.max 5 (Z.abs err - 10 * Z.of_nat n)
  /\ ((Z.abs err + 4) / 10 <= Z.of_nat n ->
      Z.abs err' <= 5 /\ track now raw_adc adcValue s' = s').
Proof.
  cbv zeta. revert s.
  assert (Hgen : forall s,
    int32 (adc_current_position s) -> int32 (adc_target_position s) ->
    Z.abs (adc_target_position s - adc_current_position s) < 2 ^ 16 ->
    adc_target_position (track_times n now raw_adc adcValue s)
    = adc_target_position s
    /\ Z.abs (adc_current_position (track_times n now raw_adc adcValue s)
              - adc_current_position s)
       + Z.abs (adc_target_position (track_times n now raw_adc adcValue s)
                - adc_current_position (track_times n now raw_adc adcValue s))
       = Z.abs (adc_target_position s - adc_current_position s)
    /\ pulses Y_STEP_PIN (trace (track_times n now raw_adc adcValue s))
       = pulses Y_STEP_PIN (trace s)
         + Z.abs (adc_current_position (track_times n now raw_adc adcValue s)
                  - adc_current_position s)
    /\ Z.abs (adc_target_position (track_times n now raw_adc adcValue s)
              - adc_current_position (track_times n now raw_adc adcValue s))
       <= Z.max 5 (Z.abs (adc_target_position s - adc_current_position s)
                   - 10 * Z.of_nat n)).
  { induction n as [| n IH]; intros s Hc Ht He.
    - simpl. repeat split; lia.
    - cbn [track_times].
      destruct (Z.le_gt_cases
                  (Z.abs (adc_target_position s - adc_current_position s)) 5)
        as [Hd | Hd].
      + rewrite (track_deadzone now raw_adc adcValue s Hd).
        destruct (IH s Hc Ht He) as (A & B & C & D).
        repeat split; try assumption. lia.
      + destruct (track_correction now raw_adc adcValue s Hc Ht ltac:(lia))
          as (Hk & Hle & Hpos & Hpul & _ & Htg & _).
        rewrite (Z.mod_small (Z.abs _) (2 ^ 16)) in Hk, Hle, Hpos, Hpul by lia.
        set (s1 := track now raw_adc adcValue s) in *.
        set (k := Z.min (Z.abs (adc_target_position s - adc_current_position s))
                    10) in *.
        assert (Hbetween :
                  Z.abs (adc_current_position s1 - adc_current_position s) = k
                  /\ Z.abs (adc_target_position s1 - adc_current_position s1)
                     = Z.abs (adc_target_position s - adc_current_position s)
                       - k).
        { rewrite Htg, Hpos.
          destruct (Z.sgn_spec (adc_target_position s - adc_current_position s))
            as [[? ->] | [[? ->] | [? ->]]]; lia. }
        destruct Hbetween as [Hb1 Hb2].
        destruct (IH s1) as (A & B & C & D).
        { rewrite Hpos. unfold int32 in *.
          destruct (Z.sgn_spec (adc_target_position s - adc_current_position s))
            as [[? ->] | [[? ->] | [? ->]]]; lia. }
        { rewrite Htg. exact Ht. }
        { lia. }
        rewrite A, Htg.
        set (sn := track_times n now raw_adc adcValue s1) in *.
        assert (Hsame_side :
                  Z.abs (adc_current_position sn - adc_current_position s)
                  = Z.abs (adc_current_position sn - adc_current_position s1)
                    + k).
        { rewrite Htg in Hb2. rewrite A, Htg in B.
          rewrite Hpos in *.
          destruct (Z.sgn_spec (adc_target_position s - adc_current_position s))
            as [[? E] | [[? E] | [? E]]]; rewrite E in *; lia. }
        rewrite A, Htg in B, D. rewrite Htg in Hb2.
        repeat split; lia. }
  intros s Hc Ht He.
  destruct (Hgen s Hc Ht He) as (A & B & C & D).
  split; [exact A |]. split; [exact B |]. split; [exact C |].
  split; [exact D |].
  intros Hn.
  assert (Hfin : Z.abs (adc_target_position (track_times n now raw_adc adcValue s)
                        - adc_current_position
                            (track_times n now raw_adc adcValue s)) <= 5).
  { assert (Z.abs (adc_target_position s - adc_current_position s)
            - 10 * Z.of_nat n <= 5)
      by (Z.to_euclidean_division_equations; lia).
    lia. }
  split; [exact Hfin | apply track_deadzone; exact Hfin].
Qed.

Lemma corrections_reach_the_deadzone_witness :
  Z.abs (adc_target_position
           (track_times 3 1000 0 0 (set_target 26 initial_state))
         - adc_current_position
             (track_times 3 1000 0 0 (set_target 26 initial_state))) <= 5.
Proof.
  apply (corrections_reach_the_deadzone 3 1000 0 0
           (set_target 26 initial_state)).
  - vm_compute. split; [discriminate | reflexivity].
  - vm_compute. split; [discriminate | reflexivity].
  - vm_compute. reflexivity.
  - vm_compute. discriminate.
Defined.

(** ** The bubble sort *)

(** A loop whose invariant depends on the counter. *)
Lemma iterateM_indexed {A : Type} (P : Z -> A -> Prop) body n from (a : A) :
  (forall i x, from <= i < from + Z.of_nat n -> P i x ->
               exists y, body i x = Some y /\ P (i + 1) y) ->
  P from a ->
  exists b, iterateM n from body a = Some b /\ P (from + Z.of_nat n) b.
Proof.
  revert from a.
  induction n as [| n IH]; intros from a Hbody Ha; simpl iterateM.
  - exists a. rewrite Z.add_0_r. auto.
  - destruct (Hbody from a ltac:(lia) Ha) as (y & -> & Hy). simpl.
    destruct (IH (from + 1) y) as (b & Hb & HP).
    + intros i x Hi. apply Hbody. lia.
    + exact Hy.
    + exists b. split; [exact Hb |].
      replace (from + Z.of_nat (S n)) with (from + 1 + Z.of_nat n) by lia.
      exact HP.
Qed.

Lemma array_get_middle (pre : list Z) x post :
  array_get (pre ++ x :: post) (Z.of_nat (length pre)) = Some x.
Proof.
  unfold array_get. destruct (Z.leb_spec 0 (Z.of_nat (length pre))); [| lia].
  rewrite Nat2Z.id. apply list_lookup_middle. reflexivity.
Qed.

Lemma array_set_middle (pre : list Z) x y post :
  array_set (pre ++ x :: post) (Z.of_nat (length pre)) y
  = Some (pre ++ y :: post).
Proof.
  rewrite array_set_Some.
  - rewrite Nat2Z.id. f_equal.
    rewrite insert_app_r_alt by lia.
    replace (length pre - length pre)%nat with O by lia. reflexivity.
  - rewrite length_app. simpl. lia.
Qed.

Lemma swap_if_greater_middle (pre : list Z) x y post :
  swap_if_greater (Z.of_nat (length pre)) (pre ++ x :: y :: post)
  = Some (pre ++ (if y <? x then y :: x :: post else x :: y :: post)).
Proof.
  assert (Hnext : forall a b,
             (pre ++ a :: b :: post) = ((pre ++ [a]) ++ b :: post)).
  { intros a b. rewrite <- app_assoc. reflexivity. }
  assert (Hlen : forall a, Z.of_nat (length pre) + 1
                           = Z.of_nat (length (pre ++ [a]))).
  { intros a. rewrite length_app. simpl. lia. }
  unfold swap_if_greater.
  rewrite array_get_middle. cbn [mbind option_bind].
  rewrite (Hnext x y), (Hlen x), array_get_middle. cbn [mbind option_bind].
  destruct (y <? x); [| rewrite <- Hnext; reflexivity].
  rewrite <- (Hnext x y), <- (Hlen x).
  rewrite array_set_middle. cbn [mbind option_bind].
  rewrite (Hnext y y), (Hlen y), array_set_middle.
  rewrite <- app_assoc. reflexivity.
Qed.

(** The inner loop is a pass of [bubble_pass] over the cells it visits. *)
Lemma inner_loop_is_bubble_pass l : forall pre x post,
  iterateM (length l) (Z.of_nat (length pre)) swap_if_greater
    (pre ++ x :: l ++ post)
  = Some (pre ++ bubble_pass x l ++ post).
Proof.
  induction l as [| y t IH]; intros pre x post; [reflexivity |].
  cbn [length iterateM bubble_pass].
  change (pre ++ x :: (y :: t) ++ post) with (pre ++ x :: y :: t ++ post).
  rewrite swap_if_greater_middle. cbn [mbind option_bind].
  assert (Hlen : forall a, Z.of_nat (length pre) + 1
                           = Z.of_nat (length (pre ++ [a]))).
  { intros a. rewrite length_app. simpl. lia. }
  destruct (y <? x).
  - replace (pre ++ y :: x :: t ++ post)
      with ((pre ++ [y]) ++ x :: t ++ post)
      by (rewrite <- app_assoc; reflexivity).
    rewrite (Hlen y), IH, <- !app_assoc. reflexivity.
  - replace (pre ++ x :: y :: t ++ post)
      with ((pre ++ [x]) ++ y :: t ++ post)
      by (rewrite <- app_assoc; reflexivity).
    rewrite (Hlen x), IH, <- !app_assoc. reflexivity.
Qed.

(** A pass moves a greatest element to the end and permutes the rest. *)
Lemma bubble_pass_spec l : forall x,
  exists init m,
    bubble_pass x l = init ++ [m]
    /\ Forall (fun z => z <= m) (x :: l)
    /\ init ++ [m] ≡ₚ x :: l.
Proof.
  induction l as [| y t IH]; intros x.
  - exists [], x. simpl. repeat split; [repeat constructor; lia | reflexivity].
  - cbn [bubble_pass].
    destruct (Z.ltb_spec y x) as [Hlt | Hge].
    + destruct (IH x) as (init & m & -> & Hmax & Hperm).
      exists (y :: init), m. split; [reflexivity |].
      apply Forall_cons in Hmax as [Hx Ht].
      split.
      * repeat constructor; [exact Hx | lia | exact Ht].
      * simpl. rewrite Hperm. apply Permutation_swap.
    + destruct (IH y) as (init & m & -> & Hmax & Hperm).
      exists (x :: init), m. split; [reflexivity |].
      apply Forall_cons in Hmax as [Hy Ht].
      split.
      * repeat constructor; [lia | exact Hy | exact Ht].
      * simpl. rewrite Hperm. reflexivity.
Qed.

Lemma sort_inv_step n original i a :
  0 <= i < n - 1 ->
  sort_inv n original i a ->
  exists a',
    for_ltM (n - i - 1) swap_if_greater a = Some a'
    /\ sort_inv n original (i + 1) a'.
Proof.
  intros Hi (u & v & -> & Hu & Hv & Hsorted & Hle & Hperm).
  destruct u as [| x l]; [simpl in Hu; lia |].
  unfold for_ltM.
  replace (Z.to_nat (n - i - 1)) with (length l) by (simpl in Hu; lia).
  pose proof (inner_loop_is_bubble_pass l [] x
                (v ++ drop (Z.to_nat n) original)) as Hloop.
  simpl in Hloop. change (Z.of_nat 0) with 0 in Hloop. simpl. rewrite Hloop.
  destruct (bubble_pass_spec l x) as (init & m & Hbp & Hmax & Hpass).
  rewrite Hbp.
  eexists. split; [reflexivity |].
  exists init, (m :: v).
  assert (Hlen : length (init ++ [m]) = length (x :: l))
    by (rewrite Hpass; reflexivity).
  rewrite length_app in Hlen. simpl in Hlen, Hu.
  assert (Hm_in : m ∈ x :: l).
  { rewrite <- Hpass. apply elem_of_app. right. apply list_elem_of_singleton.
    reflexivity. }
  assert (Hm_le : Forall (Z.le m) v).
  { rewrite Forall_forall in Hle. apply Hle. exact Hm_in. }
  assert (Hinit : Forall (fun z => z ∈ x :: l) init).
  { apply Forall_forall. intros z Hz. rewrite <- Hpass. apply elem_of_app.
    left. exact Hz. }
  split; [rewrite <- !app_assoc; reflexivity |].
  split; [lia |]. split; [simpl; lia |].
  split; [constructor; assumption |].
  split.
  - apply Forall_forall. intros z Hz.
    rewrite Forall_forall in Hinit. specialize (Hinit z Hz).
    constructor.
    + rewrite Forall_forall in Hmax. apply Hmax. exact Hinit.
    + rewrite Forall_forall in Hle. apply Hle. exact Hinit.
  - rewrite <- Hperm.
    change (init ++ m :: v) with (init ++ [m] ++ v).
    rewrite app_assoc, Hpass. reflexivity.
Qed.

(** The sort of the first [n] cells: a sorted permutation of them, the
    other cells untouched. *)
Lemma bubble_sort_sorts n (a : list Z) :
  0 <= n <= Z.of_nat (length a) ->
  exists a',
    bubble_sort n a = Some a'
    /\ take (Z.to_nat n) a' ≡ₚ take (Z.to_nat n) a
    /\ StronglySorted Z.le (take (Z.to_nat n) a')
    /\ drop (Z.to_nat n) a' = drop (Z.to_nat n) a.
Proof.
  intros Hn.
  destruct (Z.eq_dec n 0) as [-> | Hn0].
  { exists a. split; [reflexivity |]. simpl. rewrite take_0.
    repeat split; constructor. }
  unfold bubble_sort, for_ltM.
  destruct (iterateM_indexed (sort_inv n a)
              (fun i sorted_buffer =>
                 for_ltM (n - i - 1) swap_if_greater sorted_buffer)
              (Z.to_nat (n - 1)) 0 a) as (a' & Hrun & Hinv).
  - intros i x Hi. apply sort_inv_step. lia.
  - exists (take (Z.to_nat n) a), [].
    split; [simpl; rewrite take_drop; reflexivity |].
    rewrite app_nil_r.
    split; [rewrite length_take; lia |].
    split; [reflexivity |]. split; [constructor |].
    split; [apply Forall_forall; intros; constructor | reflexivity].
  - exists a'. split; [exact Hrun |].
    destruct Hinv as (u & v & -> & Hu & Hv & Hsorted & Hle & Hperm).
    assert (Hlen : length (u ++ v) = Z.to_nat n) by (rewrite length_app; lia).
    rewrite app_assoc.
    rewrite take_app_length' by (symmetry; exact Hlen).
    rewrite drop_app_length' by (symmetry; exact Hlen).
    split; [exact Hperm |]. split; [| reflexivity].
    destruct u as [| x [| y t]]; simpl in Hu; try lia.
    simpl. constructor; [exact Hsorted |].
    apply Forall_cons in Hle as [Hx _]. exact Hx.
Qed.

(** ** The median filter *)

(** The copy loop fills the first [samples_to_use] cells of the scratch
    array with the valid samples. *)
Lemma copy_samples_prefix s :
  length (adc_buffer s) = 8%nat ->
  0 <= samples_to_use s <= 8 ->
  copy_samples s
  = Some (take (Z.to_nat (samples_to_use s)) (adc_buffer s)
          ++ replicate (8 - Z.to_nat (samples_to_use s)) 0).
Proof.
  intros Hlen Hn. unfold copy_samples, for_ltM.
  destruct (iterateM_indexed
              (fun i x => 0 <= i <= 8
                          /\ x = take (Z.to_nat i) (adc_buffer s)
                                 ++ replicate (8 - Z.to_nat i) 0)
              (fun i sorted_buffer =>
                 v ← array_get (adc_buffer s) i; array_set sorted_buffer i v)
              (Z.to_nat (samples_to_use s)) 0
              (replicate (Z.to_nat ADC_SAMPLES) 0)) as (b & Hrun & _ & Hb).
  - intros i x Hi (_ & ->).
    destruct (array_get_Some (adc_buffer s) i ltac:(lia)) as (v & Hv & _).
    rewrite Hv. cbn [mbind option_bind].
    assert (Hlk : adc_buffer s !! Z.to_nat i = Some v).
    { unfold array_get in Hv. destruct (0 <=? i); [exact Hv | discriminate]. }
    rewrite array_set_Some
      by (rewrite length_app, length_take, length_replicate; lia).
    eexists. split; [reflexivity |]. split; [lia |].
    rewrite insert_app_r_alt by (rewrite length_take; lia).
    rewrite length_take.
    replace (Z.to_nat i - Z.to_nat i `min` length (adc_buffer s))%nat
      with O by lia.
    replace (8 - Z.to_nat i)%nat with (S (8 - Z.to_nat (i + 1))) by lia.
    replace (Z.to_nat (i + 1)) with (S (Z.to_nat i)) by lia.
    rewrite (take_S_r _ _ _ Hlk), <- app_assoc. reflexivity.
  - split; [lia | reflexivity].
  - rewrite Hrun, Hb. repeat f_equal; lia.
Qed.

(** The filtered value is the element of index [samples_to_use / 2] of
    the sorted valid samples. *)
Lemma filtered_value_sorted s :
  length (adc_buffer s) = 8%nat ->
  1 <= samples_to_use s <= 8 ->
  exists sorted m,
    sorted ≡ₚ take (Z.to_nat (samples_to_use s)) (adc_buffer s)
    /\ StronglySorted Z.le sorted
    /\ sorted !! Z.to_nat (samples_to_use s ÷ 2) = Some m
    /\ filtered_value s = Some m.
Proof.
  intros Hlen Hn.
  set (n := samples_to_use s) in *.
  pose proof (copy_samples_prefix s Hlen ltac:(fold n; lia)) as Hcopy.
  fold n in Hcopy.
  set (a0 := take (Z.to_nat n) (adc_buffer s) ++ replicate (8 - Z.to_nat n) 0)
    in *.
  assert (Hlen0 : length a0 = 8%nat).
  { unfold a0. rewrite length_app, length_take, length_replicate. lia. }
  destruct (bubble_sort_sorts n a0 ltac:(lia))
    as (a1 & Hsort & Hperm & Hsorted & Hdrop).
  assert (Htake0 : take (Z.to_nat n) a0 = take (Z.to_nat n) (adc_buffer s)).
  { unfold a0. rewrite take_app_length'; [reflexivity |].
    rewrite length_take. lia. }
  rewrite Htake0 in Hperm.
  assert (Hq : 0 <= n ÷ 2 < n).
  { pose proof (Z.quot_pos n 2 ltac:(lia) ltac:(lia)).
    pose proof (Z.quot_lt n 2 ltac:(lia) ltac:(lia)). lia. }
  assert (Hlen1 : length (take (Z.to_nat n) a1) = Z.to_nat n).
  { rewrite Hperm, length_take. lia. }
  destruct (lookup_lt_is_Some_2 (take (Z.to_nat n) a1) (Z.to_nat (n ÷ 2))
              ltac:(lia)) as [m Hm].
  exists (take (Z.to_nat n) a1), m.
  split; [exact Hperm |]. split; [exact Hsorted |]. split; [exact Hm |].
  unfold filtered_value. fold n. rewrite Hcopy. cbn [mbind option_bind].
  rewrite Hsort. cbn [mbind option_bind].
  unfold array_get. destruct (Z.leb_spec 0 (n ÷ 2)); [| lia].
  rewrite <- Hm. symmetry. apply lookup_take_lt. lia.
Qed.


Lemma median_Permutation l1 l2 : l1 ≡ₚ l2 -> median l1 = median l2.
Proof.
  intros H. unfold median. rewrite (Permutation_length H).
  f_equal. apply (StronglySorted_unique Z.le).
  - apply StronglySorted_merge_sort; apply _.
  - apply StronglySorted_merge_sort; apply _.
  - rewrite !merge_sort_Permutation. exact H.
Qed.

(** The filtered value is the median of the valid samples. *)
Lemma filtered_value_median s :
  length (adc_buffer s) = 8%nat ->
  1 <= samples_to_use s <= 8 ->
  exists m,
    filtered_value s = Some m
    /\ median (take (Z.to_nat (samples_to_use s)) (adc_buffer s)) = Some m.
Proof.
  intros Hlen Hn.
  destruct (filtered_value_sorted s Hlen Hn)
    as (sorted & m & Hperm & Hsorted & Hm & Hv).
  exists m. split; [exact Hv |].
  unfold median.
  replace (merge_sort Z.le (take (Z.to_nat (samples_to_use s)) (adc_buffer s)))
    with sorted.
  - rewrite <- Hm. f_equal. rewrite length_take, Hlen.
    rewrite Z.quot_div_nonneg by lia.
    replace (Z.to_nat (samples_to_use s) `min` 8)%nat
      with (Z.to_nat (samples_to_use s)) by lia.
    rewrite Z2Nat.inj_div by lia. reflexivity.
  - apply (StronglySorted_unique Z.le).
    + exact Hsorted.
    + apply StronglySorted_merge_sort; apply _.
    + rewrite merge_sort_Permutation. exact Hperm.
Qed.

Lemma median_bounds l m :
  median l = Some m ->
  m ∈ l
  /\ (exists below above,
        l ≡ₚ below ++ m :: above
        /\ length below = (length l / 2)%nat
        /\ Forall (fun x => x <= m) below
        /\ Forall (fun x => m <= x) above).
Proof.
  unfold median. intros Hm.
  pose proof (StronglySorted_merge_sort Z.le l) as Hsorted.
  pose proof (merge_sort_Permutation Z.le l) as Hperm.
  split.
  - rewrite <- Hperm. apply list_elem_of_lookup. eauto.
  - exists (take (length l / 2) (merge_sort Z.le l)),
           (drop (S (length l / 2)) (merge_sort Z.le l)).
    pose proof (lookup_lt_Some _ _ _ Hm) as Hlt.
    rewrite (take_drop_middle _ _ _ Hm).
    split; [symmetry; exact Hperm |].
    split; [rewrite length_take; lia |].
    rewrite <- (take_drop_middle _ _ _ Hm) in Hsorted.
    apply StronglySorted_app in Hsorted as (Hcross & _ & Hright).
    split.
    + apply Forall_forall. intros x Hx. apply (Hcross x m Hx). left.
    + apply StronglySorted_inv in Hright as [_ Hall]. exact Hall.
Qed.

(** ** The sample ring as a sliding window *)

Lemma window_length s : buffer_ok s -> (length (window s) <= 8)%nat.
Proof.
  intros [Hlen Hi]. unfold window, ADC_SAMPLES in *.
  destruct (adc_buffer_filled s).
  - rewrite length_app, length_drop, length_take. lia.
  - rewrite length_take. lia.
Qed.

Lemma window_valid_samples s :
  buffer_ok s ->
  take (Z.to_nat (samples_to_use s)) (adc_buffer s) ≡ₚ window s
  /\ samples_to_use s = Z.of_nat (length (window s)).
Proof.
  intros [Hlen Hi]. unfold window, samples_to_use, ADC_SAMPLES in *.
  destruct (adc_buffer_filled s).
  - rewrite take_ge by lia. split.
    + rewrite Permutation_app_comm, take_drop. reflexivity.
    + rewrite length_app, length_drop, length_take. lia.
  - split; [reflexivity | rewrite length_take; lia].
Qed.

Lemma push_sample_window raw s :
  buffer_ok s ->
  exists s',
    push_sample raw s = Some s'
    /\ buffer_ok s'
    /\ window s' = last_n 8 (window s ++ [raw])
    /\ adc_control_active s' = adc_control_active s
    /\ adc_current_position s' = adc_current_position s
    /\ position_range s' = position_range s
    /\ last_adc_move s' = last_adc_move s
    /\ update_counter s' = update_counter s
    /\ trace s' = trace s.
Proof.
  intros [Hlen Hi]. unfold ADC_SAMPLES in *.
  destruct s as [act cur tgt rng lastm buf idx filled cnt tr].
  cbn [adc_buffer adc_buffer_index] in *.
  do 9 (destruct buf as [| ? buf]; try discriminate Hlen).
  assert (Hcases : idx = 0 \/ idx = 1 \/ idx = 2 \/ idx = 3 \/ idx = 4
                   \/ idx = 5 \/ idx = 6 \/ idx = 7) by lia.
  unfold buffer_ok, ADC_SAMPLES.
  destruct filled;
    repeat (destruct Hcases as [-> | Hcases]);
    try subst idx;
    (eexists; split; [reflexivity |]; cbn; repeat split;
     first [reflexivity | lia | apply Z.leb_le; reflexivity]).
Qed.

Lemma last_n_app_last {A} (w : list A) r rs :
  (length w <= 8)%nat ->
  last_n 8 (last_n 8 (w ++ [r]) ++ rs) = last_n 8 (w ++ r :: rs).
Proof.
  intros Hw. unfold last_n.
  replace (w ++ r :: rs) with ((w ++ [r]) ++ rs)
    by (rewrite <- app_assoc; reflexivity).
  set (x := w ++ [r]).
  assert (Hx : (length x <= 9)%nat)
    by (unfold x; rewrite length_app; simpl; lia).
  assert (Hd : (length x - 8 <= length x)%nat) by lia.
  rewrite <- (drop_app_le x rs _ Hd), drop_drop. f_equal.
  rewrite length_drop, !length_app. lia.
Qed.

Lemma push_all_window raws : forall s,
  buffer_ok s ->
  exists s',
    push_all raws s = Some s'
    /\ buffer_ok s'
    /\ window s' = last_n 8 (window s ++ raws)
    /\ adc_control_active s' = adc_control_active s
    /\ adc_current_position s' = adc_current_position s
    /\ position_range s' = position_range s
    /\ trace s' = trace s.
Proof.
  induction raws as [| raw raws IH]; intros s Hok.
  - exists s. split; [reflexivity |]. split; [exact Hok |].
    split; [| auto].
    rewrite app_nil_r. unfold last_n.
    pose proof (window_length s Hok).
    replace (length (window s) - 8)%nat with O by lia. reflexivity.
  - destruct (push_sample_window raw s Hok)
      as (s1 & Hpush & Hok1 & Hw1 & Ha & Hc & Hr & _ & _ & Ht).
    destruct (IH s1 Hok1) as (s' & Hrun & Hok' & Hw' & Ha' & Hc' & Hr' & Ht').
    exists s'. cbn [push_all]. rewrite Hpush. cbn [mbind option_bind].
    split; [exact Hrun |]. split; [exact Hok' |].
    split; [| repeat split; congruence].
    rewrite Hw', Hw1. apply last_n_app_last, window_length, Hok.
Qed.

Lemma last_n_app_long {A} (w raws : list A) :
  (8 <= length raws)%nat -> last_n 8 (w ++ raws) = last_n 8 raws.
Proof.
  intros H. unfold last_n. rewrite length_app.
  replace (length w + length raws - 8)%nat
    with (length w + (length raws - 8))%nat by lia.
  apply drop_app_add.
Qed.

Lemma filtered_value_window s :
  buffer_ok s -> window s <> [] ->
  exists m, filtered_value s = Some m /\ median (window s) = Some m.
Proof.
  intros Hok Hne.
  destruct (window_valid_samples s Hok) as [Hperm Hn].
  pose proof (window_length s Hok) as Hlen.
  assert (Hpos : (0 < length (window s))%nat)
    by (destruct (window s); [congruence | simpl; lia]).
  destruct Hok as [Hbuf _]. unfold ADC_SAMPLES in Hbuf.
  destruct (filtered_value_median s Hbuf ltac:(lia)) as (m & Hv & Hm).
  exists m. split; [exact Hv |].
  rewrite <- (median_Permutation _ _ Hperm). exact Hm.
Qed.

Lemma track_ring now raw_adc adcValue s :
  let s' := track now raw_adc adcValue s in
  adc_buffer s' = adc_buffer s
  /\ adc_buffer_index s' = adc_buffer_index s
  /\ adc_buffer_filled s' = adc_buffer_filled s
  /\ position_range s' = position_range s.
Proof.
  cbv zeta. unfold track. cbv zeta.
  set (err := wrap_i32 (adc_target_position s - adc_current_position s)).
  destruct (5 <? Arduino.abs err); [| auto].
  unfold for_lt.
  set (s0 := emit [WRITE Y_DIR_PIN (level_of (0 <? err)); DELAY_US 10]
               (emit [WRITE X_ENABLE_PIN LOW] s)).
  pose proof (iterate_invariant
                (fun x => adc_buffer x = adc_buffer s
                          /\ adc_buffer_index x = adc_buffer_index s
                          /\ adc_buffer_filled x = adc_buffer_filled s
                          /\ position_range x = position_range s)
                (track_step (0 <? err))
                (Z.to_nat (steps_to_move err)) 0 s0) as Hloop.
  cbv beta in Hloop.
  set (s1 := iterate (Z.to_nat (steps_to_move err)) 0
               (track_step (0 <? err)) s0) in *.
  assert (H1 : adc_buffer s1 = adc_buffer s
               /\ adc_buffer_index s1 = adc_buffer_index s
               /\ adc_buffer_filled s1 = adc_buffer_filled s
               /\ position_range s1 = position_range s).
  { apply Hloop; [| auto].
    intros i x Hx. unfold track_step. cbv zeta.
    destruct (Z.rem i 5 =? 0); exact Hx. }
  match goal with
  | |- context [if ?b then _ else _] => destruct b
  end; exact H1.
Qed.

Lemma window_ring s s' :
  adc_buffer s' = adc_buffer s ->
  adc_buffer_index s' = adc_buffer_index s ->
  adc_buffer_filled s' = adc_buffer_filled s ->
  window s' = window s.
Proof. unfold window. intros -> -> ->. reflexivity. Qed.
(** X10.  [bubble_sort n] returns on every array of at least [n] cells;
    it leaves in the first [n] cells a permutation of what they held,
    in non-decreasing order, and does not touch the cells after them. *)
Theorem bubble_sort_sorts_the_prefix n (a : list Z) :
  0 <= n <= Z.of_nat (length a) ->
  exists a',
    bubble_sort n a = Some a'
    /\ take (Z.to_nat n) a' ≡ₚ take (Z.to_nat n) a
    /\ StronglySorted Z.le (take (Z.to_nat n) a')
    /\ drop (Z.to_nat n) a' = drop (Z.to_nat n) a.
Proof. apply bubble_sort_sorts. Qed.

Lemma bubble_sort_sorts_the_prefix_witness :
  bubble_sort 4 [30; 10; 20; 5; 1] = Some [5; 10; 20; 30; 1].
Proof.
  destruct (bubble_sort_sorts_the_prefix 4 [30; 10; 20; 5; 1])
    as (a' & Hrun & _).
  - simpl. lia.
  - rewrite Hrun. vm_compute in Hrun. symmetry. exact Hrun.
Defined.


(** X11.  On a ring of 8 cells holding between 1 and 8 valid samples,
    [filtered_value] returns the median of the valid samples: the
    element of index [count / 2] once they are put in non-decreasing
    order, which is the upper of the two middle values when the count
    is even.  The value is one of the valid samples; [count / 2] of the
    others are not above it and the rest are not below it. *)
Theorem filtered_value_is_the_median s :
  length (adc_buffer s) = 8%nat ->
  1 <= samples_to_use s <= 8 ->
  exists m,
    filtered_value s = Some m
    /\ median (take (Z.to_nat (samples_to_use s)) (adc_buffer s)) = Some m
    /\ m ∈ take (Z.to_nat (samples_to_use s)) (adc_buffer s)
    /\ exists below above,
         take (Z.to_nat (samples_to_use s)) (adc_buffer s)
         ≡ₚ below ++ m :: above
         /\ length below
            = (length (take (Z.to_nat (samples_to_use s)) (adc_buffer s)) / 2)%nat
         /\ Forall (fun x => x <= m) below
         /\ Forall (fun x => m <= x) above.
Proof.
  intros Hlen Hn.
  destruct (filtered_value_median s Hlen Hn) as (m & Hv & Hm).
  destruct (median_bounds _ _ Hm) as (Hin & Hsplit).
  exists m. auto.
Qed.

Lemma filtered_value_is_the_median_witness :
  filtered_value
    (mkState false 0 0 6400 0 [7; 3; 9; 0; 0; 0; 0; 0] 3 false 0 [])
  = Some 7
  /\ median [7; 3; 9] = Some 7.
Proof.
  destruct (filtered_value_is_the_median
              (mkState false 0 0 6400 0 [7; 3; 9; 0; 0; 0; 0; 0] 3 false 0 []))
    as (m & Hv & Hm & _).
  - reflexivity.
  - vm_compute. split; discriminate.
  - vm_compute in Hm. injection Hm as <-. split; [exact Hv | reflexivity].
Defined.

Lemma push_sample_frame raw s s' :
  push_sample raw s = Some s' ->
  adc_control_active s' = adc_control_active s
  /\ adc_current_position s' = adc_current_position s
  /\ adc_target_position s' = adc_target_position s
  /\ position_range s' = position_range s
  /\ last_adc_move s' = last_adc_move s
  /\ update_counter s' = update_counter s
  /\ trace s' = trace s.
Proof.
  unfold push_sample. intros H.
  apply bind_Some in H as (buf & _ & H). injection H as <-.
  repeat split; reflexivity.
Qed.

Lemma push_all_frame raws : forall s s',
  push_all raws s = Some s' ->
  adc_control_active s' = adc_control_active s
  /\ adc_current_position s' = adc_current_position s
  /\ adc_target_position s' = adc_target_position s
  /\ position_range s' = position_range s
  /\ last_adc_move s' = last_adc_move s
  /\ update_counter s' = update_counter s
  /\ trace s' = trace s.
Proof.
  induction raws as [| raw raws IH]; intros s s' H.
  - injection H as <-. repeat split; reflexivity.
  - cbn [push_all] in H. apply bind_Some in H as (s1 & Hpush & H).
    destruct (push_sample_frame raw s s1 Hpush)
      as (Ha & Hc & Ht & Hr & Hm & Hu & Htr).
    destruct (IH s1 s' H) as (Ha' & Hc' & Ht' & Hr' & Hm' & Hu' & Htr').
    repeat split; congruence.
Qed.

(** X12.  The sample ring is a sliding window over the readings.  Read
    oldest first, the valid samples after pushing a sequence of
    readings are the last 8 of the earlier valid samples followed by
    the new readings: each push drops the oldest sample once 8 are
    held, and no other.  Pushing never fails on a well-formed ring,
    keeps it well formed, and changes nothing but the ring: the
    tracking flag, both positions, the range, the time of the last
    move, the feedback counter and the trace are as before. *)
Theorem sample_ring_is_a_sliding_window raws s :
  buffer_ok s ->
  exists s',
    push_all raws s = Some s'
    /\ buffer_ok s'
    /\ window s' = last_n 8 (window s ++ raws)
    /\ take (Z.to_nat (samples_to_use s')) (adc_buffer s') ≡ₚ window s'
    /\ samples_to_use s' = Z.of_nat (length (window s'))
    /\ adc_control_active s' = adc_control_active s
    /\ adc_current_position s' = adc_current_position s
    /\ adc_target_position s' = adc_target_position s
    /\ position_range s' = position_range s
    /\ last_adc_move s' = last_adc_move s
    /\ update_counter s' = update_counter s
    /\ trace s' = trace s.
Proof.
  intros Hok.
  destruct (push_all_window raws s Hok) as (s' & Hrun & Hok' & Hw & _).
  destruct (window_valid_samples s' Hok') as [Hperm Hn].
  destruct (push_all_frame raws s s' Hrun)
    as (Ha & Hc & Ht & Hr & Hm & Hu & Htr).
  exists s'. tauto.
Qed.

Lemma sample_ring_is_a_sliding_window_witness :
  exists s',
    push_all [1; 2; 3; 4; 5; 6; 7; 8; 9; 10] initial_state = Some s'
    /\ window s' = [3; 4; 5; 6; 7; 8; 9; 10].
Proof.
  destruct (sample_ring_is_a_sliding_window
              [1; 2; 3; 4; 5; 6; 7; 8; 9; 10] initial_state)
    as (s' & Hrun & _ & Hw & _).
  - split; [reflexivity | vm_compute; split; [discriminate | reflexivity]].
  - exists s'. split; [exact Hrun | exact Hw].
Defined.

(** X13.  After at least one reading has been pushed, the filtered
    value is the median of the last 8 values of the earlier valid
    samples followed by the readings pushed.  Once 8 readings have been
    pushed it is the median of the last 8 of them, whatever the ring
    held before. *)
Theorem filter_is_median_of_last_eight raws s :
  buffer_ok s -> raws <> [] ->
  exists s' m,
    push_all raws s = Some s'
    /\ filtered_value s' = Some m
    /\ median (last_n 8 (window s ++ raws)) = Some m
    /\ ((8 <= length raws)%nat -> median (last_n 8 raws) = Some m).
Proof.
  intros Hok Hne.
  destruct (push_all_window raws s Hok) as (s' & Hrun & Hok' & Hw & _).
  pose proof (window_length s Hok) as Hlen.
  assert (Hne' : window s' <> []).
  { rewrite Hw. unfold last_n. intros E.
    apply (f_equal length) in E. rewrite length_drop, length_app in E.
    destruct raws; [congruence |]. simpl in E. lia. }
  destruct (filtered_value_window s' Hok' Hne') as (m & Hv & Hm).
  exists s', m. rewrite <- Hw.
  split; [exact Hrun |]. split; [exact Hv |]. split; [exact Hm |].
  intros Hlong. rewrite <- (last_n_app_long (window s)), <- Hw by exact Hlong.
  exact Hm.
Qed.

Lemma filter_is_median_of_last_eight_witness :
  exists s',
    push_all [50; 10; 40; 20; 30; 60; 80; 70; 90] initial_state = Some s'
    /\ filtered_value s' = Some 60.
Proof.
  destruct (filter_is_median_of_last_eight
              [50; 10; 40; 20; 30; 60; 80; 70; 90] initial_state)
    as (s' & m & Hrun & Hv & _ & Hm).
  - split; [reflexivity | vm_compute; split; [discriminate | reflexivity]].
  - discriminate.
  - exists s'. split; [exact Hrun |].
    specialize (Hm ltac:(simpl; lia)). vm_compute in Hm.
    injection Hm as <-. exact Hv.
Defined.

(** X14.  A tick of the tracker that passes its two gates (tracking
    active, at least 10 ms since the last correction) on a well-formed
    ring always returns.  It pushes the 16-bit reading of the bed
    thermistor pin into the window and sets the target to the image,
    under [target_of], of the median of the window so obtained; the
    range is unchanged. *)
Theorem tick_targets_the_window_median e s :
  buffer_ok s ->
  adc_control_active s = true ->
  10 <= wrap_u32 (wrap_u32 (millis e) - last_adc_move s) ->
  exists s' m,
    manual_adc_control_y e s = Some s'
    /\ buffer_ok s'
    /\ window s'
       = last_n 8 (window s ++ [wrap_u16 (analogRead e TEMP_BED_PIN)])
    /\ median (window s') = Some m
    /\ adc_target_position s' = target_of m s
    /\ position_range s' = position_range s.
Proof.
  intros Hok Hact Hdue.
  set (raw := wrap_u16 (analogRead e TEMP_BED_PIN)).
  destruct (push_sample_window raw s Hok)
    as (s1 & Hpush & Hok1 & Hw1 & _ & _ & Hr1 & _).
  assert (Hne : window s1 <> []).
  { rewrite Hw1. unfold last_n. intros E.
    pose proof (window_length s Hok).
    apply (f_equal length) in E. rewrite length_drop, length_app in E.
    simpl in E. lia. }
  destruct (filtered_value_window s1 Hok1 Hne) as (m & Hv & Hm).
  set (s2 := set_target (target_of m s1) s1).
  destruct (track_ring (wrap_u32 (millis e)) raw m s2) as (Hb & Hi & Hf & Hr).
  destruct (track_frame (wrap_u32 (millis e)) raw m s2) as (Ht & _).
  exists (track (wrap_u32 (millis e)) raw m s2), m.
  assert (Hw : window (track (wrap_u32 (millis e)) raw m s2) = window s1)
    by (apply window_ring; assumption).
  split.
  { unfold manual_adc_control_y. rewrite Hact. cbn [negb].
    destruct (Z.ltb_spec (wrap_u32 (wrap_u32 (millis e) - last_adc_move s)) 10);
      [lia |].
    fold raw. rewrite Hpush. cbn [mbind option_bind].
    rewrite Hv. reflexivity. }
  split.
  { destruct Hok1 as [Hl1 Hi1]. split.
    - rewrite Hb. exact Hl1.
    - rewrite Hi. exact Hi1. }
  split; [rewrite Hw; exact Hw1 |].
  split; [rewrite Hw; exact Hm |].
  split.
  - rewrite Ht. unfold s2, target_of. cbn. rewrite Hr1. reflexivity.
  - rewrite Hr. exact Hr1.
Qed.

Lemma tick_targets_the_window_median_witness :
  exists s',
    manual_adc_control_y (mkEnv 10 (fun _ => 4095)) (adc_on initial_state)
    = Some s'
    /\ adc_target_position s' = 3200.
Proof.
  destruct (tick_targets_the_window_median
              (mkEnv 10 (fun _ => 4095)) (adc_on initial_state))
    as (s' & m & Hrun & _ & Hw & Hm & Ht & _).
  - split; [reflexivity | vm_compute; split; [discriminate | reflexivity]].
  - reflexivity.
  - vm_compute. discriminate.
  - exists s'. split; [exact Hrun |].
    rewrite Ht. rewrite Hw in Hm. vm_compute in Hm. injection Hm as <-. reflexivity.
Defined.

(** ** The thermistor report *)

Section Report.

Import F32.

Lemma f32_le_trans x y z : le x y = true -> le y z = true -> le x z = true.
Proof.
  destruct x as [a | [] |], y as [b | [] |], z as [c | [] |]; simpl;
    intros H1 H2; try discriminate H1; try discriminate H2;
    try reflexivity.
  apply Z.leb_le in H1, H2. apply Z.leb_le. lia.
Qed.

(** The voltage of a reading does not decrease with the reading. *)
Lemma voltage_of_mono a1 a2 :
  0 <= a1 <= a2 -> le (voltage_of a1) (voltage_of a2) = true.
Proof.
  intros Ha. unfold voltage_of, of_int, F_4095.
  assert (Hs : lt (Fin 0) V_SUPPLY = true) by reflexivity.
  destruct (Z.eq_dec a1 0) as [-> | Hne].
  - replace (mul (Fin (0 * 2 ^ 149)) V_SUPPLY) with (Fin 0)
      by (vm_compute; reflexivity).
    destruct (Z.eq_dec a2 0) as [-> | Hne2]; [reflexivity |].
    destruct (numerator_mono (a2 * 2 ^ 149) (a2 * 2 ^ 149) V_SUPPLY Hs
                ltac:(lia)) as [H0 _].
    apply quotient_mono; [reflexivity | exact H0 | lia].
  - destruct (numerator_mono (a1 * 2 ^ 149) (a2 * 2 ^ 149) V_SUPPLY Hs
                ltac:(lia)) as [H0 H12].
    apply quotient_mono; [exact H0 | exact H12 | lia].
Qed.

(** Between [0] and the supply voltage the resistance does not decrease
    with the voltage. *)
Lemma calculate_resistance_mono v1 v2 p :
  lt F_ZERO p = true ->
  lt F_ZERO v1 = true ->
  le v1 v2 = true ->
  lt v2 V_SUPPLY = true ->
  le (calculate_resistance v1 p) (calculate_resistance v2 p) = true.
Proof.
  intros Hp H1 H12 H2.
  unfold V_SUPPLY, F_ZERO in H1, H2, Hp.
  destruct v1 as [a1 | [] |]; simpl in H1; try discriminate H1;
    destruct v2 as [a2 | [] |]; simpl in H2, H12;
    try discriminate H2; try discriminate H12.
  pose proof V_SUPPLY_fixed as HS.
  unfold V_SUPPLY in HS.
  set (Vs := 2354958658936597111652325503254206231854710784) in *.
  apply Z.ltb_lt in H1, H2. apply Z.leb_le in H12.
  unfold calculate_resistance, F32.ge, V_SUPPLY, F_ZERO. fold Vs.
  simpl F32.le.
  destruct (Z.leb_spec Vs a1); [lia |].
  destruct (Z.leb_spec Vs a2); [lia |].
  destruct (Z.leb_spec a1 0); [lia |].
  destruct (Z.leb_spec a2 0); [lia |].
  destruct (numerator_mono a1 a2 p Hp ltac:(lia)) as [Hn0 Hn].
  unfold F32.sub, F32.round.
  destruct (Z.leb_spec 0 (Vs - a1)); [| lia].
  destruct (Z.leb_spec 0 (Vs - a2)); [| lia].
  destruct (supply_minus_cases Vs a1 HS ltac:(lia)) as (y1 & Hy1 & E1).
  destruct (supply_minus_cases Vs a2 HS ltac:(lia)) as (y2 & Hy2 & E2).
  pose proof (round_pos_mono (Vs - a2) 1 (Vs - a1) 1
                ltac:(lia) ltac:(lia) ltac:(lia)) as Hd.
  rewrite E1, E2 in *. simpl in Hd. apply Z.leb_le in Hd.
  apply quotient_mono; [assumption | assumption | lia].
Qed.

Lemma f32_lt_le_trans x y z : lt x y = true -> le y z = true -> lt x z = true.
Proof.
  destruct x as [a | [] |], y as [b | [] |], z as [c | [] |]; simpl;
    intros H1 H2; try discriminate H1; try discriminate H2;
    try reflexivity.
  apply Z.ltb_lt in H1. apply Z.leb_le in H2. apply Z.ltb_lt. lia.
Qed.

Lemma f32_le_lt_trans x y z : le x y = true -> lt y z = true -> lt x z = true.
Proof.
  destruct x as [a | [] |], y as [b | [] |], z as [c | [] |]; simpl;
    intros H1 H2; try discriminate H1; try discriminate H2;
    try reflexivity.
  apply Z.leb_le in H1. apply Z.ltb_lt in H2. apply Z.ltb_lt. lia.
Qed.

(** Readings from 1 to 4094 give a voltage strictly between 0 and the
    supply voltage. *)
Lemma voltage_of_inside a :
  1 <= a <= 4094 ->
  lt F_ZERO (voltage_of a) = true /\ lt (voltage_of a) V_SUPPLY = true.
Proof.
  intros Ha.
  pose proof (voltage_of_mono 1 a ltac:(lia)) as Hlo.
  pose proof (voltage_of_mono a 4094 ltac:(lia)) as Hhi.
  assert (E1 : lt F_ZERO (voltage_of 1) = true) by (vm_compute; reflexivity).
  assert (E2 : lt (voltage_of 4094) V_SUPPLY = true)
    by (vm_compute; reflexivity).
  split.
  - exact (f32_lt_le_trans _ _ _ E1 Hlo).
  - exact (f32_le_lt_trans _ _ _ Hhi E2).
Qed.

Lemma resistance_of_mono a1 a2 :
  1 <= a1 <= a2 -> a2 <= 4094 ->
  le (resistance_of a1) (resistance_of a2) = true.
Proof.
  intros H1 H2. unfold resistance_of.
  apply calculate_resistance_mono.
  - reflexivity.
  - apply voltage_of_inside. lia.
  - apply voltage_of_mono. lia.
  - apply voltage_of_inside. lia.
Qed.

(** From full scale on the voltage is at least the supply voltage. *)
Lemma resistance_of_full_scale a :
  4095 <= a -> resistance_of a = F_ZERO.
Proof.
  intros Ha. unfold resistance_of, calculate_resistance.
  pose proof (voltage_of_mono 4095 a ltac:(lia)) as H.
  replace (voltage_of 4095) with V_SUPPLY in H by (vm_compute; reflexivity).
  unfold ge. rewrite H. reflexivity.
Qed.

Lemma f32_le_not_lt x y : le x y = true -> lt y x = false.
Proof.
  destruct x as [a | [] |], y as [b | [] |]; simpl; intros H;
    try discriminate H; try reflexivity.
  apply Z.leb_le in H. apply Z.ltb_ge. lia.
Qed.

Lemma f32_lt_not_le x y : lt x y = true -> le y x = false.
Proof.
  destruct x as [a | [] |], y as [b | [] |]; simpl; intros H;
    try discriminate H; try reflexivity.
  apply Z.ltb_lt in H. apply Z.leb_gt. lia.
Qed.

Lemma f32_lt_le x y : lt x y = true -> le x y = true.
Proof.
  destruct x as [a | [] |], y as [b | [] |]; simpl; intros H;
    try discriminate H; try reflexivity.
  apply Z.ltb_lt in H. apply Z.leb_le. lia.
Qed.

(** The branch the report takes, by reading. *)
Lemma report_resistance_by_reading a :
  0 <= a -> report_resistance a = report_of a.
Proof.
  intros Ha. unfold report_resistance, report_of. cbv zeta.
  fold (voltage_of a). fold (resistance_of a). f_equal.
  unfold resistance_text.
  destruct (Z.eqb_spec a 0) as [-> | Hne].
  { replace (resistance_of 0) with F_OPEN by (vm_compute; reflexivity).
    reflexivity. }
  assert (H1000 : lt F_1000 F_OPEN = true) by reflexivity.
  assert (H1 : lt F_ONE F_1000 = true) by reflexivity.
  destruct (Z.leb_spec a 718) as [H718 | H718].
  { pose proof (resistance_of_mono 1 a ltac:(lia) ltac:(lia)) as Hlo.
    pose proof (resistance_of_mono a 718 ltac:(lia) ltac:(lia)) as Hhi.
    assert (E1 : le F_ONE (resistance_of 1) = true)
      by (vm_compute; reflexivity).
    assert (E2 : lt (resistance_of 718) F_1000 = true)
      by (vm_compute; reflexivity).
    pose proof (f32_le_lt_trans _ _ _ Hhi E2) as Hr.
    unfold gt, ge.
    rewrite (f32_le_not_lt _ _
               (f32_lt_le _ _ (f32_lt_le_trans _ _ _ Hr (f32_lt_le _ _ H1000)))).
    rewrite (f32_le_not_lt _ _ (f32_le_trans _ _ _ E1 Hlo)).
    rewrite (f32_lt_not_le _ _ Hr). reflexivity. }
  destruct (Z.leb_spec a 4075) as [H4075 | H4075].
  { pose proof (resistance_of_mono 719 a ltac:(lia) ltac:(lia)) as Hlo.
    pose proof (resistance_of_mono a 4075 ltac:(lia) ltac:(lia)) as Hhi.
    assert (E1 : le F_1000 (resistance_of 719) = true)
      by (vm_compute; reflexivity).
    assert (E2 : le (resistance_of 4075) F_OPEN = true)
      by (vm_compute; reflexivity).
    pose proof (f32_le_trans _ _ _ E1 Hlo) as Hr.
    unfold gt, ge.
    rewrite (f32_le_not_lt _ _ (f32_le_trans _ _ _ Hhi E2)).
    rewrite (f32_le_not_lt _ _ (f32_le_trans _ _ _ (f32_lt_le _ _ H1) Hr)).
    rewrite Hr. reflexivity. }
  destruct (Z.leb_spec a 4094) as [H4094 | H4094].
  { pose proof (resistance_of_mono 4076 a ltac:(lia) ltac:(lia)) as Hlo.
    assert (E1 : lt F_OPEN (resistance_of 4076) = true)
      by (vm_compute; reflexivity).
    unfold gt. rewrite (f32_lt_le_trans _ _ _ E1 Hlo). reflexivity. }
  rewrite resistance_of_full_scale by lia. reflexivity.
Qed.

End Report.

(** X15.  What the two thermistor readers report, by the 16-bit reading
    of their pin: after the label, the reading and its voltage, the
    resistance is printed in ohms for readings 1 to 718, in kilo-ohms
    for readings 719 to 4075, as OPEN for readings 4076 to 4094 and as
    SHORT from 4095 on.  A reading of 0 is printed as the open-circuit
    value in kilo-ohms, 999999 / 1000, and not as OPEN.  Nothing but
    the trace changes. *)
Theorem thermistor_report_by_reading e s :
  manual_read_hotend_thermistor e s
  = emit (SERIAL_ECHO (Text "Hotend ADC Input - ADC: ")
            :: report_of (wrap_u16 (analogRead e TEMP_0_PIN))) s
  /\ manual_read_bed_thermistor e s
     = emit (SERIAL_ECHO (Text "Bed ADC Input - ADC: ")
               :: report_of (wrap_u16 (analogRead e TEMP_BED_PIN))) s.
Proof.
  unfold manual_read_hotend_thermistor, manual_read_bed_thermistor.
  cbv zeta.
  rewrite !report_resistance_by_reading
    by (unfold wrap_u16; apply Z.mod_pos_bound; reflexivity).
  split; reflexivity.
Qed.

(** ** The line assembler *)

Lemma c_str_idem p : c_str (c_str p) = c_str p.
Proof.
  induction p as [| c r IH]; cbn [c_str]; [reflexivity |].
  destruct (is_nul c) eqn:E; cbn [c_str]; [reflexivity |].
  rewrite E, IH. reflexivity.
Qed.

Lemma ptr_add_c_str n : forall p, ptr_add (c_str p) n = c_str <$> ptr_add p n.
Proof.
  induction n as [| n IH]; intros p; cbn [ptr_add]; [reflexivity |].
  destruct p as [| c r]; cbn [c_str]; [reflexivity |].
  destruct (is_nul c) eqn:E; [reflexivity |].
  rewrite E. apply IH.
Qed.

Lemma deref_c_str p : is_nul (deref (c_str p)) = is_nul (deref p).
Proof.
  destruct p as [| c r]; cbn [c_str deref]; [reflexivity |].
  destruct (is_nul c) eqn:E; cbn [deref]; [reflexivity | exact E].
Qed.

Lemma read_digits_c_str wrap p : forall acc,
  read_digits wrap (c_str p) acc = read_digits wrap p acc.
Proof.
  induction p as [| c r IH]; intros acc; cbn [c_str read_digits];
    [reflexivity |].
  destruct (is_nul c) eqn:E; cbn [read_digits].
  - destruct (is_digit c) eqn:D; [| reflexivity].
    rewrite (digit_not_nul c D) in E. discriminate E.
  - destruct (is_digit c); [apply IH | reflexivity].
Qed.

Lemma strcmp_c_str p lit : strcmp (c_str p) lit = strcmp p lit.
Proof. unfold strcmp. rewrite c_str_idem. reflexivity. Qed.

Lemma strncmp_c_str p lit n : strncmp (c_str p) lit n = strncmp p lit n.
Proof. unfold strncmp. rewrite c_str_idem. reflexivity. Qed.

Lemma parse_steps_c_str p d : parse_steps (c_str p) d = parse_steps p d.
Proof.
  unfold parse_steps. rewrite ptr_add_c_str.
  destruct (ptr_add p 2) as [q |]; simpl; [| reflexivity].
  rewrite deref_c_str, read_digits_c_str. reflexivity.
Qed.

Lemma adc_set_range_c_str p s : adc_set_range (c_str p) s = adc_set_range p s.
Proof.
  unfold adc_set_range. rewrite ptr_add_c_str.
  destruct (ptr_add p 9) as [q |]; simpl; [| reflexivity].
  rewrite deref_c_str, read_digits_c_str. reflexivity.
Qed.

(** A command is the text before the terminator: what follows the first
    NUL of the buffer has no effect. *)
Lemma process_manual_command_c_str e p s :
  process_manual_command e (c_str p) s = process_manual_command e p s.
Proof.
  unfold process_manual_command, jog, strlen.
  rewrite !strcmp_c_str, !strncmp_c_str, !parse_steps_c_str,
    adc_set_range_c_str, !c_str_idem.
  reflexivity.
Qed.

Lemma printable_not_nul c : is_printable c = true -> is_nul c = false.
Proof.
  unfold is_printable, is_nul. intros H.
  destruct (Ascii.eqb_spec c nul) as [-> |]; [| reflexivity].
  vm_compute in H. discriminate H.
Qed.

Lemma printable_not_newline c : is_printable c = true -> is_newline c = false.
Proof.
  unfold is_printable, is_newline. intros H.
  destruct (Ascii.eqb_spec c "010") as [-> |];
    [vm_compute in H; discriminate H |].
  destruct (Ascii.eqb_spec c "013") as [-> |];
    [vm_compute in H; discriminate H |].
  reflexivity.
Qed.

Lemma string_of_list_ascii_snoc l c :
  string_of_list_ascii (l ++ [c])
  = (string_of_list_ascii l ++ String c EmptyString)%string.
Proof. induction l as [| a l IH]; simpl; [| rewrite IH]; reflexivity. Qed.

Lemma string_of_list_ascii_length l :
  String.length (string_of_list_ascii l) = length l.
Proof. induction l as [| a l IH]; simpl; [| rewrite IH]; reflexivity. Qed.

(** The text before the terminator written at the end of line is the
    pending text. *)
Lemma c_str_terminated l rest :
  Forall (fun c => is_printable c = true) l ->
  c_str (string_of_list_ascii (l ++ nul :: rest)) = string_of_list_ascii l.
Proof.
  induction 1 as [| c l Hc _ IH]; simpl; [reflexivity |].
  rewrite (printable_not_nul c Hc), IH. reflexivity.
Qed.

Lemma pending_length t :
  task_ok t -> Z.of_nat (String.length (pending t)) = buffer_pos t.
Proof.
  intros (Hlen & Hpos & _). unfold pending, COMMAND_BUFFER_SIZE in *.
  rewrite string_of_list_ascii_length, length_take. lia.
Qed.

Lemma char_set_Some a i c :
  0 <= i < Z.of_nat (length a) ->
  char_set a i c = Some (<[Z.to_nat i := c]> a).
Proof.
  intros Hi. unfold char_set.
  destruct (Z.leb_spec 0 i); [| lia].
  destruct (Z.ltb_spec i (Z.of_nat (length a))); [reflexivity | lia].
Qed.

(** One byte: the buffer is never written out of bounds, and the code
    does what the assembler on texts does. *)
Lemma task_byte_refines e c t :
  task_ok t ->
  exists t',
    task_byte e c t = Some t'
    /\ task_ok t'
    /\ line_byte e c (core t, pending t) = Some (core t', pending t').
Proof.
  intros Hok. pose proof (pending_length t Hok) as Hpl.
  destruct Hok as (Hlen & Hpos & Hall).
  unfold COMMAND_BUFFER_SIZE in Hlen.
  unfold task_byte, line_byte. cbn [fst snd]. rewrite Hpl.
  destruct (is_newline c).
  - destruct (Z.ltb_spec 0 (buffer_pos t)) as [Hp | Hp].
    + rewrite char_set_Some by lia. cbn [mbind option_bind].
      assert (Hcmd : c_str (string_of_list_ascii
                              (<[Z.to_nat (buffer_pos t) := nul]>
                                 (command_buffer t)))
                     = pending t).
      { rewrite insert_take_drop by lia. apply c_str_terminated, Hall. }
      rewrite <- process_manual_command_c_str, Hcmd.
      destruct (process_manual_command_frame e (pending t) (core t))
        as (s' & Hrun & _).
      rewrite Hrun. cbn [mbind option_bind].
      eexists. split; [reflexivity |]. split; [| reflexivity].
      unfold task_ok, COMMAND_BUFFER_SIZE. cbn [command_buffer buffer_pos].
      rewrite length_insert.
      split; [exact Hlen |]. split; [lia | constructor].
    + exists t. split; [reflexivity |]. split; [| reflexivity].
      unfold task_ok, COMMAND_BUFFER_SIZE. auto.
  - destruct (is_printable c) eqn:Hc; cbn [andb].
    + destruct (Z.ltb_spec (buffer_pos t) 31) as [Hp | Hp].
      * rewrite char_set_Some by lia. cbn [mbind option_bind].
        assert (Hw : wrap_u8 (buffer_pos t + 1) = buffer_pos t + 1).
        { unfold wrap_u8. apply Z.mod_small. lia. }
        assert (Htake : take (Z.to_nat (buffer_pos t + 1))
                          (<[Z.to_nat (buffer_pos t) := c]> (command_buffer t))
                        = take (Z.to_nat (buffer_pos t)) (command_buffer t)
                          ++ [c]).
        { replace (Z.to_nat (buffer_pos t + 1))
            with (S (Z.to_nat (buffer_pos t))) by lia.
          rewrite (take_S_r _ _ c)
            by (apply list_lookup_insert_eq; lia).
          rewrite take_insert_ge by lia. reflexivity. }
        eexists. split; [reflexivity |].
        unfold task_ok, pending, COMMAND_BUFFER_SIZE.
        cbn [core command_buffer buffer_pos].
        rewrite Hw, Htake, length_insert, string_of_list_ascii_snoc.
        split; [| reflexivity].
        split; [exact Hlen |]. split; [lia |].
        apply Forall_app. split; [exact Hall | repeat constructor; exact Hc].
      * exists t. split; [reflexivity |]. split; [| reflexivity].
        unfold task_ok, COMMAND_BUFFER_SIZE. auto.
    + exists t. split; [reflexivity |]. split; [| reflexivity].
      unfold task_ok, COMMAND_BUFFER_SIZE. auto.
Qed.

Lemma drain_refines rx : forall t,
  task_ok t ->
  exists t',
    drain rx t = Some t'
    /\ task_ok t'
    /\ line_run rx (core t, pending t) = Some (core t', pending t').
Proof.
  induction rx as [| [e c] rx IH]; intros t Hok.
  - exists t. auto.
  - destruct (task_byte_refines e c t Hok) as (t1 & Hstep & Hok1 & Hline).
    destruct (IH t1 Hok1) as (t' & Hrun & Hok' & Hlines).
    exists t'. cbn [drain line_run]. rewrite Hstep, Hline.
    cbn [mbind option_bind]. auto.
Qed.

Lemma take_chars_app_full n : forall p q,
  (n <= String.length p)%nat ->
  take_chars n (p ++ q)%string = take_chars n p.
Proof.
  induction n as [| n IH]; intros p q Hn; [destruct p; reflexivity |].
  destruct p as [| c r]; simpl in Hn; [lia |].
  simpl. rewrite IH by lia. reflexivity.
Qed.

Lemma take_chars_short n : forall p,
  (String.length p <= n)%nat -> take_chars n p = p.
Proof.
  induction n as [| n IH]; intros [| c r] Hn; simpl in *;
    try reflexivity; [lia |].
  rewrite IH by lia. reflexivity.
Qed.

Lemma string_app_assoc (p q r : string) :
  ((p ++ q) ++ r)%string = (p ++ (q ++ r))%string.
Proof. induction p as [| c p IH]; simpl; [| rewrite IH]; reflexivity. Qed.

Lemma string_app_length (p q : string) :
  String.length (p ++ q)%string = (String.length p + String.length q)%nat.
Proof. induction p as [| c p IH]; simpl; [| rewrite IH]; reflexivity. Qed.

(** Printable characters accumulate, up to 31 of them. *)
Lemma line_run_printable rx : forall s p,
  Forall (fun ec => is_printable ec.2 = true) rx ->
  (String.length p <= 31)%nat ->
  line_run rx (s, p)
  = Some (s, take_chars 31 (p ++ string_of_list_ascii rx.*2)%string).
Proof.
  induction rx as [| [e c] rx IH]; intros s p Hall Hp.
  - cbn [line_run fmap list_fmap string_of_list_ascii].
    replace (p ++ "")%string with p
      by (clear; induction p as [| c p IH]; simpl; [| rewrite <- IH]; reflexivity).
    rewrite take_chars_short by exact Hp. reflexivity.
  - apply Forall_cons in Hall as [Hc Hall]. cbn [snd] in Hc.
    cbn [line_run]. unfold line_byte. cbn [fst snd].
    rewrite (printable_not_newline c Hc), Hc. cbn [andb].
    destruct (Z.ltb_spec (Z.of_nat (String.length p)) 31) as [Hlt | Hge];
      cbn [mbind option_bind].
    + rewrite IH by (try assumption; rewrite string_app_length; simpl; lia).
      cbn [fmap list_fmap snd string_of_list_ascii].
      rewrite string_app_assoc. reflexivity.
    + rewrite IH by assumption.
      cbn [fmap list_fmap snd string_of_list_ascii].
      rewrite !take_chars_app_full by lia. reflexivity.
Qed.

Lemma line_run_app rx1 : forall rx2 st,
  line_run (rx1 ++ rx2) st = (st' ← line_run rx1 st; line_run rx2 st').
Proof.
  induction rx1 as [| [e c] rx1 IH]; intros rx2 st; [reflexivity |].
  cbn [app line_run]. destruct (line_byte e c st) as [st1 |];
    cbn [mbind option_bind]; [apply IH | reflexivity].
Qed.

Lemma drain_app rx1 : forall rx2 t,
  drain (rx1 ++ rx2) t = (t' ← drain rx1 t; drain rx2 t').
Proof.
  induction rx1 as [| [e c] rx1 IH]; intros rx2 t; [reflexivity |].
  cbn [app drain]. destruct (task_byte e c t) as [t1 |];
    cbn [mbind option_bind]; [apply IH | reflexivity].
Qed.

Lemma initial_task_ok : task_ok initial_task /\ buffer_ok (core initial_task).
Proof.
  split.
  - split; [reflexivity |]. split; [cbn; lia | constructor].
  - split; [reflexivity | cbn; unfold ADC_SAMPLES; lia].
Qed.

Lemma process_manual_command_buffer_ok e command s s' :
  buffer_ok s -> process_manual_command e command s = Some s' -> buffer_ok s'.
Proof.
  intros [Hlen Hi] Hrun.
  destruct (process_manual_command_frame e command s)
    as (s'' & Hrun' & (Hb & Hidx & _) & _).
  rewrite Hrun in Hrun'. injection Hrun' as <-.
  unfold buffer_ok. rewrite Hb, Hidx. auto.
Qed.

Lemma manual_adc_control_y_buffer_ok e s :
  buffer_ok s ->
  exists s', manual_adc_control_y e s = Some s' /\ buffer_ok s'.
Proof.
  intros Hok.
  destruct (manual_adc_control_y_total e s Hok) as [s' Hrun].
  exists s'. split; [exact Hrun |].
  destruct (manual_adc_control_y_cases e s s' Hrun)
    as [-> | (_ & _ & s1 & v & Hpush & _ & ->)]; [exact Hok |].
  destruct (push_sample_window (wrap_u16 (analogRead e TEMP_BED_PIN)) s Hok)
    as (s1' & Hpush' & Hok1 & _).
  rewrite Hpush in Hpush'. injection Hpush' as <-.
  destruct (track_ring (wrap_u32 (millis e))
              (wrap_u16 (analogRead e TEMP_BED_PIN)) v
              (set_target (target_of v s1) s1)) as (Hb & Hi & _).
  destruct Hok1 as [Hl1 Hi1]. split.
  - rewrite Hb. exact Hl1.
  - rewrite Hi. exact Hi1.
Qed.

Lemma drain_buffer_ok rx : forall t t',
  buffer_ok (core t) -> drain rx t = Some t' -> buffer_ok (core t').
Proof.
  induction rx as [| [e c] rx IH]; intros t t' Hok Hrun.
  - injection Hrun as <-. exact Hok.
  - cbn [drain] in Hrun. apply bind_Some in Hrun as (t1 & Hstep & Hrun).
    apply (IH t1 t'); [| exact Hrun].
    unfold task_byte in Hstep.
    destruct (is_newline c).
    + destruct (0 <? buffer_pos t); [| congruence].
      apply bind_Some in Hstep as (buf & _ & Hstep).
      apply bind_Some in Hstep as (s & Hcmd & Hstep).
      injection Hstep as <-.
      exact (process_manual_command_buffer_ok _ _ _ _ Hok Hcmd).
    + destruct (is_printable c && (buffer_pos t <? 31)); [| congruence].
      apply bind_Some in Hstep as (buf & _ & Hstep).
      injection Hstep as <-. exact Hok.
Qed.

Lemma manual_control_task_safe e rx t :
  task_ok t -> buffer_ok (core t) ->
  exists s1 t',
    manual_adc_control_y e (core t) = Some s1
    /\ manual_control_task e rx t = Some t'
    /\ task_ok t' /\ buffer_ok (core t')
    /\ line_run rx (s1, pending t) = Some (core t', pending t').
Proof.
  intros Hok Hbuf.
  destruct (manual_adc_control_y_buffer_ok e (core t) Hbuf)
    as (s1 & Htick & Hbuf1).
  destruct (drain_refines rx (mkTask s1 (command_buffer t) (buffer_pos t)) Hok)
    as (t' & Hrun & Hok' & Hline).
  exists s1, t'. unfold manual_control_task. rewrite Htick.
  cbn [mbind option_bind].
  split; [reflexivity |]. split; [exact Hrun |]. split; [exact Hok' |].
  split; [| exact Hline].
  exact (drain_buffer_ok rx
           (mkTask s1 (command_buffer t) (buffer_pos t)) t' Hbuf1 Hrun).
Qed.

(** X16.  A call of [manual_control_task] on a well-formed state always
    returns and leaves the state well formed: it first runs the tracker
    tick, then handles the received bytes as the line assembler on
    texts does.  An end of line runs the pending text as a command, if
    there is one; a printable character joins the pending text while
    it has fewer than 31 characters; every other byte is dropped.  What
    the buffer holds after the terminator has no effect. *)
Theorem manual_control_task_is_a_line_assembler e rx t :
  task_ok t -> buffer_ok (core t) ->
  exists s1 t',
    manual_adc_control_y e (core t) = Some s1
    /\ manual_control_task e rx t = Some t'
    /\ task_ok t' /\ buffer_ok (core t')
    /\ line_run rx (s1, pending t) = Some (core t', pending t').
Proof. apply manual_control_task_safe. Qed.

Lemma manual_control_task_is_a_line_assembler_witness :
  exists t',
    manual_control_task (mkEnv 0 (fun _ => 0))
      [(mkEnv 0 (fun _ => 0), "o"%char); (mkEnv 0 (fun _ => 0), "n"%char);
       (mkEnv 0 (fun _ => 0), "010"%char); (mkEnv 0 (fun _ => 0), "h"%char)]
      initial_task = Some t'
    /\ pending t' = "h"%string
    /\ last_write X_ENABLE_PIN (trace (core t')) = Some LOW.
Proof.
  destruct (manual_control_task_is_a_line_assembler
              (mkEnv 0 (fun _ => 0))
              [(mkEnv 0 (fun _ => 0), "o"%char);
               (mkEnv 0 (fun _ => 0), "n"%char);
               (mkEnv 0 (fun _ => 0), "010"%char);
               (mkEnv 0 (fun _ => 0), "h"%char)]
              initial_task)
    as (s1 & t' & Htick & Hrun & _ & _ & Hline).
  - apply initial_task_ok.
  - apply initial_task_ok.
  - vm_compute in Htick. injection Htick as <-.
    exists t'. split; [exact Hrun |].
    remember (core t') as ct eqn:Ec. remember (pending t') as pt eqn:Ep.
    clear Ec Ep.
    vm_compute in Hline. injection Hline as <- <-.
    split; reflexivity.
Defined.

(** X17.  A run of printable characters followed by an end of line
    (line feed or carriage return) runs exactly one command: the
    pending text followed by those characters, cut to its first 31
    characters, with the environment in force at the end of line.
    Nothing is pending afterwards. *)
Theorem line_runs_its_first_31_characters e nl rx t :
  task_ok t ->
  Forall (fun ec => is_printable ec.2 = true) rx ->
  is_newline nl = true ->
  (0 < String.length (pending t) + length rx)%nat ->
  exists t',
    drain (rx ++ [(e, nl)]) t = Some t'
    /\ process_manual_command e
         (take_chars 31 (pending t ++ string_of_list_ascii rx.*2)%string)
         (core t)
       = Some (core t')
    /\ buffer_pos t' = 0
    /\ pending t' = EmptyString.
Proof.
  intros Hok Hall Hnl Hne.
  destruct (drain_refines (rx ++ [(e, nl)]) t Hok) as (t' & Hrun & Hok' & Hline).
  pose proof (pending_length t Hok) as Hpl.
  assert (Hp31 : (String.length (pending t) <= 31)%nat)
    by (destruct Hok as (_ & Hpos & _); lia).
  rewrite line_run_app, (line_run_printable rx _ _ Hall Hp31) in Hline.
  cbn [mbind option_bind line_run] in Hline.
  unfold line_byte in Hline. cbn [fst snd] in Hline.
  rewrite Hnl, take_chars_length, string_app_length,
    string_of_list_ascii_length, length_fmap in Hline.
  destruct (Z.ltb_spec 0
              (Z.of_nat (31 `min` (String.length (pending t) + length rx))))
    as [_ | Hz]; [| lia].
  destruct (process_manual_command e
              (take_chars 31 (pending t ++ string_of_list_ascii rx.*2)%string)
              (core t)) as [s |] eqn:Hcmd;
    cbn [mbind option_bind] in Hline; [| discriminate Hline].
  injection Hline as Hc Hp.
  exists t'. split; [exact Hrun |]. split; [congruence |].
  pose proof (pending_length t' Hok') as Hpl'.
  rewrite <- Hp in Hpl'. cbn in Hpl'. split; [lia | congruence].
Qed.

Lemma line_runs_its_first_31_characters_witness :
  exists t',
    drain [(mkEnv 0 (fun _ => 0), "o"%char); (mkEnv 0 (fun _ => 0), "f"%char);
           (mkEnv 0 (fun _ => 0), "f"%char); (mkEnv 7 (fun _ => 0), "013"%char)]
      initial_task = Some t'
    /\ process_manual_command (mkEnv 7 (fun _ => 0)) "off" initial_state
       = Some (core t').
Proof.
  destruct (line_runs_its_first_31_characters
              (mkEnv 7 (fun _ => 0)) "013"%char
              [(mkEnv 0 (fun _ => 0), "o"%char);
               (mkEnv 0 (fun _ => 0), "f"%char);
               (mkEnv 0 (fun _ => 0), "f"%char)]
              initial_task)
    as (t' & Hrun & Hcmd & _).
  - apply initial_task_ok.
  - repeat constructor.
  - reflexivity.
  - simpl. lia.
  - exists t'. split; [exact Hrun | exact Hcmd].
Defined.

(** X18.  What the line assembler ignores.  Bytes that are neither
    printable (32 to 126) nor an end of line can be removed from the
    input without changing the result; and an end of line that
    directly follows another does nothing, so a line ended by carriage
    return and line feed runs its command once. *)
Theorem noise_and_empty_lines_are_ignored :
  (forall rx t,
     drain rx t = drain (List.filter (fun ec => negb (is_noise ec.2)) rx) t)
  /\ (forall rx e1 c1 e2 c2 t,
        task_ok t ->
        is_newline c1 = true -> is_newline c2 = true ->
        drain (rx ++ [(e1, c1); (e2, c2)]) t = drain (rx ++ [(e1, c1)]) t).
Proof.
  split.
  - induction rx as [| [e c] rx IH]; intros t; [reflexivity |].
    cbn [List.filter snd]. unfold is_noise.
    destruct (is_newline c) eqn:Hn; cbn [negb andb].
    + cbn [drain]. destruct (task_byte e c t); cbn [mbind option_bind];
        [apply IH | reflexivity].
    + destruct (is_printable c) eqn:Hp; cbn [negb].
      * cbn [drain]. destruct (task_byte e c t); cbn [mbind option_bind];
          [apply IH | reflexivity].
      * cbn [drain]. unfold task_byte at 1. rewrite Hn, Hp.
        cbn [andb mbind option_bind]. apply IH.
  - intros rx e1 c1 e2 c2 t Hok H1 H2.
    rewrite !drain_app.
    destruct (drain_refines rx t Hok) as (t1 & -> & Hok1 & _).
    cbn [mbind option_bind drain].
    destruct (task_byte_refines e1 c1 t1 Hok1) as (t2 & -> & Hok2 & Hline).
    cbn [mbind option_bind].
    assert (Hpos : buffer_pos t2 = 0).
    { pose proof (pending_length t1 Hok1) as Hpl1.
      pose proof (pending_length t2 Hok2) as Hpl2.
      unfold line_byte in Hline. cbn [fst snd] in Hline. rewrite H1 in Hline.
      destruct (Z.ltb_spec 0 (Z.of_nat (String.length (pending t1)))).
      - apply bind_Some in Hline as (s & _ & Hline).
        injection Hline as _ Hp. rewrite <- Hp in Hpl2. cbn in Hpl2. lia.
      - injection Hline as _ Hp. rewrite <- Hp in Hpl2. lia. }
    unfold task_byte. rewrite H2, Hpos. reflexivity.
Qed.

Lemma noise_and_empty_lines_are_ignored_witness :
  drain [(mkEnv 0 (fun _ => 0), "o"%char); (mkEnv 0 (fun _ => 0), "n"%char);
         (mkEnv 0 (fun _ => 0), "013"%char); (mkEnv 0 (fun _ => 0), "010"%char)]
    initial_task
  = drain [(mkEnv 0 (fun _ => 0), "o"%char); (mkEnv 0 (fun _ => 0), "n"%char);
           (mkEnv 0 (fun _ => 0), "013"%char)]
      initial_task.
Proof.
  apply (proj2 noise_and_empty_lines_are_ignored
           [(mkEnv 0 (fun _ => 0), "o"%char); (mkEnv 0 (fun _ => 0), "n"%char)]
           (mkEnv 0 (fun _ => 0)) "013"%char
           (mkEnv 0 (fun _ => 0)) "010"%char initial_task).
  - apply initial_task_ok.
  - reflexivity.
  - reflexivity.
Defined.

(** X19.  From reset the main loop never leaves the defined behaviour:
    whatever the clock and the analog inputs read and whatever bytes
    arrive, every call of the task returns, every access to the sample
    ring, to the scratch array of the filter and to the command buffer
    is within bounds, and every pointer into the command stays within
    its text.  The pending text never exceeds 31 characters. *)
Theorem main_loop_stays_defined calls :
  exists t',
    task_calls calls initial_task = Some t'
    /\ task_ok t'
    /\ buffer_ok (core t')
    /\ (String.length (pending t') <= 31)%nat.
Proof.
  assert (H : forall t, task_ok t -> buffer_ok (core t) ->
                        exists t', task_calls calls t = Some t'
                                   /\ task_ok t' /\ buffer_ok (core t')).
  { induction calls as [| [e rx] calls IH]; intros t Hok Hbuf.
    - exists t. auto.
    - destruct (manual_control_task_safe e rx t Hok Hbuf)
        as (s1 & t1 & _ & Hrun & Hok1 & Hbuf1 & _).
      destruct (IH t1 Hok1 Hbuf1) as (t' & Hrest & Hok' & Hbuf').
      exists t'. cbn [task_calls]. rewrite Hrun. cbn [mbind option_bind].
      auto. }
  destruct (H initial_task) as (t' & Hrun & Hok' & Hbuf');
    try apply initial_task_ok.
  exists t'. split; [exact Hrun |]. split; [exact Hok' |].
  split; [exact Hbuf' |].
  pose proof (pending_length t' Hok') as Hpl.
  destruct Hok' as (_ & Hpos & _). lia.
Qed.

(** ** The target and the range command *)

(** Without the wrap-arounds, which do not occur for a 12-bit value and
    a range within its limits: [map] at its rational value, truncated. *)
Lemma target_of_value adcValue s :
  adc12 adcValue -> 0 < position_range s <= 50000 ->
  target_of adcValue s
  = adcValue * (2 * (position_range s ÷ 2)) / 4095 - position_range s ÷ 2.
Proof.
  intros Hv Hr. unfold adc12 in Hv.
  unfold target_of, Arduino.map, adc_range.
  set (R := position_range s) in *.
  assert (Hh : 0 <= R ÷ 2 <= 25000).
  { rewrite Z.quot_div_nonneg by lia.
    pose proof (Z.div_pos R 2 ltac:(lia) ltac:(lia)).
    pose proof (Z.div_le_upper_bound R 2 25000 ltac:(lia) ltac:(lia)). lia. }
  rewrite (wrap_i32_small (- R)) by lia.
  rewrite Z.quot_opp_l by lia.
  set (h := R ÷ 2) in *.
  rewrite (wrap_i32_small (adcValue - 0)) by lia.
  rewrite (wrap_i32_small (h - - h)) by lia.
  rewrite (wrap_i32_small (4095 - 0)) by lia.
  replace (adcValue - 0) with adcValue by lia.
  replace (h - - h) with (2 * h) by lia.
  replace (4095 - 0) with 4095 by lia.
  assert (Hp : 0 <= adcValue * (2 * h) <= 4095 * (2 * h)) by nia.
  rewrite (wrap_i32_small (adcValue * (2 * h))) by lia.
  rewrite Z.quot_div_nonneg by lia.
  pose proof (Z.div_pos (adcValue * (2 * h)) 4095 ltac:(lia) ltac:(lia)) as Hq0.
  assert (Hq1 : adcValue * (2 * h) / 4095 <= 2 * h).
  { apply Z.div_le_upper_bound; lia. }
  rewrite wrap_i32_small by lia. lia.
Qed.

(** While the number read fits 31 bits the 32-bit accumulator holds
    it. *)
Lemma read_digits_nonneg p : forall acc,
  0 <= acc -> acc <= read_digits (fun z => z) p acc.
Proof.
  induction p as [| c r IH]; intros acc Hacc; cbn [read_digits]; [lia |].
  destruct (is_digit c) eqn:D; [| lia].
  assert (48 <= char_code c).
  { unfold is_digit in D. apply andb_prop in D as [D _].
    apply Z.leb_le in D. exact D. }
  specialize (IH (acc * 10 + (char_code c - 48)) ltac:(lia)). lia.
Qed.

Lemma read_digits_i32 p : forall acc,
  0 <= acc -> read_digits (fun z => z) p acc < 2 ^ 31 ->
  read_digits wrap_i32 p acc = read_digits (fun z => z) p acc.
Proof.
  induction p as [| c r IH]; intros acc Hacc Hfit; cbn [read_digits] in *;
    [reflexivity |].
  destruct (is_digit c) eqn:D; [| reflexivity].
  assert (48 <= char_code c).
  { unfold is_digit in D. apply andb_prop in D as [D _].
    apply Z.leb_le in D. exact D. }
  pose proof (read_digits_nonneg r (acc * 10 + (char_code c - 48)) ltac:(lia)).
  rewrite wrap_i32_small by lia.
  apply IH; [lia | exact Hfit].
Qed.

(** X20.  For a 12-bit median and a range within its limits (1 to
    50000) the target is computed without overflow: it is the median
    times twice the half range, divided by 4095 and lowered by the half
    range.  The target does not decrease when the median increases;
    the median 0 maps to minus the half range and 4095 to the half
    range, so an odd range loses its last step. *)
Theorem target_of_is_monotone adcValue adcValue' s :
  0 < position_range s <= 50000 ->
  adc12 adcValue -> adc12 adcValue' -> adcValue <= adcValue' ->
  target_of adcValue s
  = adcValue * (2 * (position_range s ÷ 2)) / 4095 - position_range s ÷ 2
  /\ target_of adcValue s <= target_of adcValue' s
  /\ target_of 0 s = - (position_range s ÷ 2)
  /\ target_of 4095 s = position_range s ÷ 2.
Proof.
  intros Hr Hv Hv' Hle.
  assert (Hh : 0 <= position_range s ÷ 2).
  { rewrite Z.quot_div_nonneg by lia. apply Z.div_pos; lia. }
  rewrite !target_of_value by (unfold adc12 in *; lia).
  split; [reflexivity |]. split; [| split].
  - apply Z.sub_le_mono_r, Z.div_le_mono; [lia | nia].
  - rewrite Z.mul_0_l, Z.div_0_l by lia. lia.
  - rewrite Z.mul_comm, Z.div_mul by lia. lia.
Qed.

Lemma target_of_is_monotone_witness :
  target_of 1000 initial_state = -1638
  /\ target_of 1000 initial_state <= target_of 3000 initial_state.
Proof.
  destruct (target_of_is_monotone 1000 3000 initial_state) as (Hv & Hle & _).
  - cbn. lia.
  - unfold adc12. lia.
  - unfold adc12. lia.
  - lia.
  - split; [rewrite Hv; reflexivity | exact Hle].
Defined.

(** X21.  The command [adc_range] followed by a text: the number
    written by the leading decimal digits of the text is read (none
    gives 0), and what follows them is ignored.  While that number fits
    31 bits, it becomes the range exactly when it lies between 1 and
    50000, and its half is reported; any other number leaves the whole
    state as it was, with no output. *)
Theorem adc_range_sets_valid_ranges_only e rest s :
  is_nul (deref rest) = false ->
  decimal_value rest < 2 ^ 31 ->
  process_manual_command e ("adc_range" ++ rest)%string s
  = Some (if (0 <? decimal_value rest) && (decimal_value rest <=? 50000)
          then emit [SERIAL_ECHO (Text "Position range set to ±");
                     SERIAL_ECHOLN (Int (decimal_value rest ÷ 2))]
                 (set_range (decimal_value rest) s)
          else s).
Proof.
  intros Hrest Hfit.
  unfold process_manual_command, strcmp, strncmp.
  cbn [append c_str is_nul Ascii.eqb Bool.eqb nul take_chars String.eqb
         andb].
  unfold adc_set_range. cbn [append ptr_add is_nul Ascii.eqb Bool.eqb nul andb
                               mbind option_bind].
  rewrite Hrest. cbn [negb].
  unfold decimal_value in *.
  rewrite read_digits_i32 by (try lia; exact Hfit).
  destruct ((0 <? read_digits (fun z => z) rest 0)
            && (read_digits (fun z => z) rest 0 <=? 50000)); reflexivity.
Qed.

Lemma adc_range_sets_valid_ranges_only_witness :
  exists s',
    process_manual_command (mkEnv 0 (fun _ => 0)) "adc_range9000 steps"
      initial_state = Some s'
    /\ position_range s' = 9000.
Proof.
  pose proof (adc_range_sets_valid_ranges_only
                (mkEnv 0 (fun _ => 0)) "9000 steps" initial_state) as H.
  eexists. split.
  - apply H; [reflexivity | vm_compute; reflexivity].
  - reflexivity.
Defined.

(** X22.  The states of the main loop are the reachable states: after
    any number of calls of the task from reset, with 12-bit readings of
    the bed thermistor pin at the ticks, the tracking state is one that
    commands and ticks reach from the initial state.  What holds of
    every reachable state therefore holds in the running firmware. *)
Theorem main_loop_states_are_reachable calls t' :
  Forall (fun call => adc12 (analogRead call.1 TEMP_BED_PIN)) calls ->
  task_calls calls initial_task = Some t' ->
  reachable (core t').
Proof.
  assert (Hdrain : forall rx t t1,
             reachable (core t) -> drain rx t = Some t1 -> reachable (core t1)).
  { induction rx as [| [e c] rx IH]; intros t t1 Hr Hrun.
    - injection Hrun as <-. exact Hr.
    - cbn [drain] in Hrun. apply bind_Some in Hrun as (t2 & Hstep & Hrun).
      apply (IH t2 t1); [| exact Hrun].
      unfold task_byte in Hstep.
      destruct (is_newline c).
      + destruct (0 <? buffer_pos t); [| congruence].
        apply bind_Some in Hstep as (buf & _ & Hstep).
        apply bind_Some in Hstep as (s & Hcmd & Hstep).
        injection Hstep as <-.
        exact (reachable_command _ _ _ _ Hr Hcmd).
      + destruct (is_printable c && (buffer_pos t <? 31)); [| congruence].
        apply bind_Some in Hstep as (buf & _ & Hstep).
        injection Hstep as <-. exact Hr. }
  assert (H : forall t,
             Forall (fun call => adc12 (analogRead call.1 TEMP_BED_PIN)) calls ->
             reachable (core t) -> task_calls calls t = Some t' ->
             reachable (core t')).
  { induction calls as [| [e rx] calls IH]; intros t Hall Hr Hrun.
    - injection Hrun as <-. exact Hr.
    - apply Forall_cons in Hall as [He Hall]. cbn [fst] in He.
      cbn [task_calls] in Hrun.
      apply bind_Some in Hrun as (t1 & Hcall & Hrun).
      apply (IH t1 Hall); [| exact Hrun].
      unfold manual_control_task in Hcall.
      apply bind_Some in Hcall as (s1 & Htick & Hcall).
      apply (Hdrain rx (mkTask s1 (command_buffer t) (buffer_pos t)) t1);
        [| exact Hcall].
      exact (reachable_tick _ _ _ Hr He Htick). }
  intros Hall Hrun. apply (H initial_task Hall); [| exact Hrun].
  apply reachable_init.
Qed.

Lemma main_loop_states_are_reachable_witness :
  exists t',
    task_calls [(mkEnv 20 (fun _ => 4095),
                 [(mkEnv 20 (fun _ => 0), "o"%char);
                  (mkEnv 20 (fun _ => 0), "n"%char);
                  (mkEnv 20 (fun _ => 0), "010"%char)])]
      initial_task = Some t'
    /\ reachable (core t').
Proof.
  destruct (task_calls [(mkEnv 20 (fun _ => 4095),
                 [(mkEnv 20 (fun _ => 0), "o"%char);
                  (mkEnv 20 (fun _ => 0), "n"%char);
                  (mkEnv 20 (fun _ => 0), "010"%char)])]
      initial_task) as [t' |] eqn:E; [| vm_compute in E; discriminate E].
  exists t'. split; [reflexivity |].
  refine (main_loop_states_are_reachable _ t' _ E).
  repeat constructor; unfold adc12; cbn; lia.
Defined.
